(** * opsorch-github-adapter: normalisation, query filtering and the stdio bridge

    A shallow embedding of the three resource adapters (ticket, deployment,
    team) and of the request loops under [cmd/], followed by the properties
    of the specification that were checked against them.

    Conventions of the embedding.
    - Go [string]s are [string]s of bytes; Go [int]/[int64] values are [Z].
    - [map[string]any] is a [gmap string GoAny].
    - A pointer field that the code tests against [nil] is an [option]; the
      other go-github fields are read through their [GetX] accessors, which
      give the zero value for [nil], and are modelled by that value.
    - The remote API is an oracle answering each call from the history of
      calls made so far; every adapter operation threads that history, so
      the calls an operation makes can be read back from its final state.
    - Go's [strings.ToLower] and [strings.EqualFold] are written out for
      text made of ASCII bytes; what they do with any other text rests on
      the tables of Go's [unicode] package, which are taken as a parameter
      ([GoStrings.Unicode]) of every definition that lowers or folds. *)

From Stdlib Require Import ZArith Ascii String List Bool Lia DecimalString
  DecimalPos.
From stdpp Require Import base option list strings gmap.

Open Scope string_scope.

(** ** Go library functions used by the adapters *)

Module GoStrings.

(** One byte of [strings.ToLower] on ASCII text: 'A'..'Z' go to
    'a'..'z', every other byte is kept. *)
Definition lowerByte (c : ascii) : ascii :=
  let n := N_of_ascii c in
  if ((65 <=? n) && (n <=? 90))%N then ascii_of_N (n + 32) else c.

(** The ASCII path of [strings.ToLower]: byte by byte. *)
Fixpoint lowerASCII (s : string) : string :=
  match s with
  | EmptyString => EmptyString
  | String c t => String (lowerByte c) (lowerASCII t)
  end.

(** Every byte of [s] is below [utf8.RuneSelf]. *)
Fixpoint isASCII (s : string) : bool :=
  match s with
  | EmptyString => true
  | String c t => (N_of_ascii c <? 128)%N && isASCII t
  end.

(** The parts of Go's library that rest on the tables of its [unicode]
    package.
    - [mapToLower s] is [strings.Map(unicode.ToLower, s)], which
      [strings.ToLower] returns for a string with a byte outside ASCII.
    - [foldEqual s t] is [strings.EqualFold(s, t)] for two strings that
      are not both ASCII, where runes are compared under Unicode simple
      case folding. *)
Class Unicode : Type := {
  mapToLower : string -> string;
  foldEqual : string -> string -> bool
}.

Section WithUnicode.
Context {U : Unicode}.

(** [strings.ToLower]: a scan for a byte outside ASCII, then the
    byte-wise path when there is none and [strings.Map(unicode.ToLower, s)]
    otherwise. *)
Definition ToLower (s : string) : string :=
  if isASCII s then lowerASCII s else mapToLower s.

(** [strings.EqualFold]: on two ASCII strings, equality of the bytes up to
    the case of the letters 'A'..'Z', and of the lengths. *)
Definition EqualFold (s t : string) : bool :=
  if isASCII s && isASCII t then String.eqb (lowerASCII s) (lowerASCII t)
  else foldEqual s t.

End WithUnicode.

(** [strings.HasPrefix s prefix]. *)
Fixpoint HasPrefix (s prefix : string) : bool :=
  match prefix, s with
  | EmptyString, _ => true
  | String _ _, EmptyString => false
  | String p ps, String c cs => Ascii.eqb c p && HasPrefix cs ps
  end.

(** [strings.Contains s substr]: [substr] occurs at some offset of [s]. *)
Fixpoint Contains (s substr : string) : bool :=
  HasPrefix s substr
  || match s with
     | EmptyString => false
     | String _ t => Contains t substr
     end.

(** [s[:n]] for [n <= len(s)]. *)
Fixpoint take (n : nat) (s : string) : string :=
  match n, s with
  | S k, String c t => String c (take k t)
  | _, _ => EmptyString
  end.

End GoStrings.

(** Tables that know no letter outside ASCII.  The sample runs of this file
    are on ASCII text, where [ToLower] and [EqualFold] do not consult the
    tables; they are made with these. *)
Definition asciiTables : GoStrings.Unicode :=
  {| GoStrings.mapToLower := GoStrings.lowerASCII;
     GoStrings.foldEqual := fun s t =>
       String.eqb (GoStrings.lowerASCII s) (GoStrings.lowerASCII t) |}.

Module GoStrconv.

Definition int64_min : Z := (- 2 ^ 63)%Z.
Definition int64_max : Z := (2 ^ 63 - 1)%Z.

Definition digitVal (c : ascii) : option Z :=
  let n := N_of_ascii c in
  if ((48 <=? n) && (n <=? 57))%N then Some (Z.of_N n - 48)%Z else None.

(** Left-to-right accumulation of decimal digits; [None] on a byte that
    is not a digit. *)
Fixpoint digits (acc : Z) (s : string) : option Z :=
  match s with
  | EmptyString => Some acc
  | String c t =>
      match digitVal c with
      | Some d => digits (10 * acc + d)%Z t
      | None => None
      end
  end.

(** [strconv.ParseInt(s, 10, 64)]: an optional sign, at least one digit,
    and a value in the int64 range; [None] stands for the error. *)
Definition ParseInt (s : string) : option Z :=
  let '(neg, body) :=
    match s with
    | String "+" t => (false, t)
    | String "-" t => (true, t)
    | _ => (false, s)
    end in
  match body with
  | EmptyString => None
  | _ =>
      match digits 0 body with
      | None => None
      | Some n =>
          let v := if neg then (- n)%Z else n in
          if ((int64_min <=? v) && (v <=? int64_max))%Z then Some v
          else None
      end
  end.

(** [strconv.Atoi] on a 64-bit platform. *)
Definition Atoi (s : string) : option Z := ParseInt s.

(** [strconv.FormatInt(n, 10)] and [strconv.Itoa]. *)
Definition FormatInt (n : Z) : string := NilZero.string_of_int (Z.to_int n).
Definition Itoa (n : Z) : string := FormatInt n.

End GoStrconv.

(** [any] values that reach the adapters through configuration and query
    metadata. *)
Inductive GoAny : Type :=
| AnyNil
| AnyString (s : string)
| AnyBool (b : bool)
| AnyNumber (n : Z)
| AnyStrings (l : list string)
| AnyOther (dynamicType : string).

(** The type assertion [v.(string)] on a map read [cfg[k]]: a missing key
    reads as the nil interface, for which the assertion fails as well. *)
Definition asString (v : option GoAny) : option string :=
  match v with
  | Some (AnyString s) => Some s
  | _ => None
  end.

(** The type assertion [v.([]string)]. *)
Definition asStrings (v : option GoAny) : option (list string) :=
  match v with
  | Some (AnyStrings l) => Some l
  | _ => None
  end.

(** Results of fallible operations: [Err e] for a non-nil [error]. *)
Inductive Result (E A : Type) : Type :=
| Ok (a : A)
| Err (e : E).
Arguments Ok {E A} a.
Arguments Err {E A} e.

(** [orcherr.OpsOrchError]. *)
Record OpsOrchError : Type := mkOpsOrchError {
  Code : string;
  Message : string
}.

(** Errors returned by the go-github client: an [*github.ErrorResponse]
    with its HTTP status and message, or any other error with its text. *)
Inductive ClientError : Type :=
| ErrorResponse (StatusCode : Z) (msg : string)
| OtherError (text : string).

(** [wrapError], parameterised by the 403 and 404 messages, which are the
    only parts that differ between the three adapters. *)
Definition wrapErrorWith (forbidden notFound : string) (err : ClientError)
  : OpsOrchError :=
  match err with
  | ErrorResponse code msg =>
      if (code =? 401)%Z then
        mkOpsOrchError "unauthorized" "GitHub API authentication failed"
      else if (code =? 403)%Z then mkOpsOrchError "forbidden" forbidden
      else if (code =? 404)%Z then mkOpsOrchError "not_found" notFound
      else if (code =? 422)%Z then
        mkOpsOrchError "bad_request" ("GitHub API validation error: " +:+ msg)
      else mkOpsOrchError "provider_error" ("GitHub API error: " +:+ msg)
  | OtherError text =>
      mkOpsOrchError "provider_error" ("GitHub API error: " +:+ text)
  end.

(** [time.Time], kept abstract as a number; [0] is the zero time. *)
Definition Time : Type := Z.
Definition IsZero (t : Time) : bool := (t =? 0)%Z.

(** The fragment of [github.User] the adapters read. *)
Record User : Type := mkUser {
  user_Login : string;
  user_ID : Z;
  user_AvatarURL : string;
  user_HTMLURL : string;
  user_SiteAdmin : bool;
  user_Type : string;
  user_Name : string;
  user_Email : string;
  user_Company : string;
  user_Location : string;
  user_Bio : string;
  user_Blog : string;
  user_TwitterUsername : string;
  user_PublicRepos : Z;
  user_Followers : Z;
  user_Following : Z
}.

(** [github.ListOptions]; [Page] is never set by the adapters, and the
    zero value asks for the first page. *)
Record ListOptions : Type := mkListOptions {
  Page : Z;
  PerPage : Z
}.

(** The handle made by [github.NewTokenClient]: it carries the token that
    authenticates every call made through it. *)
Record GithubClient : Type := NewTokenClient {
  clientToken : string
}.

(** ** Calls to the remote API

    An operation is a function from the history of calls made so far to
    its result and the extended history. *)
Section History.
Context {Call : Type}.

Definition M (A : Type) : Type := list Call -> A * list Call.

Definition ret {A} (a : A) : M A := fun h => (a, h).

Definition bind {A B} (m : M A) (k : A -> M B) : M B :=
  fun h => let '(a, h') := m h in k a h'.

(** One round trip: the answer is read from the history before the
    call, and the call is recorded. *)
Definition perform {A} (c : Call) (answer : list Call -> A) : M A :=
  fun h => (answer h, (h ++ [c])%list).

End History.
Arguments M : clear implicits.

Notation "'do' x <- m ; k" := (bind m (fun x => k))
  (at level 10, x name, m at level 100, k at level 200).

(** ** The deployment adapter ([deployment/provider.go]) *)

Module Deployment.
Import GoStrings GoStrconv.

Record Config : Type := mkConfig {
  Token : string;
  Owner : string;
  Repo : string
}.

Record Provider : Type := mkProvider {
  client : GithubClient;
  config : Config
}.

(** [New]: the three required keys, each read with a [string] type
    assertion, in source order. *)
Definition New (cfg : gmap string GoAny) : Result string Provider :=
  match asString (cfg !! "token") with
  | None => Err "token is required"
  | Some token =>
      match asString (cfg !! "owner") with
      | None => Err "owner is required"
      | Some owner =>
          match asString (cfg !! "repo") with
          | None => Err "repo is required"
          | Some repo =>
              Ok (mkProvider (NewTokenClient token)
                             (mkConfig token owner repo))
          end
      end
  end.

(** [github.WorkflowRun], the fields that are read. *)
Record WorkflowRun : Type := mkWorkflowRun {
  run_ID : Z;
  run_Name : string;
  run_Status : string;
  run_Conclusion : string;
  run_HTMLURL : string;
  run_HeadBranch : string;
  run_HeadSHA : string;
  run_CreatedAt : Time;
  run_UpdatedAt : Time;
  run_Actor : option User;
  run_HeadCommit : option string   (* the commit's message *)
}.

Record ListWorkflowRunsOptions : Type := mkOpts {
  opt_Actor : string;
  opt_Branch : string;
  opt_Event : string;
  opt_Status : string;
  opt_ListOptions : ListOptions
}.

(** [schema.DeploymentQuery] and [schema.Deployment] of opsorch-core. *)
Record QueryScope : Type := mkScope {
  scope_Service : string;
  scope_Environment : string;
  scope_Team : string
}.

Record DeploymentQuery : Type := mkQuery {
  q_Statuses : list string;
  q_Scope : QueryScope;
  q_Limit : Z;
  q_Metadata : gmap string GoAny
}.

Record DeploymentT : Type := mkDeployment {
  d_ID : string;
  d_Status : string;
  d_URL : string;
  d_Service : string;
  d_Environment : string;
  d_Version : string;
  d_StartedAt : Time;
  d_FinishedAt : Time;
  d_Actor : gmap string GoAny;
  d_Fields : gmap string GoAny
}.

Section WithUnicode.
Context {U : Unicode}.

(** [normalizeStatus]. *)
Definition normalizeStatus (status conclusion : string) : string :=
  let s := ToLower status in
  if s =? "queued" then "queued"
  else if s =? "in_progress" then "running"
  else if s =? "completed" then
    let c := ToLower conclusion in
    if c =? "success" then "success"
    else if c =? "failure" then "failed"
    else if c =? "cancelled" then "cancelled"
    else if c =? "skipped" then "cancelled"
    else if c =? "timed_out" then "failed"
    else if c =? "action_required" then "failed"
    else "failed"
  else status.

Definition envPatterns : list string :=
  ["prod"; "production"; "staging"; "stage";
   "dev"; "development"; "test"; "testing"].

(** The loop [for _, env := range envPatterns] with its early return:
    [Some env] when the body returned [env], [None] when the loop ran to
    its end. *)
Fixpoint scanPatterns (lowered : string) (patterns : list string)
  : option string :=
  match patterns with
  | [] => None
  | env :: rest =>
      if Contains lowered env then Some env else scanPatterns lowered rest
  end.

(** [extractEnvironment]. *)
Definition extractEnvironment (workflowName branch : string) : string :=
  let workflowLower := ToLower workflowName in
  match scanPatterns workflowLower envPatterns with
  | Some env => env
  | None =>
      let branchLower := ToLower branch in
      match scanPatterns branchLower envPatterns with
      | Some env => env
      | None =>
          if (branchLower =? "main") || (branchLower =? "master")
          then "production"
          else if (branchLower =? "develop") || (branchLower =? "dev")
          then "development"
          else "development"
      end
  end.

(** [convertWorkflowRunToDeployment]. *)
Definition convertWorkflowRunToDeployment (p : Provider) (run : WorkflowRun)
  : DeploymentT :=
  let fields : gmap string GoAny :=
    <["branch" := AnyString (run_HeadBranch run)]>
      (<["commit" := AnyString (run_HeadSHA run)]>
         {["workflow_name" := AnyString (run_Name run)]}) in
  {| d_ID := FormatInt (run_ID run);
     d_Status := normalizeStatus (run_Status run) (run_Conclusion run);
     d_URL := run_HTMLURL run;
     d_Service := Repo (config p);
     d_Environment := extractEnvironment (run_Name run) (run_HeadBranch run);
     d_Version :=
       (let headSHA := run_HeadSHA run in
        if negb (headSHA =? "") && (7 <=? String.length headSHA)%nat
        then take 7 headSHA else "");
     d_StartedAt :=
       (let createdAt := run_CreatedAt run in
        if negb (IsZero createdAt) then createdAt else 0%Z);
     d_FinishedAt :=
       (let updatedAt := run_UpdatedAt run in
        if negb (IsZero updatedAt) then updatedAt else 0%Z);
     d_Actor :=
       match run_Actor run with
       | Some actor => {["login" := AnyString (user_Login actor)]}
       | None => ∅
       end;
     d_Fields :=
       match run_HeadCommit run with
       | Some message => <["commit_message" := AnyString message]> fields
       | None => fields
       end |}.

Definition wrapError : ClientError -> OpsOrchError :=
  wrapErrorWith "GitHub API access forbidden"
                "GitHub repository or workflow run not found".

(** The two calls the adapter makes, with the handle they go through. *)
Inductive Call : Type :=
| ListRepositoryWorkflowRuns
    (via : GithubClient) (owner repo : string)
    (opts : ListWorkflowRunsOptions)
| GetWorkflowRunByID (via : GithubClient) (owner repo : string) (runID : Z).

(** The remote side: what each call answers after a given history. *)
Record Remote : Type := mkRemote {
  listRuns : list Call -> GithubClient -> string -> string ->
             ListWorkflowRunsOptions ->
             Result ClientError (list WorkflowRun);
  getRun : list Call -> GithubClient -> string -> string -> Z ->
           Result ClientError WorkflowRun
}.

(** The page size sent upstream. *)
Definition perPage (limit : Z) : Z :=
  if ((0 <? limit) && (limit <? 100))%Z then limit else 100%Z.

(** The status loop of [Query]: each recognised status overwrites
    [opts.Status], so the last recognised one is sent. *)
Definition pushStatus (acc status : string) : string :=
  let s := ToLower status in
  if s =? "queued" then "queued"
  else if (s =? "running") || (s =? "in_progress") then "in_progress"
  else if (s =? "success") || (s =? "completed") then "completed"
  else if s =? "failed" then "completed"
  else if s =? "cancelled" then "completed"
  else acc.

Definition queryOptions (query : DeploymentQuery) : ListWorkflowRunsOptions :=
  let meta (k : string) : string :=
    match asString (q_Metadata query !! k) with
    | Some v => v
    | None => ""
    end in
  {| opt_Actor := meta "actor";
     opt_Branch := meta "branch";
     opt_Event := meta "event";
     opt_Status := fold_left pushStatus (q_Statuses query) "";
     opt_ListOptions := mkListOptions 0%Z (perPage (q_Limit query)) |}.

(** The body of the result loop of [Query]: [Some d] when the run is
    appended, [None] when one of the three [continue]s is taken. *)
Definition keepRun (p : Provider) (query : DeploymentQuery)
           (run : WorkflowRun) : option DeploymentT :=
  let statusOk :=
    match q_Statuses query with
    | [] => true
    | statuses =>
        let normalizedStatus :=
          normalizeStatus (run_Status run) (run_Conclusion run) in
        existsb (fun status => EqualFold normalizedStatus status) statuses
    end in
  if negb statusOk then None
  else
    let deployment := convertWorkflowRunToDeployment p run in
    if negb (scope_Service (q_Scope query) =? "")
       && negb (d_Service deployment =? scope_Service (q_Scope query))
    then None
    else if negb (scope_Environment (q_Scope query) =? "")
            && negb (d_Environment deployment
                     =? scope_Environment (q_Scope query))
    then None
    else Some deployment.

(** The result loop of [Query]. *)
Fixpoint collectDeployments (p : Provider) (query : DeploymentQuery)
         (runs : list WorkflowRun) : list DeploymentT :=
  match runs with
  | [] => []
  | run :: rest =>
      match keepRun p query run with
      | Some deployment => deployment :: collectDeployments p query rest
      | None => collectDeployments p query rest
      end
  end.

(** [Query]. *)
Definition Query (r : Remote) (p : Provider) (query : DeploymentQuery)
  : M Call (Result OpsOrchError (list DeploymentT)) :=
  let opts := queryOptions query in
  let owner := Owner (config p) in
  let repo := Repo (config p) in
  do runs <- perform (ListRepositoryWorkflowRuns (client p) owner repo opts)
                     (fun h => listRuns r h (client p) owner repo opts);
  match runs with
  | Err err => ret (Err (wrapError err))
  | Ok runs => ret (Ok (collectDeployments p query runs))
  end.

(** [Get]. *)
Definition Get (r : Remote) (p : Provider) (id : string)
  : M Call (Result OpsOrchError DeploymentT) :=
  match ParseInt id with
  | None =>
      ret (Err (mkOpsOrchError "bad_request"
                               ("invalid workflow run ID: " +:+ id)))
  | Some runID =>
      let owner := Owner (config p) in
      let repo := Repo (config p) in
      do run <- perform (GetWorkflowRunByID (client p) owner repo runID)
                        (fun h => getRun r h (client p) owner repo runID);
      match run with
      | Err err => ret (Err (wrapError err))
      | Ok run => ret (Ok (convertWorkflowRunToDeployment p run))
      end
  end.

End WithUnicode.

End Deployment.

(** ** The ticket adapter ([ticket/provider.go]) *)

Module Ticket.
Import GoStrings GoStrconv.

Record Config : Type := mkConfig {
  Token : string;
  Owner : string;
  Repo : string;
  DefaultState : string
}.

Record Provider : Type := mkProvider {
  client : GithubClient;
  config : Config
}.

(** [New]: three required keys in source order, then the optional
    [defaultState]. *)
Definition New (cfg : gmap string GoAny) : Result string Provider :=
  match asString (cfg !! "token") with
  | None => Err "token is required"
  | Some token =>
      match asString (cfg !! "owner") with
      | None => Err "owner is required"
      | Some owner =>
          match asString (cfg !! "repo") with
          | None => Err "repo is required"
          | Some repo =>
              let defaultState :=
                match asString (cfg !! "defaultState") with
                | Some state => state
                | None => "open"
                end in
              Ok (mkProvider (NewTokenClient token)
                             (mkConfig token owner repo defaultState))
          end
      end
  end.

(** [github.Issue], the fields that are read.  [issue_PullRequestLinks]
    is the pointer the result loop of [Query] tests; what it points to
    is never read. *)
Record Issue : Type := mkIssue {
  issue_Number : Z;
  issue_Title : string;
  issue_Body : string;
  issue_State : string;
  issue_HTMLURL : string;
  issue_CreatedAt : Time;
  issue_UpdatedAt : Time;
  issue_Assignees : list User;
  issue_User : option User;
  issue_Labels : list string;          (* the labels' names *)
  issue_Milestone : option string;     (* the milestone's title *)
  issue_PullRequestLinks : option string
}.

Record IssueListByRepoOptions : Type := mkOpts {
  opt_State : string;
  opt_Assignee : string;
  opt_Labels : list string;
  opt_ListOptions : ListOptions
}.

(** [github.IssueRequest]: every field is a pointer, [None] when unset. *)
Record IssueRequest : Type := mkIssueRequest {
  req_Title : option string;
  req_Body : option string;
  req_Labels : option (list string);
  req_Assignees : option (list string);
  req_State : option string
}.

(** The opsorch-core schema types. *)
Record TicketQuery : Type := mkQuery {
  q_Statuses : list string;
  q_ScopeTeam : string;
  q_Limit : Z;
  q_Metadata : gmap string GoAny
}.

Record CreateTicketInput : Type := mkCreateInput {
  c_Title : string;
  c_Description : string;
  c_Fields : gmap string GoAny;
  c_Metadata : gmap string GoAny
}.

Record UpdateTicketInput : Type := mkUpdateInput {
  u_Title : option string;
  u_Description : option string;
  u_Status : option string;
  u_Assignees : option (list string)
}.

Record TicketT : Type := mkTicket {
  t_ID : string;
  t_Title : string;
  t_Description : string;
  t_Status : string;
  t_URL : string;
  t_Assignees : list string;
  t_Reporter : string;
  t_CreatedAt : Time;
  t_UpdatedAt : Time;
  t_Fields : gmap string GoAny
}.

Section WithUnicode.
Context {U : Unicode}.

(** [normalizeStatus]. *)
Definition normalizeStatus (state : string) : string :=
  let s := ToLower state in
  if s =? "open" then "open"
  else if s =? "closed" then "closed"
  else state.

(** [convertIssueToTicket]. *)
Definition convertIssueToTicket (p : Provider) (issue : Issue) : TicketT :=
  let fields0 : gmap string GoAny :=
    {["url" := AnyString (issue_HTMLURL issue)]} in
  let fields1 : gmap string GoAny :=
    match issue_Labels issue with
    | [] => fields0
    | labels => <["labels" := AnyStrings labels]> fields0
    end in
  {| t_ID := Itoa (issue_Number issue);
     t_Title := issue_Title issue;
     t_Description := issue_Body issue;
     t_Status := normalizeStatus (issue_State issue);
     t_URL := issue_HTMLURL issue;
     t_Assignees := map user_Login (issue_Assignees issue);
     t_Reporter :=
       match issue_User issue with
       | Some user => user_Login user
       | None => ""
       end;
     t_CreatedAt := issue_CreatedAt issue;
     t_UpdatedAt := issue_UpdatedAt issue;
     t_Fields :=
       match issue_Milestone issue with
       | Some title => <["milestone" := AnyString title]> fields1
       | None => fields1
       end |}.

Definition wrapError : ClientError -> OpsOrchError :=
  wrapErrorWith "GitHub API access forbidden"
                "GitHub repository or issue not found".

Inductive Call : Type :=
| ListByRepo (via : GithubClient) (owner repo : string)
             (opts : IssueListByRepoOptions)
| IssuesGet (via : GithubClient) (owner repo : string) (number : Z)
| IssuesCreate (via : GithubClient) (owner repo : string)
               (request : IssueRequest)
| IssuesEdit (via : GithubClient) (owner repo : string) (number : Z)
             (request : IssueRequest).

Record Remote : Type := mkRemote {
  listByRepo : list Call -> GithubClient -> string -> string ->
               IssueListByRepoOptions -> Result ClientError (list Issue);
  getIssue : list Call -> GithubClient -> string -> string -> Z ->
             Result ClientError Issue;
  createIssue : list Call -> GithubClient -> string -> string ->
                IssueRequest -> Result ClientError Issue;
  editIssue : list Call -> GithubClient -> string -> string -> Z ->
              IssueRequest -> Result ClientError Issue
}.

(** The page size sent upstream. *)
Definition perPage (limit : Z) : Z :=
  if ((0 <? limit) && (limit <? 100))%Z then limit else 100%Z.

(** The status loop of [Query]: the last recognised status decides
    [opts.State]. *)
Definition pushState (acc status : string) : string :=
  let s := ToLower status in
  if (s =? "open") || (s =? "new") || (s =? "in_progress") then "open"
  else if (s =? "closed") || (s =? "resolved") || (s =? "done") then "closed"
  else acc.

Definition queryOptions (query : TicketQuery) : IssueListByRepoOptions :=
  {| opt_State := fold_left pushState (q_Statuses query) "";
     opt_Assignee := q_ScopeTeam query;
     opt_Labels :=
       match asStrings (q_Metadata query !! "labels") with
       | Some labels => labels
       | None => []
       end;
     opt_ListOptions := mkListOptions 0%Z (perPage (q_Limit query)) |}.

(** The result loop of [Query]: a record with pull-request links takes
    the [continue]; every other record is converted and appended. *)
Fixpoint collectTickets (p : Provider) (issues : list Issue)
  : list TicketT :=
  match issues with
  | [] => []
  | issue :: rest =>
      match issue_PullRequestLinks issue with
      | Some _ => collectTickets p rest
      | None => convertIssueToTicket p issue :: collectTickets p rest
      end
  end.

(** [Query]. *)
Definition Query (r : Remote) (p : Provider) (query : TicketQuery)
  : M Call (Result OpsOrchError (list TicketT)) :=
  let opts := queryOptions query in
  let owner := Owner (config p) in
  let repo := Repo (config p) in
  do issues <- perform (ListByRepo (client p) owner repo opts)
                       (fun h => listByRepo r h (client p) owner repo opts);
  match issues with
  | Err err => ret (Err (wrapError err))
  | Ok issues => ret (Ok (collectTickets p issues))
  end.

Definition badIssueNumber (id : string) : OpsOrchError :=
  mkOpsOrchError "bad_request" ("invalid issue number: " +:+ id).

(** [Get]. *)
Definition Get (r : Remote) (p : Provider) (id : string)
  : M Call (Result OpsOrchError TicketT) :=
  match Atoi id with
  | None => ret (Err (badIssueNumber id))
  | Some issueNumber =>
      let owner := Owner (config p) in
      let repo := Repo (config p) in
      do issue <- perform (IssuesGet (client p) owner repo issueNumber)
                    (fun h => getIssue r h (client p) owner repo issueNumber);
      match issue with
      | Err err => ret (Err (wrapError err))
      | Ok issue => ret (Ok (convertIssueToTicket p issue))
      end
  end.

(** The request built by [Create]. *)
Definition createRequest (input : CreateTicketInput) : IssueRequest :=
  {| req_Title := Some (c_Title input);
     req_Body := Some (c_Description input);
     req_Labels := asStrings (c_Metadata input !! "labels");
     req_Assignees :=
       match asStrings (c_Fields input !! "assignees") with
       | Some (a :: l) => Some (a :: l)
       | _ => None
       end;
     req_State := None |}.

(** [Create]. *)
Definition Create (r : Remote) (p : Provider) (input : CreateTicketInput)
  : M Call (Result OpsOrchError TicketT) :=
  let issueRequest := createRequest input in
  let owner := Owner (config p) in
  let repo := Repo (config p) in
  do issue <- perform (IssuesCreate (client p) owner repo issueRequest)
                (fun h => createIssue r h (client p) owner repo issueRequest);
  match issue with
  | Err err => ret (Err (wrapError err))
  | Ok issue => ret (Ok (convertIssueToTicket p issue))
  end.

(** A pointer to a string that is set and not empty, as tested by
    [input.X != nil && *input.X != ""]. *)
Definition nonEmpty (v : option string) : option string :=
  match v with
  | Some s => if s =? "" then None else Some s
  | None => None
  end.

(** The [switch] on the lowered status in [Update]; it has no [default],
    so a status outside the two groups assigns nothing. *)
Definition updateState (status : string) : option string :=
  let s := ToLower status in
  if (s =? "open") || (s =? "new") || (s =? "in_progress") then Some "open"
  else if (s =? "closed") || (s =? "resolved") || (s =? "done")
  then Some "closed"
  else None.

(** The request built by [Update], starting from the empty
    [&github.IssueRequest{}]. *)
Definition updateRequest (input : UpdateTicketInput) : IssueRequest :=
  {| req_Title := nonEmpty (u_Title input);
     req_Body := nonEmpty (u_Description input);
     req_Labels := None;
     req_Assignees :=
       match u_Assignees input with
       | Some (a :: l) => Some (a :: l)
       | _ => None
       end;
     req_State :=
       match nonEmpty (u_Status input) with
       | Some status => updateState status
       | None => None
       end |}.

(** [Update]. *)
Definition Update (r : Remote) (p : Provider) (id : string)
           (input : UpdateTicketInput)
  : M Call (Result OpsOrchError TicketT) :=
  match Atoi id with
  | None => ret (Err (badIssueNumber id))
  | Some issueNumber =>
      let issueRequest := updateRequest input in
      let owner := Owner (config p) in
      let repo := Repo (config p) in
      do issue <-
        perform (IssuesEdit (client p) owner repo issueNumber issueRequest)
          (fun h => editIssue r h (client p) owner repo issueNumber
                              issueRequest);
      match issue with
      | Err err => ret (Err (wrapError err))
      | Ok issue => ret (Ok (convertIssueToTicket p issue))
      end
  end.

End WithUnicode.

End Ticket.

(** ** The team adapter ([team/provider.go]) *)

Module Team.
Import GoStrings GoStrconv.

Record Config : Type := mkConfig {
  Token : string;
  Organization : string
}.

Record Provider : Type := mkProvider {
  client : GithubClient;
  config : Config
}.

(** [New]: two required keys in source order. *)
Definition New (cfg : gmap string GoAny) : Result string Provider :=
  match asString (cfg !! "token") with
  | None => Err "token is required"
  | Some token =>
      match asString (cfg !! "organization") with
      | None => Err "organization is required"
      | Some org =>
          Ok (mkProvider (NewTokenClient token) (mkConfig token org))
      end
  end.

(** The identity of a parent team, the only part of it that is read. *)
Record ParentRef : Type := mkParentRef {
  parent_ID : Z;
  parent_Slug : string
}.

(** [github.Team]. *)
Record GithubTeam : Type := mkGithubTeam {
  team_ID : Z;
  team_Slug : string;
  team_Name : string;
  team_Description : string;
  team_Privacy : string;
  team_Permission : string;
  team_HTMLURL : string;
  team_MembersURL : string;
  team_RepositoriesURL : string;
  team_MembersCount : Z;
  team_ReposCount : Z;
  team_Parent : option ParentRef
}.

(** The opsorch-core schema types. *)
Record TeamQuery : Type := mkQuery {
  q_Name : string;
  q_Tags : gmap string string
}.

Record TeamT : Type := mkTeam {
  t_ID : string;
  t_Name : string;
  t_URL : string;
  t_Parent : string;
  t_Tags : gmap string string;
  t_Metadata : gmap string GoAny
}.

Record TeamMember : Type := mkTeamMember {
  m_ID : string;
  m_Name : string;
  m_Email : string;
  m_Handle : string;
  m_Role : string;
  m_Metadata : gmap string GoAny
}.

Section WithUnicode.
Context {U : Unicode}.

(** [normalizeRole]. *)
Definition normalizeRole (role : string) : string :=
  let r := ToLower role in
  if r =? "maintainer" then "owner"
  else if r =? "member" then "member"
  else "member".

(** The slug when there is one, the decimal id otherwise. *)
Definition slugOrID (id : Z) (slug : string) : string :=
  if negb (slug =? "") then slug else FormatInt id.

(** [convertTeamToSchema]. *)
Definition convertTeamToSchema (p : Provider) (team : GithubTeam) : TeamT :=
  {| t_ID := slugOrID (team_ID team) (team_Slug team);
     t_Name := team_Name team;
     t_URL := team_HTMLURL team;
     t_Parent :=
       match team_Parent team with
       | Some parent => slugOrID (parent_ID parent) (parent_Slug parent)
       | None => ""
       end;
     t_Tags :=
       <["organization" := Organization (config p)]>
         (<["provider" := "github"]>
            (<["privacy" := team_Privacy team]>
               {["permission" := team_Permission team]}));
     t_Metadata :=
       list_to_map
         [("github_id", AnyNumber (team_ID team));
          ("slug", AnyString (team_Slug team));
          ("description", AnyString (team_Description team));
          ("privacy", AnyString (team_Privacy team));
          ("permission", AnyString (team_Permission team));
          ("html_url", AnyString (team_HTMLURL team));
          ("members_url", AnyString (team_MembersURL team));
          ("repositories_url", AnyString (team_RepositoriesURL team));
          ("members_count", AnyNumber (team_MembersCount team));
          ("repos_count", AnyNumber (team_ReposCount team))] |}.

Definition wrapError : ClientError -> OpsOrchError :=
  wrapErrorWith "GitHub API access forbidden - check token permissions"
                "GitHub organization or team not found".

Inductive Call : Type :=
| ListTeams (via : GithubClient) (org : string) (opts : ListOptions)
| GetTeamBySlug (via : GithubClient) (org slug : string)
| OrganizationsGet (via : GithubClient) (org : string)
| GetTeamByID (via : GithubClient) (orgID teamID : Z)
| ListTeamMembersByID (via : GithubClient) (orgID teamID : Z)
                      (opts : ListOptions)
| UsersGet (via : GithubClient) (login : string)
| GetTeamMembershipByID (via : GithubClient) (orgID teamID : Z)
                        (login : string).

(** The remote side.  [getOrganization] answers the organisation's id;
    [getMembership] answers the membership's role, or [None] for a nil
    membership returned without an error. *)
Record Remote : Type := mkRemote {
  listTeams : list Call -> GithubClient -> string -> ListOptions ->
              Result ClientError (list GithubTeam);
  getTeamBySlug : list Call -> GithubClient -> string -> string ->
                  Result ClientError GithubTeam;
  getOrganization : list Call -> GithubClient -> string ->
                    Result ClientError Z;
  getTeamByID : list Call -> GithubClient -> Z -> Z ->
                Result ClientError GithubTeam;
  listTeamMembers : list Call -> GithubClient -> Z -> Z -> ListOptions ->
                    Result ClientError (list User);
  getUser : list Call -> GithubClient -> string -> Result ClientError User;
  getMembership : list Call -> GithubClient -> Z -> Z -> string ->
                  Result ClientError (option string)
}.

(** The tag loop of [Query]: a missing key of the team's tags reads as
    the empty string. *)
Definition tagsMatch (wanted actual : gmap string string) : bool :=
  forallb (fun kv => default "" (actual !! fst kv) =? snd kv)
          (map_to_list wanted).

Definition keepTeam (query : TeamQuery) (normalizedTeam : TeamT) : bool :=
  (if negb (q_Name query =? "")
      && negb (Contains (ToLower (t_Name normalizedTeam))
                        (ToLower (q_Name query)))
   then false else true)
  && tagsMatch (q_Tags query) (t_Tags normalizedTeam).

(** [Query]. *)
Definition Query (r : Remote) (p : Provider) (query : TeamQuery)
  : M Call (Result OpsOrchError (list TeamT)) :=
  let opts := mkListOptions 0%Z 100%Z in
  let org := Organization (config p) in
  do teams <- perform (ListTeams (client p) org opts)
                      (fun h => listTeams r h (client p) org opts);
  match teams with
  | Err err => ret (Err (wrapError err))
  | Ok teams =>
      ret (Ok (filter (fun t => keepTeam query t = true)
                      (map (convertTeamToSchema p) teams)))
  end.

(** [Get]. *)
Definition Get (r : Remote) (p : Provider) (id : string)
  : M Call (Result OpsOrchError TeamT) :=
  let org := Organization (config p) in
  match ParseInt id with
  | None =>
      do team <- perform (GetTeamBySlug (client p) org id)
                         (fun h => getTeamBySlug r h (client p) org id);
      match team with
      | Err err => ret (Err (wrapError err))
      | Ok team => ret (Ok (convertTeamToSchema p team))
      end
  | Some teamID =>
      do orgID <- perform (OrganizationsGet (client p) org)
                          (fun h => getOrganization r h (client p) org);
      match orgID with
      | Err err => ret (Err (wrapError err))
      | Ok orgID =>
          do team <- perform (GetTeamByID (client p) orgID teamID)
                       (fun h => getTeamByID r h (client p) orgID teamID);
          match team with
          | Err err => ret (Err (wrapError err))
          | Ok team => ret (Ok (convertTeamToSchema p team))
          end
      end
  end.

(** The metadata every member gets. *)
Definition basicMetadata (member : User) : list (string * GoAny) :=
  [("github_id", AnyNumber (user_ID member));
   ("avatar_url", AnyString (user_AvatarURL member));
   ("html_url", AnyString (user_HTMLURL member));
   ("site_admin", AnyBool (user_SiteAdmin member));
   ("type", AnyString (user_Type member))].

(** The member appended when [Users.Get] fails. *)
Definition basicMember (member : User) : TeamMember :=
  {| m_ID := user_Login member;
     m_Name := user_Login member;
     m_Email := "";
     m_Handle := user_Login member;
     m_Role := "member";
     m_Metadata := list_to_map (basicMetadata member) |}.

(** The member appended when [Users.Get] answers [user]. *)
Definition detailedMember (member user : User) (role : string)
  : TeamMember :=
  {| m_ID := user_Login member;
     m_Name := user_Name user;
     m_Email := user_Email user;
     m_Handle := user_Login member;
     m_Role := normalizeRole role;
     m_Metadata :=
       list_to_map
         (basicMetadata member ++
          [("company", AnyString (user_Company user));
           ("location", AnyString (user_Location user));
           ("bio", AnyString (user_Bio user));
           ("blog", AnyString (user_Blog user));
           ("twitter", AnyString (user_TwitterUsername user));
           ("public_repos", AnyNumber (user_PublicRepos user));
           ("followers", AnyNumber (user_Followers user));
           ("following", AnyNumber (user_Following user))])%list |}.

(** One iteration of the member loop of [Members]. *)
Definition memberStep (r : Remote) (p : Provider) (orgID id : Z)
           (member : User) : M Call TeamMember :=
  let login := user_Login member in
  do user <- perform (UsersGet (client p) login)
                     (fun h => getUser r h (client p) login);
  match user with
  | Err _ => ret (basicMember member)
  | Ok user =>
      do membership <-
        perform (GetTeamMembershipByID (client p) orgID id login)
                (fun h => getMembership r h (client p) orgID id login);
      let role :=
        match membership with
        | Ok (Some role) => role
        | _ => "member"
        end in
      ret (detailedMember member user role)
  end.

(** The member loop: no iteration returns from [Members]. *)
Fixpoint memberLoop (r : Remote) (p : Provider) (orgID id : Z)
         (members : list User) : M Call (list TeamMember) :=
  match members with
  | [] => ret []
  | member :: rest =>
      do m <- memberStep r p orgID id member;
      do ms <- memberLoop r p orgID id rest;
      ret (m :: ms)
  end.

(** The part of [Members] after the team id is known. *)
Definition membersOf (r : Remote) (p : Provider) (id : Z)
  : M Call (Result OpsOrchError (list TeamMember)) :=
  let org := Organization (config p) in
  let opts := mkListOptions 0%Z 100%Z in
  do orgID <- perform (OrganizationsGet (client p) org)
                      (fun h => getOrganization r h (client p) org);
  match orgID with
  | Err err => ret (Err (wrapError err))
  | Ok orgID =>
      do members <-
        perform (ListTeamMembersByID (client p) orgID id opts)
                (fun h => listTeamMembers r h (client p) orgID id opts);
      match members with
      | Err err => ret (Err (wrapError err))
      | Ok members =>
          do result <- memberLoop r p orgID id members;
          ret (Ok result)
      end
  end.

(** The first block of [Members]: the numeric id when [teamID] parses,
    the id of the team found by slug otherwise. *)
Definition resolveTeamID (r : Remote) (p : Provider) (teamID : string)
  : M Call (Result OpsOrchError Z) :=
  let org := Organization (config p) in
  match ParseInt teamID with
  | Some id => ret (Ok id)
  | None =>
      do team <- perform (GetTeamBySlug (client p) org teamID)
                         (fun h => getTeamBySlug r h (client p) org teamID);
      match team with
      | Err err => ret (Err (wrapError err))
      | Ok team => ret (Ok (team_ID team))
      end
  end.

(** [Members]. *)
Definition Members (r : Remote) (p : Provider) (teamID : string)
  : M Call (Result OpsOrchError (list TeamMember)) :=
  do id <- resolveTeamID r p teamID;
  match id with
  | Err e => ret (Err e)
  | Ok id => membersOf r p id
  end.

End WithUnicode.

End Team.

(** ** The request loops ([cmd/]) *)

(** The [error] values the loops write.  On the wire an error is the text
    of its [Error()] method; the value is kept here so that its origin
    stays visible. *)
Inductive GoError : Type :=
| Errorf (text : string)              (* made by [fmt.Errorf] *)
| FromProvider (e : OpsOrchError)     (* returned by an adapter operation *)
| FromJSON (text : string).           (* returned by [encoding/json] *)

(** What one [dec.Decode(&req)] gives, for a [json.Decoder] on standard
    input.
    - [Request_ req]: the next JSON value, decoded into a request.
    - [DecodeError text]: the next JSON value was read but does not fit
      the request type.  [Decode] gives an error with this text; the
      decoder has moved past the value, and the next [Decode] reads what
      follows.
    - [StreamError text]: the input is not JSON at this point, or cannot be
      read.  The decoder keeps such an error and gives it again at every
      later [Decode]: what follows it in the input is never decoded.
    The end of the list of outcomes is the end of standard input, where
    [Decode] gives [io.EOF]. *)
Inductive Decoded (Request : Type) : Type :=
| Request_ (req : Request)
| DecodeError (text : string)
| StreamError (text : string).
Arguments Request_ {Request} req.
Arguments DecodeError {Request} text.
Arguments StreamError {Request} text.

(** [len(os.Args) > 1 && os.Args[1] == "--version"]. *)
Definition versionFlag (args : list string) : bool :=
  match args with
  | _ :: flag :: _ => flag =? "--version"
  | _ => false
  end.

(** [cmd/ticketplugin/main.go]. *)
Module TicketPlugin.
Import Ticket.

(** A [json.RawMessage] payload, given by what [json.Unmarshal] makes of
    it at each of the four targets the loop uses. *)
Record RawMessage : Type := mkRaw {
  asQuery : Result string TicketQuery;
  asID : Result string string;
  asCreate : Result string CreateTicketInput;
  asUpdate : Result string (string * UpdateTicketInput)
}.

Record rpcRequest : Type := mkRequest {
  Method : string;
  Config : gmap string GoAny;
  Payload : RawMessage
}.

Inductive ResultValue : Type :=
| Tickets (l : list TicketT)
| OneTicket (t : TicketT).

(** [rpcResponse], as written by [writeOK] and [writeErr]. *)
Inductive rpcResponse : Type :=
| writeOK (result : ResultValue)
| writeErr (err : GoError).

Definition methods : list string :=
  ["ticket.query"; "ticket.get"; "ticket.create"; "ticket.update"].

Definition reply {A} (wrap : A -> ResultValue)
           (res : Result OpsOrchError A) : rpcResponse :=
  match res with
  | Ok a => writeOK (wrap a)
  | Err e => writeErr (FromProvider e)
  end.

Section WithUnicode.
Context {U : GoStrings.Unicode}.

(** The [switch req.Method] of the loop body. *)
Definition dispatch (r : Remote) (provider : Provider) (req : rpcRequest)
  : M Call rpcResponse :=
  let m := Method req in
  if m =? "ticket.query" then
    match asQuery (Payload req) with
    | Err e => ret (writeErr (FromJSON e))
    | Ok query =>
        do result <- Query r provider query; ret (reply Tickets result)
    end
  else if m =? "ticket.get" then
    match asID (Payload req) with
    | Err e => ret (writeErr (FromJSON e))
    | Ok id => do result <- Get r provider id; ret (reply OneTicket result)
    end
  else if m =? "ticket.create" then
    match asCreate (Payload req) with
    | Err e => ret (writeErr (FromJSON e))
    | Ok input =>
        do result <- Create r provider input; ret (reply OneTicket result)
    end
  else if m =? "ticket.update" then
    match asUpdate (Payload req) with
    | Err e => ret (writeErr (FromJSON e))
    | Ok (id, input) =>
        do result <- Update r provider id input;
        ret (reply OneTicket result)
    end
  else ret (writeErr (Errorf ("unknown method: " +:+ m))).

(** The body of the loop after a request was decoded: the value of the
    variable [provider] after the iteration, and the one response it
    writes.  [New] always returns a [*ticket.Provider], so the branch
    for a failed type assertion cannot be taken. *)
Definition handle (r : Remote) (provider : option Provider)
           (req : rpcRequest) : M Call (option Provider * rpcResponse) :=
  match provider with
  | Some p => do resp <- dispatch r p req; ret (Some p, resp)
  | None =>
      match New (Config req) with
      | Err e => ret (None, writeErr (Errorf e))
      | Ok p => do resp <- dispatch r p req; ret (Some p, resp)
      end
  end.

(** The [for] loop of [main]: it returns at the end of input and at the
    first decode error. *)
Fixpoint loop (r : Remote) (provider : option Provider)
         (input : list (Decoded rpcRequest)) : M Call (list rpcResponse) :=
  match input with
  | [] => ret []
  | DecodeError text :: _ | StreamError text :: _ =>
      if text =? "EOF" then ret [] else ret [writeErr (FromJSON text)]
  | Request_ req :: rest =>
      do step <- handle r provider req;
      do out <- loop r (fst step) rest;
      ret (snd step :: out)
  end.

(** The variable [provider] after the loop has handled the requests
    [reqs], with the responses it wrote for them. *)
Fixpoint serve (r : Remote) (provider : option Provider)
         (reqs : list rpcRequest)
  : M Call (option Provider * list rpcResponse) :=
  match reqs with
  | [] => ret (provider, [])
  | req :: rest =>
      do step <- handle r provider req;
      do tail <- serve r (fst step) rest;
      ret (fst tail, snd step :: snd tail)
  end.

Inductive Output : Type :=
| Println (line : string)
| Responses (l : list rpcResponse).

(** [main], from [os.Args] and the decoded input. *)
Definition main (r : Remote) (args : list string)
           (input : list (Decoded rpcRequest)) : M Call Output :=
  if versionFlag args
  then ret (Println "opsorch-github-ticket-plugin v1.0.0")
  else do out <- loop r None input; ret (Responses out).

End WithUnicode.

End TicketPlugin.

(** [cmd/deploymentplugin/main.go]. *)
Module DeploymentPlugin.
Import Deployment.

Record RawMessage : Type := mkRaw {
  asQuery : Result string DeploymentQuery;
  asID : Result string string
}.

Record rpcRequest : Type := mkRequest {
  Method : string;
  Config : gmap string GoAny;
  Payload : RawMessage
}.

Inductive ResultValue : Type :=
| Deployments (l : list DeploymentT)
| OneDeployment (d : DeploymentT).

Inductive rpcResponse : Type :=
| writeOK (result : ResultValue)
| writeErr (err : GoError).

Definition methods : list string := ["deployment.query"; "deployment.get"].

Definition reply {A} (wrap : A -> ResultValue)
           (res : Result OpsOrchError A) : rpcResponse :=
  match res with
  | Ok a => writeOK (wrap a)
  | Err e => writeErr (FromProvider e)
  end.

Section WithUnicode.
Context {U : GoStrings.Unicode}.

Definition dispatch (r : Remote) (provider : Provider) (req : rpcRequest)
  : M Call rpcResponse :=
  let m := Method req in
  if m =? "deployment.query" then
    match asQuery (Payload req) with
    | Err e => ret (writeErr (FromJSON e))
    | Ok query =>
        do result <- Query r provider query; ret (reply Deployments result)
    end
  else if m =? "deployment.get" then
    match asID (Payload req) with
    | Err e => ret (writeErr (FromJSON e))
    | Ok id =>
        do result <- Get r provider id; ret (reply OneDeployment result)
    end
  else ret (writeErr (Errorf ("unknown method: " +:+ m))).

Definition handle (r : Remote) (provider : option Provider)
           (req : rpcRequest) : M Call (option Provider * rpcResponse) :=
  match provider with
  | Some p => do resp <- dispatch r p req; ret (Some p, resp)
  | None =>
      match New (Config req) with
      | Err e => ret (None, writeErr (Errorf e))
      | Ok p => do resp <- dispatch r p req; ret (Some p, resp)
      end
  end.

Fixpoint loop (r : Remote) (provider : option Provider)
         (input : list (Decoded rpcRequest)) : M Call (list rpcResponse) :=
  match input with
  | [] => ret []
  | DecodeError text :: _ | StreamError text :: _ =>
      if text =? "EOF" then ret [] else ret [writeErr (FromJSON text)]
  | Request_ req :: rest =>
      do step <- handle r provider req;
      do out <- loop r (fst step) rest;
      ret (snd step :: out)
  end.

(** The variable [provider] after the loop has handled the requests
    [reqs], with the responses it wrote for them. *)
Fixpoint serve (r : Remote) (provider : option Provider)
         (reqs : list rpcRequest)
  : M Call (option Provider * list rpcResponse) :=
  match reqs with
  | [] => ret (provider, [])
  | req :: rest =>
      do step <- handle r provider req;
      do tail <- serve r (fst step) rest;
      ret (fst tail, snd step :: snd tail)
  end.

Inductive Output : Type :=
| Println (line : string)
| Responses (l : list rpcResponse).

Definition main (r : Remote) (args : list string)
           (input : list (Decoded rpcRequest)) : M Call Output :=
  if versionFlag args
  then ret (Println "opsorch-github-deployment-plugin v1.0.0")
  else do out <- loop r None input; ret (Responses out).

End WithUnicode.

End DeploymentPlugin.

(** [cmd/teamplugin/main.go]. *)
Module TeamPlugin.
Import Team.

Record RawMessage : Type := mkRaw {
  asQuery : Result string TeamQuery;
  asID : Result string string;
  asTeamID : Result string string
}.

Record PluginRequest : Type := mkRequest {
  Method : string;
  Params : RawMessage
}.

Record PluginError : Type := mkPluginError {
  Code : string;
  Message : string
}.

Inductive ResultValue : Type :=
| Teams (l : list TeamT)
| OneTeam (t : TeamT)
| TeamMembers (l : list TeamMember).

Inductive PluginResponse : Type :=
| ResultOf (v : ResultValue)
| ErrorOf (e : PluginError).

Definition methods : list string :=
  ["team.query"; "team.get"; "team.members"].

(** The text of [err.Error()] for an adapter error, a function of the
    error that opsorch-core defines. *)
Definition reply {A} (errorText : OpsOrchError -> string)
           (wrap : A -> ResultValue) (res : Result OpsOrchError A)
  : PluginResponse :=
  match res with
  | Ok a => ResultOf (wrap a)
  | Err e => ErrorOf (mkPluginError "provider_error" (errorText e))
  end.

Section WithUnicode.
Context {U : GoStrings.Unicode}.

(** [handleRequest]. *)
Definition handleRequest (errorText : OpsOrchError -> string)
           (r : Remote) (provider : Provider) (req : PluginRequest)
  : M Call PluginResponse :=
  let m := Method req in
  if m =? "team.query" then
    match asQuery (Params req) with
    | Err e =>
        ret (ErrorOf (mkPluginError "bad_request"
                        ("Invalid query parameters: " +:+ e)))
    | Ok query =>
        do teams <- Query r provider query;
        ret (reply errorText Teams teams)
    end
  else if m =? "team.get" then
    match asID (Params req) with
    | Err e =>
        ret (ErrorOf (mkPluginError "bad_request"
                        ("Invalid parameters: " +:+ e)))
    | Ok id =>
        do team <- Get r provider id; ret (reply errorText OneTeam team)
    end
  else if m =? "team.members" then
    match asTeamID (Params req) with
    | Err e =>
        ret (ErrorOf (mkPluginError "bad_request"
                        ("Invalid parameters: " +:+ e)))
    | Ok teamID =>
        do members <- Members r provider teamID;
        ret (reply errorText TeamMembers members)
    end
  else
    ret (ErrorOf (mkPluginError "method_not_found"
                    ("Unknown method: " +:+ m))).

(** The [for] loop of [main], by the responses it writes.  A decode error
    other than the end of input is logged and the loop goes on with the
    next [Decode].  After an error that the decoder keeps, that next
    [Decode] and every later one give the same error again: the loop
    never reads another request and writes nothing more (it ends when the
    error is the end of input, and goes round for ever otherwise). *)
Fixpoint loop (errorText : OpsOrchError -> string) (r : Remote)
         (provider : Provider) (input : list (Decoded PluginRequest))
  : M Call (list PluginResponse) :=
  match input with
  | [] => ret []
  | DecodeError text :: rest =>
      if text =? "EOF" then ret [] else loop errorText r provider rest
  | StreamError _ :: _ => ret []
  | Request_ req :: rest =>
      do response <- handleRequest errorText r provider req;
      do out <- loop errorText r provider rest;
      ret (response :: out)
  end.

(** Whether the loop comes to its [break]: it does at the end of input,
    and it does not after an error that the decoder keeps, which is not
    the end of input and comes again at every turn. *)
Fixpoint leaves (input : list (Decoded PluginRequest)) : bool :=
  match input with
  | [] => true
  | DecodeError text :: rest => if text =? "EOF" then true else leaves rest
  | StreamError text :: _ => text =? "EOF"
  | Request_ _ :: rest => leaves rest
  end.

(** The variable [OPSORCH_TEAM_CONFIG]: empty, not JSON, or a JSON
    object. *)
Inductive EnvConfig : Type :=
| EnvEmpty
| EnvInvalid (text : string)
| EnvObject (config : gmap string GoAny).

(** What [main] does: it exits through [log.Fatal], it returns having
    written some responses, or it never returns, the loop going round on
    an error of the decoder after having written some responses. *)
Inductive Output : Type :=
| Fatal (message : string)
| Responses (l : list PluginResponse)
| Spinning (l : list PluginResponse).

(** [main]. *)
Definition main (errorText : OpsOrchError -> string) (r : Remote)
           (env : EnvConfig) (input : list (Decoded PluginRequest))
  : M Call Output :=
  match env with
  | EnvEmpty =>
      ret (Fatal "OPSORCH_TEAM_CONFIG environment variable is required")
  | EnvInvalid text => ret (Fatal ("Failed to parse config: " +:+ text))
  | EnvObject config =>
      match New config with
      | Err e =>
          ret (Fatal ("Failed to create GitHub team provider: " +:+ e))
      | Ok provider =>
          do out <- loop errorText r provider input;
          ret (if leaves input then Responses out else Spinning out)
      end
  end.

End WithUnicode.

End TeamPlugin.

(** ** Specification-side definitions

    These follow the wording of the specification; the theorems below
    compare them with the code. *)

Module Spec.
Import GoStrings.

(** [upper] is one of the capital letters 'A'..'Z' and [lower] is the small
    letter for it. *)
Definition LetterPair (upper lower : ascii) : Prop :=
  (65 <= N_of_ascii upper <= 90)%N
  /\ N_of_ascii lower = (N_of_ascii upper + 32)%N.

(** Two bytes are the same letter in either case, or the same byte. *)
Definition SameLetter (c d : ascii) : Prop :=
  c = d \/ LetterPair c d \/ LetterPair d c.

(** Two strings are equal up to letter case: byte by byte, up to the case
    of the letters 'A'..'Z' and 'a'..'z'. *)
Inductive SameUpToCase : string -> string -> Prop :=
| same_empty : SameUpToCase "" ""
| same_letter c d s t :
    SameLetter c d -> SameUpToCase s t ->
    SameUpToCase (String c s) (String d t).

(** [s] is one of [words] up to letter case. *)
Definition OneOf (words : list string) (s : string) : Prop :=
  Exists (SameUpToCase s) words.

(** [sub] is a substring of [s]. *)
Definition Substring (sub s : string) : Prop :=
  exists before after, s = before +:+ sub +:+ after.

(** [p] is a substring of [text] up to letter case. *)
Definition FoldSubstring (p text : string) : Prop :=
  exists w, Substring w text /\ SameUpToCase w p.

Section Lowering.
Context {U : Unicode}.

(** [s] is [word] once lowered the way Go's [strings.ToLower] lowers: a
    match without regard to case, for every string.  For a string of ASCII
    bytes and a lower-case ASCII word it is [SameUpToCase s word]. *)
Definition LowersTo (s word : string) : Prop := ToLower s = word.

(** Lowered, [s] is one of [words]. *)
Definition LowersInto (words : list string) (s : string) : Prop :=
  In (ToLower s) words.

(** Two strings that are lowered to the same string. *)
Definition SameLowered (s t : string) : Prop := ToLower s = ToLower t.

(** [p] is a substring of the lowered [text]. *)
Definition LowerSubstring (p text : string) : Prop :=
  Substring p (ToLower text).

(** Two strings equal under Go's [strings.EqualFold]. *)
Definition FoldsTo (s t : string) : Prop := EqualFold s t = true.

End Lowering.

Section Tables.

(** How a string is matched against a word of a table, and how a pattern
    is looked for in a text. *)
Variable same : string -> string -> Prop.
Variable within : string -> string -> Prop.

(** The deployment status table, row by row.  [StatusTable status
    conclusion out]: the table gives [out] for a run with that status and
    conclusion, both matched by [same]. *)
Inductive StatusTable (status conclusion : string) : string -> Prop :=
| row_queued :
    same status "queued" -> StatusTable status conclusion "queued"
| row_in_progress :
    same status "in_progress" -> StatusTable status conclusion "running"
| row_success :
    same status "completed" -> same conclusion "success" ->
    StatusTable status conclusion "success"
| row_failure :
    same status "completed" -> same conclusion "failure" ->
    StatusTable status conclusion "failed"
| row_cancelled :
    same status "completed" -> same conclusion "cancelled" ->
    StatusTable status conclusion "cancelled"
| row_skipped :
    same status "completed" -> same conclusion "skipped" ->
    StatusTable status conclusion "cancelled"
| row_timed_out :
    same status "completed" -> same conclusion "timed_out" ->
    StatusTable status conclusion "failed"
| row_action_required :
    same status "completed" -> same conclusion "action_required" ->
    StatusTable status conclusion "failed"
| row_completed_other :
    same status "completed" ->
    ~ Exists (same conclusion)
        ["success"; "failure"; "cancelled"; "skipped"; "timed_out";
         "action_required"] ->
    StatusTable status conclusion "failed"
| row_passthrough :
    ~ Exists (same status) ["queued"; "in_progress"; "completed"] ->
    StatusTable status conclusion status.

(** [p] is the first pattern of [patterns] that is found in [text]. *)
Definition FirstPattern (patterns : list string) (text p : string) : Prop :=
  exists earlier later,
    patterns = (earlier ++ p :: later)%list
    /\ within p text
    /\ Forall (fun q => ~ within q text) earlier.

Definition NoPattern (patterns : list string) (text : string) : Prop :=
  Forall (fun q => ~ within q text) patterns.

Definition patterns : list string :=
  ["prod"; "production"; "staging"; "stage";
   "dev"; "development"; "test"; "testing"].

(** Environment inference as the specification words it. *)
Inductive Inferred (name branch : string) : string -> Prop :=
| by_name p : FirstPattern patterns name p -> Inferred name branch p
| by_branch p :
    NoPattern patterns name -> FirstPattern patterns branch p ->
    Inferred name branch p
| by_main :
    NoPattern patterns name -> NoPattern patterns branch ->
    Exists (same branch) ["main"; "master"] ->
    Inferred name branch "production"
| by_develop :
    NoPattern patterns name -> NoPattern patterns branch ->
    Exists (same branch) ["develop"; "dev"] ->
    Inferred name branch "development"
| by_default :
    NoPattern patterns name -> NoPattern patterns branch ->
    ~ Exists (same branch) ["main"; "master"; "develop"; "dev"] ->
    Inferred name branch "development".

End Tables.

(** The values of the two alias groups of ticket statuses. *)
Definition aliasValues : list string :=
  ["open"; "new"; "in_progress"; "closed"; "resolved"; "done"].

(** The configuration holds a string under [key]. *)
Definition HasString (cfg : gmap string GoAny) (key : string) : Prop :=
  exists s, cfg !! key = Some (AnyString s).

(** [key] is the first of the [required] keys, in their order, that is
    missing from the configuration or does not hold a string. *)
Definition FirstMissing (required : list string) (cfg : gmap string GoAny)
           (key : string) : Prop :=
  exists before after,
    required = (before ++ key :: after)%list
    /\ Forall (HasString cfg) before
    /\ ~ HasString cfg key.

(** The same key, found by a scan. *)
Fixpoint firstMissingKey (required : list string) (cfg : gmap string GoAny)
  : option string :=
  match required with
  | [] => None
  | key :: rest =>
      match cfg !! key with
      | Some (AnyString _) => firstMissingKey rest cfg
      | _ => Some key
      end
  end.

(** The two states of a request loop. *)
Inductive BridgeState (Adapter : Type) : Type :=
| Uninitialized
| Ready (adapter : Adapter).
Arguments Uninitialized {Adapter}.
Arguments Ready {Adapter} adapter.

(** The state a loop is in, read from its variable [provider]. *)
Definition stateOf {Adapter} (provider : option Adapter)
  : BridgeState Adapter :=
  match provider with
  | None => Uninitialized
  | Some p => Ready p
  end.

(** The transition of the specification: a loop without an adapter
    becomes ready when construction from the request's configuration
    succeeds, and a ready loop keeps its adapter. *)
Definition next {Adapter} (New : gmap string GoAny -> Result string Adapter)
           (state : BridgeState Adapter) (cfg : gmap string GoAny)
  : BridgeState Adapter :=
  match state with
  | Ready p => Ready p
  | Uninitialized =>
      match New cfg with
      | Ok p => Ready p
      | Err _ => Uninitialized
      end
  end.

(** What it is for a request loop to be the two-state machine of the
    specification.  The loop is given by its parts: [New] and the
    request's configuration, the response [failure] written for a
    construction error, the method switch [dispatch], the loop body
    [handle], and [serve] and [loop] over several requests. *)
Definition StateMachine {Provider Remote Call Request Response : Type}
    (New : gmap string GoAny -> Result string Provider)
    (Config : Request -> gmap string GoAny)
    (failure : string -> Response)
    (dispatch : Remote -> Provider -> Request -> M Call Response)
    (handle : Remote -> option Provider -> Request ->
              M Call (option Provider * Response))
    (serve : Remote -> option Provider -> list Request ->
             M Call (option Provider * list Response))
    (loop : Remote -> option Provider -> list (Decoded Request) ->
            M Call (list Response)) : Prop :=
  (* every request moves the state as [next] says *)
  (forall r provider req h,
      stateOf (fst (fst (handle r provider req h)))
      = next New (stateOf provider) (Config req))
  (* without an adapter, a configuration that fails validation is
     reported, no call is made, and there is still no adapter *)
  /\ (forall r req h e,
         New (Config req) = Err e ->
         handle r None req h = ((None, failure e), h))
  (* without an adapter, a configuration that validates gives the adapter
     that answers this request *)
  /\ (forall r req h p,
         New (Config req) = Ok p ->
         handle r None req h
         = ((Some p, fst (dispatch r p req h)), snd (dispatch r p req h)))
  (* with an adapter, that adapter answers, whatever the request's
     configuration *)
  /\ (forall r p req h,
         handle r (Some p) req h
         = ((Some p, fst (dispatch r p req h)), snd (dispatch r p req h)))
  (* the adapter is kept over any sequence of requests *)
  /\ (forall r p reqs h, fst (fst (serve r (Some p) reqs h)) = Some p)
  (* after requests that all fail validation, the first one that
     validates decides the adapter, whatever follows *)
  /\ (forall r failing req p rest h,
         Forall (fun q => exists e, New (Config q) = Err e) failing ->
         New (Config req) = Ok p ->
         fst (fst (serve r None (failing ++ req :: rest)%list h)) = Some p)
  (* [serve] is what the loop does on decoded requests *)
  /\ (forall r provider reqs rest h,
         loop r provider (map Request_ reqs ++ rest)%list h
         = let served := serve r provider reqs h in
           let after := loop r (fst (fst served)) rest (snd served) in
           ((snd (fst served) ++ fst after)%list, snd after)).

(** An upstream issue record that is not a pull request. *)
Definition plainIssue (issue : Ticket.Issue) : bool :=
  match Ticket.issue_PullRequestLinks issue with
  | None => true
  | Some _ => false
  end.

(** The page size of the specification, with the bounds the code uses:
    the caller's limit when it is above 0 and below 100, else 100. *)
Definition pageSize (limit : Z) : Z :=
  if decide (0 < limit < 100)%Z then limit else 100%Z.

End Spec.

Section Pages.
Context {U : GoStrings.Unicode}.

(** The [ListOptions] a query sends. *)
Definition opt_ticket_page (q : Ticket.TicketQuery) : ListOptions :=
  Ticket.opt_ListOptions (Ticket.queryOptions q).

Definition opt_deployment_page (q : Deployment.DeploymentQuery) : ListOptions :=
  Deployment.opt_ListOptions (Deployment.queryOptions q).

End Pages.

(** ** Sample data, used to run the model on concrete inputs *)

Module Samples.

Definition octocat : User :=
  {| user_Login := "octocat"; user_ID := 1; user_AvatarURL := "";
     user_HTMLURL := "https://github.example/octocat";
     user_SiteAdmin := false; user_Type := "User";
     user_Name := "The Octocat"; user_Email := "octocat@github.example";
     user_Company := ""; user_Location := ""; user_Bio := "";
     user_Blog := ""; user_TwitterUsername := ""; user_PublicRepos := 8;
     user_Followers := 20; user_Following := 0 |}.

Definition issue (number : Z) (state : string) (links : option string)
  : Ticket.Issue :=
  {| Ticket.issue_Number := number;
     Ticket.issue_Title := "Sample";
     Ticket.issue_Body := "";
     Ticket.issue_State := state;
     Ticket.issue_HTMLURL := "";
     Ticket.issue_CreatedAt := 1%Z;
     Ticket.issue_UpdatedAt := 2%Z;
     Ticket.issue_Assignees := [];
     Ticket.issue_User := Some octocat;
     Ticket.issue_Labels := [];
     Ticket.issue_Milestone := None;
     Ticket.issue_PullRequestLinks := links |}.

(** A remote that lists [issues] and answers every other call with an
    open issue carrying the requested number. *)
Definition ticketRemote (issues : list Ticket.Issue) : Ticket.Remote :=
  {| Ticket.listByRepo := fun _ _ _ _ _ => Ok issues;
     Ticket.getIssue := fun _ _ _ _ n => Ok (issue n "open" None);
     Ticket.createIssue := fun _ _ _ _ _ => Ok (issue 1 "open" None);
     Ticket.editIssue := fun _ _ _ _ n _ => Ok (issue n "open" None) |}.

Definition run (id : Z) : Deployment.WorkflowRun :=
  {| Deployment.run_ID := id;
     Deployment.run_Name := "Build";
     Deployment.run_Status := "completed";
     Deployment.run_Conclusion := "success";
     Deployment.run_HTMLURL := "";
     Deployment.run_HeadBranch := "main";
     Deployment.run_HeadSHA := "0123456789abcdef";
     Deployment.run_CreatedAt := 1%Z;
     Deployment.run_UpdatedAt := 2%Z;
     Deployment.run_Actor := Some octocat;
     Deployment.run_HeadCommit := None |}.

(** A remote that lists [runs]. *)
Definition deploymentRemote (runs : list Deployment.WorkflowRun)
  : Deployment.Remote :=
  {| Deployment.listRuns := fun _ _ _ _ _ => Ok runs;
     Deployment.getRun := fun _ _ _ _ id => Ok (run id) |}.

Definition deploymentProvider : Deployment.Provider :=
  Deployment.mkProvider (NewTokenClient "t0ken")
                        (Deployment.mkConfig "t0ken" "acme" "widgets").

Definition ticketConfig : gmap string GoAny :=
  <["token" := AnyString "t0ken"]>
    (<["owner" := AnyString "acme"]> {["repo" := AnyString "widgets"]}).

(** A configuration whose owner is a number, and which has no
    [defaultState]. *)
Definition wrongOwnerConfig : gmap string GoAny :=
  <["token" := AnyString "t0ken"]>
    (<["owner" := AnyNumber 42]> {["repo" := AnyString "widgets"]}).

Definition ticketProvider : Ticket.Provider :=
  Ticket.mkProvider (NewTokenClient "t0ken")
                    (Ticket.mkConfig "t0ken" "acme" "widgets" "open").

(** A payload that decodes at none of the targets. *)
Definition noPayload : TicketPlugin.RawMessage :=
  {| TicketPlugin.asQuery := Err "unexpected end of JSON input";
     TicketPlugin.asID := Err "unexpected end of JSON input";
     TicketPlugin.asCreate := Err "unexpected end of JSON input";
     TicketPlugin.asUpdate := Err "unexpected end of JSON input" |}.

(** A payload holding the id "7". *)
Definition idPayload : TicketPlugin.RawMessage :=
  {| TicketPlugin.asQuery := Ok (Ticket.mkQuery [] "" 0 ∅);
     TicketPlugin.asID := Ok "7";
     TicketPlugin.asCreate := Ok (Ticket.mkCreateInput "" "" ∅ ∅);
     TicketPlugin.asUpdate :=
       Ok ("7", Ticket.mkUpdateInput None None None None) |}.

(** A request for a method the ticket loop does not know, carrying no
    configuration. *)
Definition unknownMethodRequest : TicketPlugin.rpcRequest :=
  TicketPlugin.mkRequest "ticket.delete" ∅ noPayload.

(** A request with a configuration that validates. *)
Definition getRequest : TicketPlugin.rpcRequest :=
  TicketPlugin.mkRequest "ticket.get" ticketConfig idPayload.

(** A later request carrying another owner. *)
Definition otherOwnerRequest : TicketPlugin.rpcRequest :=
  TicketPlugin.mkRequest "ticket.get"
    (<["owner" := AnyString "globex"]> ticketConfig) idPayload.

Definition person (login : string) (id : Z) : User :=
  {| user_Login := login; user_ID := id; user_AvatarURL := "";
     user_HTMLURL := "https://github.example/" +:+ login;
     user_SiteAdmin := false; user_Type := "User";
     user_Name := ""; user_Email := "";
     user_Company := ""; user_Location := ""; user_Bio := "";
     user_Blog := ""; user_TwitterUsername := ""; user_PublicRepos := 0;
     user_Followers := 0; user_Following := 0 |}.

(** The profile [Users.Get] answers for a login. *)
Definition profile (login : string) : User :=
  {| user_Login := login; user_ID := 0; user_AvatarURL := "";
     user_HTMLURL := ""; user_SiteAdmin := false; user_Type := "User";
     user_Name := "Name of " +:+ login;
     user_Email := login +:+ "@github.example";
     user_Company := "Acme"; user_Location := ""; user_Bio := "";
     user_Blog := ""; user_TwitterUsername := ""; user_PublicRepos := 3;
     user_Followers := 2; user_Following := 1 |}.

Definition platformTeam : Team.GithubTeam :=
  {| Team.team_ID := 9; Team.team_Slug := "platform";
     Team.team_Name := "Platform"; Team.team_Description := "";
     Team.team_Privacy := "closed"; Team.team_Permission := "pull";
     Team.team_HTMLURL := ""; Team.team_MembersURL := "";
     Team.team_RepositoriesURL := ""; Team.team_MembersCount := 3;
     Team.team_ReposCount := 0; Team.team_Parent := None |}.

Definition platformMembers : list User :=
  [person "alice" 11; person "bob" 12; person "carol" 13].

(** A remote with one team of three maintainers, where the profile of
    bob cannot be read. *)
Definition teamRemote : Team.Remote :=
  {| Team.listTeams := fun _ _ _ _ => Ok [platformTeam];
     Team.getTeamBySlug := fun _ _ _ _ => Ok platformTeam;
     Team.getOrganization := fun _ _ _ => Ok 100%Z;
     Team.getTeamByID := fun _ _ _ _ => Ok platformTeam;
     Team.listTeamMembers := fun _ _ _ _ _ => Ok platformMembers;
     Team.getUser := fun _ _ login =>
       if login =? "bob" then Err (ErrorResponse 404 "Not Found")
       else Ok (profile login);
     Team.getMembership := fun _ _ _ _ _ => Ok (Some "maintainer") |}.

Definition teamProvider : Team.Provider :=
  Team.mkProvider (NewTokenClient "t0ken") (Team.mkConfig "t0ken" "acme").

End Samples.

(** ** Further specification-side definitions *)

Module Obs.

(** The bounds of a Go [int64]. *)
Definition InInt64 (n : Z) : Prop :=
  (GoStrconv.int64_min <= n <= GoStrconv.int64_max)%Z.

(** The two alias groups of ticket statuses. *)
Definition openGroup : list string := ["open"; "new"; "in_progress"].
Definition closedGroup : list string := ["closed"; "resolved"; "done"].

(** The client handle, owner and repository a ticket call is made with. *)
Definition ticketTarget (c : Ticket.Call) : GithubClient * string * string :=
  match c with
  | Ticket.ListByRepo via owner repo _
  | Ticket.IssuesGet via owner repo _
  | Ticket.IssuesCreate via owner repo _
  | Ticket.IssuesEdit via owner repo _ _ => (via, owner, repo)
  end.

(** The calls one ticket operation adds: none or one, made with the
    adapter's handle, owner and repository. *)
Definition OwnCalls (p : Ticket.Provider) (h h' : list Ticket.Call) : Prop :=
  exists calls,
    h' = (h ++ calls)%list
    /\ (length calls <= 1)%nat
    /\ Forall (fun c => ticketTarget c
                        = (Ticket.client p, Ticket.Owner (Ticket.config p),
                           Ticket.Repo (Ticket.config p)))
              calls.

End Obs.

Module Obs2.

(** The requests that are decoded, in order: those that come before the
    first error the decoder keeps. *)
Fixpoint requestsOf {Request} (input : list (Decoded Request))
  : list Request :=
  match input with
  | [] => []
  | Request_ req :: rest => req :: requestsOf rest
  | DecodeError _ :: rest => requestsOf rest
  | StreamError _ :: _ => []
  end.

(** What the ticket and deployment loops write for a decode error: nothing
    for the end of input, the error otherwise. *)
Definition lastWords {Response} (failure : string -> Response)
           (text : string) : list Response :=
  if text =? "EOF" then [] else [failure text].

End Obs2.

Module Obs3.

Section Filters.
Context {U : GoStrings.Unicode}.

(** A deployment passes the client-side filters of a query: its status is
    one of the requested ones under [strings.EqualFold] when any is
    requested, and its service and environment are the requested ones when
    these are not empty. *)
Definition Matches (q : Deployment.DeploymentQuery)
           (d : Deployment.DeploymentT) : Prop :=
  (Deployment.q_Statuses q = []
   \/ Exists (Spec.FoldsTo (Deployment.d_Status d))
             (Deployment.q_Statuses q))
  /\ (Deployment.scope_Service (Deployment.q_Scope q) = ""
      \/ Deployment.d_Service d
         = Deployment.scope_Service (Deployment.q_Scope q))
  /\ (Deployment.scope_Environment (Deployment.q_Scope q) = ""
      \/ Deployment.d_Environment d
         = Deployment.scope_Environment (Deployment.q_Scope q)).

End Filters.

(** The environments that inference can give. *)
Definition environments : list string :=
  ["prod"; "production"; "staging"; "stage"; "dev"; "development"; "test"].

(** The statuses the deployment normalizer gives of its own. *)
Definition canonicalStatuses : list string :=
  ["queued"; "running"; "success"; "failed"; "cancelled"].

(** The groups of statuses a deployment query pushes upstream. *)
Definition runningGroup : list string := ["running"; "in_progress"].
Definition completedGroup : list string :=
  ["success"; "completed"; "failed"; "cancelled"].
Definition pushedStatuses : list string :=
  ["queued"; "running"; "in_progress"; "success"; "completed"; "failed";
   "cancelled"].

End Obs3.

Module Obs4.

Section Filters.
Context {U : GoStrings.Unicode}.

(** A team passes the filters of a query: its lowered name contains the
    lowered requested name when one is requested, and each requested tag
    has the requested value, a tag the team lacks reading as the empty
    string. *)
Definition TeamMatches (q : Team.TeamQuery) (t : Team.TeamT) : Prop :=
  (Team.q_Name q = ""
   \/ Spec.LowerSubstring (GoStrings.ToLower (Team.q_Name q)) (Team.t_Name t))
  /\ (forall key value,
         Team.q_Tags q !! key = Some value ->
         default "" (Team.t_Tags t !! key) = value).

End Filters.

(** The logins looked up with [Users.Get] among some calls, in order. *)
Fixpoint lookedUp (calls : list Team.Call) : list string :=
  match calls with
  | [] => []
  | Team.UsersGet _ login :: rest => login :: lookedUp rest
  | _ :: rest => lookedUp rest
  end.

(** The client handle a team call is made with. *)
Definition teamVia (c : Team.Call) : GithubClient :=
  match c with
  | Team.ListTeams via _ _
  | Team.GetTeamBySlug via _ _
  | Team.OrganizationsGet via _
  | Team.GetTeamByID via _ _
  | Team.ListTeamMembersByID via _ _ _
  | Team.UsersGet via _
  | Team.GetTeamMembershipByID via _ _ _ => via
  end.

End Obs4.

Module Obs5.
Import TeamPlugin.

(** The parameters of a request do not decode for the method it names. *)
Definition Undecodable (req : PluginRequest) : Prop :=
  (Method req = "team.query" /\ exists e, asQuery (Params req) = Err e)
  \/ (Method req = "team.get" /\ exists e, asID (Params req) = Err e)
  \/ (Method req = "team.members"
      /\ exists e, asTeamID (Params req) = Err e).

Section Answers.
Context {U : GoStrings.Unicode}.

(** The adapter operation that a request names, run on the request's
    decoded parameters after the calls [h], ends in the error [err]. *)
Definition AdapterError (r : Team.Remote) (p : Team.Provider)
           (req : PluginRequest) (h : list Team.Call) (err : OpsOrchError)
  : Prop :=
  (Method req = "team.query"
   /\ exists q, asQuery (Params req) = Ok q
                /\ fst (Team.Query r p q h) = Err err)
  \/ (Method req = "team.get"
      /\ exists id, asID (Params req) = Ok id
                    /\ fst (Team.Get r p id h) = Err err)
  \/ (Method req = "team.members"
      /\ exists id, asTeamID (Params req) = Ok id
                    /\ fst (Team.Members r p id h) = Err err).

(** The same operation returns the value [v]. *)
Definition AdapterResult (r : Team.Remote) (p : Team.Provider)
           (req : PluginRequest) (h : list Team.Call) (v : ResultValue)
  : Prop :=
  (Method req = "team.query"
   /\ exists q teams, asQuery (Params req) = Ok q
                      /\ fst (Team.Query r p q h) = Ok teams
                      /\ v = Teams teams)
  \/ (Method req = "team.get"
      /\ exists id team, asID (Params req) = Ok id
                         /\ fst (Team.Get r p id h) = Ok team
                         /\ v = OneTeam team)
  \/ (Method req = "team.members"
      /\ exists id members, asTeamID (Params req) = Ok id
                            /\ fst (Team.Members r p id h) = Ok members
                            /\ v = TeamMembers members).

End Answers.

End Obs5.

(** ** Further sample data *)

Module MoreSamples.

Definition teamParams (id : string) : TeamPlugin.RawMessage :=
  {| TeamPlugin.asQuery := Ok (Team.mkQuery "" ∅);
     TeamPlugin.asID := Ok id;
     TeamPlugin.asTeamID := Ok id |}.

(** What the team loop decodes from an input with a JSON array between two
    requests, and then text that is not JSON before a last request. *)
Definition teamInput : list (Decoded TeamPlugin.PluginRequest) :=
  [Request_ (TeamPlugin.mkRequest "team.get" (teamParams "platform"));
   DecodeError
     "json: cannot unmarshal array into Go value of type main.PluginRequest";
   Request_ (TeamPlugin.mkRequest "team.rename" (teamParams "platform"));
   StreamError "invalid character 'x' looking for beginning of value";
   Request_ (TeamPlugin.mkRequest "team.get" (teamParams "platform"))].

Definition errorText (e : OpsOrchError) : string :=
  Code e +:+ ": " +:+ Message e.

(** Runs with three different outcomes. *)
Definition runWith (id : Z) (status conclusion : string)
  : Deployment.WorkflowRun :=
  {| Deployment.run_ID := id;
     Deployment.run_Name := "Deploy to Staging";
     Deployment.run_Status := status;
     Deployment.run_Conclusion := conclusion;
     Deployment.run_HTMLURL := "";
     Deployment.run_HeadBranch := "main";
     Deployment.run_HeadSHA := "0123456789abcdef";
     Deployment.run_CreatedAt := 1%Z;
     Deployment.run_UpdatedAt := 2%Z;
     Deployment.run_Actor := None;
     Deployment.run_HeadCommit := Some "Ship it" |}.

Definition page : list Deployment.WorkflowRun :=
  [runWith 1 "completed" "success"; runWith 2 "in_progress" "";
   runWith 3 "completed" "failure"; runWith 4 "COMPLETED" "skipped"].

(** A query for failed and cancelled deployments of the staging
    environment. *)
Definition failedQuery : Deployment.DeploymentQuery :=
  Deployment.mkQuery ["Failed"; "cancelled"]
                     (Deployment.mkScope "" "staging" "") 0 ∅.

(** A query for the runs in progress, by the upstream name of that
    status. *)
Definition inProgressQuery : Deployment.DeploymentQuery :=
  Deployment.mkQuery ["in_progress"] (Deployment.mkScope "" "" "") 0 ∅.

(** A query for the teams of another organisation. *)
Definition foreignQuery : Team.TeamQuery :=
  Team.mkQuery "" {["organization" := "globex"]}.

(** A remote whose organisation cannot be read. *)
Definition noOrganization : Team.Remote :=
  {| Team.listTeams := Team.listTeams Samples.teamRemote;
     Team.getTeamBySlug := Team.getTeamBySlug Samples.teamRemote;
     Team.getOrganization := fun _ _ _ => Err (ErrorResponse 403 "Forbidden");
     Team.getTeamByID := Team.getTeamByID Samples.teamRemote;
     Team.listTeamMembers := Team.listTeamMembers Samples.teamRemote;
     Team.getUser := Team.getUser Samples.teamRemote;
     Team.getMembership := Team.getMembership Samples.teamRemote |}.

End MoreSamples.

(** * Properties *)

(** ** Strings *)

Section StringFacts.
Import GoStrings.
Context {U : Unicode}.

Lemma lowerByte_idem (c : ascii) : lowerByte (lowerByte c) = lowerByte c.
Proof. destruct c as [[] [] [] [] [] [] [] []]; reflexivity. Qed.

Lemma lowerASCII_idem (s : string) : lowerASCII (lowerASCII s) = lowerASCII s.
Proof.
  induction s as [|c s IH]; simpl; [reflexivity|].
  now rewrite lowerByte_idem, IH.
Qed.

Lemma lowerByte_code (c : ascii) :
  N_of_ascii (lowerByte c)
  = (if (65 <=? N_of_ascii c) && (N_of_ascii c <=? 90)
     then N_of_ascii c + 32 else N_of_ascii c)%N.
Proof.
  unfold lowerByte.
  destruct (N.leb_spec 65 (N_of_ascii c)), (N.leb_spec (N_of_ascii c) 90);
    simpl; try reflexivity.
  apply N_ascii_embedding. lia.
Qed.

Lemma N_of_ascii_inj (c d : ascii) : N_of_ascii c = N_of_ascii d -> c = d.
Proof.
  intros H. rewrite <- (ascii_N_embedding c), <- (ascii_N_embedding d).
  now rewrite H.
Qed.

(** Lower-casing identifies exactly the bytes that are the same letter. *)
Lemma lowerByte_eq_iff (c d : ascii) :
  lowerByte c = lowerByte d <-> Spec.SameLetter c d.
Proof.
  unfold Spec.SameLetter, Spec.LetterPair. split.
  - intros H. apply (f_equal N_of_ascii) in H. rewrite !lowerByte_code in H.
    destruct (N.leb_spec 65 (N_of_ascii c)), (N.leb_spec (N_of_ascii c) 90),
             (N.leb_spec 65 (N_of_ascii d)), (N.leb_spec (N_of_ascii d) 90);
      simpl in H;
      first [ left; apply N_of_ascii_inj; lia
            | right; left; lia
            | right; right; lia ].
  - intros H. apply N_of_ascii_inj. rewrite !lowerByte_code.
    destruct H as [->|[[Hc Hd]|[Hd Hc]]]; [reflexivity| |];
      destruct (N.leb_spec 65 (N_of_ascii c)), (N.leb_spec (N_of_ascii c) 90),
               (N.leb_spec 65 (N_of_ascii d)), (N.leb_spec (N_of_ascii d) 90);
      simpl; lia.
Qed.

Lemma SameUpToCase_iff (s t : string) :
  Spec.SameUpToCase s t <-> lowerASCII s = lowerASCII t.
Proof.
  split.
  - induction 1 as [|c d s t Hcd _ IH]; [reflexivity|]. simpl.
    apply lowerByte_eq_iff in Hcd. now rewrite Hcd, IH.
  - revert t. induction s as [|c s IH]; intros [|d t] H; try discriminate.
    + constructor.
    + simpl in H. injection H as Hcd Hst.
      constructor; [now apply lowerByte_eq_iff | now apply IH].
Qed.

(** Lower-casing a byte keeps it on its side of the ASCII bound. *)
Lemma lowerByte_bound (c : ascii) :
  (N_of_ascii (lowerByte c) <? 128)%N = (N_of_ascii c <? 128)%N.
Proof.
  rewrite lowerByte_code.
  destruct (N.leb_spec 65 (N_of_ascii c)), (N.leb_spec (N_of_ascii c) 90);
    simpl; try reflexivity.
  destruct (N.ltb_spec (N_of_ascii c + 32) 128),
           (N.ltb_spec (N_of_ascii c) 128); try reflexivity; lia.
Qed.

Lemma isASCII_lowerASCII (s : string) : isASCII (lowerASCII s) = isASCII s.
Proof.
  induction s as [|c s IH]; simpl; [reflexivity|].
  now rewrite lowerByte_bound, IH.
Qed.

(** Strings equal up to letter case are ASCII together. *)
Lemma SameUpToCase_isASCII (s t : string) :
  Spec.SameUpToCase s t -> isASCII s = isASCII t.
Proof.
  intros H. apply SameUpToCase_iff in H.
  now rewrite <- (isASCII_lowerASCII s), H, isASCII_lowerASCII.
Qed.

(** On ASCII text [strings.ToLower] is the byte-wise lowering, whatever the
    tables. *)
Lemma ToLower_ascii (s : string) :
  isASCII s = true -> ToLower s = lowerASCII s.
Proof. intros H. unfold ToLower. now rewrite H. Qed.

(** On ASCII text, [strings.ToLower] and [strings.EqualFold] do not depend
    on the tables. *)
Lemma ToLower_tables (U' : Unicode) (s : string) :
  isASCII s = true -> ToLower (U := U') s = ToLower s.
Proof. intros H. unfold ToLower. now rewrite H. Qed.

Lemma EqualFold_tables (U' : Unicode) (s t : string) :
  isASCII s = true -> isASCII t = true ->
  EqualFold (U := U') s t = EqualFold s t.
Proof. intros Hs Ht. unfold EqualFold. now rewrite Hs, Ht. Qed.

Lemma isASCII_app (a b : string) :
  isASCII (a +:+ b) = isASCII a && isASCII b.
Proof.
  induction a as [|c a IH]; simpl; [reflexivity|].
  now rewrite IH, andb_assoc.
Qed.

(** A string that is a lower-case ASCII word up to letter case is lowered
    to that word. *)
Lemma SameUpToCase_lowers (s word : string) :
  isASCII word = true -> lowerASCII word = word ->
  Spec.SameUpToCase s word -> ToLower s = word.
Proof.
  intros Ha Hw H. rewrite ToLower_ascii.
  - apply SameUpToCase_iff in H. now rewrite H.
  - now rewrite (SameUpToCase_isASCII _ _ H).
Qed.

(** An ASCII string lowered to a word is that word up to letter case. *)
Lemma lowers_SameUpToCase (s word : string) :
  isASCII s = true -> lowerASCII word = word ->
  ToLower s = word -> Spec.SameUpToCase s word.
Proof.
  intros Ha Hw H. rewrite ToLower_ascii in H by exact Ha.
  apply SameUpToCase_iff. now rewrite Hw.
Qed.

Lemma LowersTo_ascii (s word : string) :
  isASCII s = true -> isASCII word = true -> lowerASCII word = word ->
  Spec.LowersTo s word <-> Spec.SameUpToCase s word.
Proof.
  intros Hs Ha Hw. unfold Spec.LowersTo. split.
  - now apply lowers_SameUpToCase.
  - now apply SameUpToCase_lowers.
Qed.

(** Being one of several lower-case ASCII words up to letter case gives
    membership of the lowered string; for an ASCII string the two are the
    same. *)
Lemma OneOf_lowers (words : list string) (s : string) :
  Forall (fun w => isASCII w = true /\ lowerASCII w = w) words ->
  Spec.OneOf words s -> In (ToLower s) words.
Proof.
  intros Hw. unfold Spec.OneOf. rewrite Exists_exists.
  intros (w & Hin & Hs). rewrite Forall_forall in Hw.
  destruct (Hw w Hin) as [Ha Hl].
  apply list_elem_of_In in Hin.
  now rewrite (SameUpToCase_lowers s w Ha Hl Hs).
Qed.

Lemma lowers_OneOf (words : list string) (s : string) :
  isASCII s = true -> In (ToLower s) words -> Spec.OneOf words s.
Proof.
  intros Ha Hin. unfold Spec.OneOf. rewrite Exists_exists.
  exists (ToLower s). split; [now apply list_elem_of_In|].
  apply SameUpToCase_iff. rewrite ToLower_ascii by exact Ha.
  now rewrite lowerASCII_idem.
Qed.

Lemma OneOf_ascii (words : list string) (s : string) :
  isASCII s = true ->
  Forall (fun w => isASCII w = true /\ lowerASCII w = w) words ->
  Spec.OneOf words s <-> In (ToLower s) words.
Proof.
  intros Ha Hw. split; [now apply OneOf_lowers | now apply lowers_OneOf].
Qed.

Lemma LowersInto_ascii (words : list string) (s : string) :
  isASCII s = true ->
  Forall (fun w => isASCII w = true /\ lowerASCII w = w) words ->
  Spec.LowersInto words s <-> Spec.OneOf words s.
Proof. intros Ha Hw. symmetry. now apply OneOf_ascii. Qed.

Lemma and_tail3 (A B C T : Prop) : T -> A /\ B /\ C -> A /\ B /\ C /\ T.
Proof. tauto. Qed.

Lemma and_tail4 (A B C D T : Prop) :
  T -> A /\ B /\ C /\ D -> A /\ B /\ C /\ D /\ T.
Proof. tauto. Qed.

Lemma Exists_LowersTo (words : list string) (s : string) :
  Exists (Spec.LowersTo s) words <-> In (ToLower s) words.
Proof.
  rewrite Exists_exists. unfold Spec.LowersTo. split.
  - intros (w & Hin & <-). now apply list_elem_of_In.
  - intros Hin. exists (ToLower s). split; [now apply list_elem_of_In|].
    reflexivity.
Qed.

Lemma HasPrefix_spec (s prefix : string) :
  HasPrefix s prefix = true <-> exists rest, s = prefix +:+ rest.
Proof.
  revert s; induction prefix as [|p ps IH]; intros s.
  - split; [intros _; now exists s | now destruct s].
  - destruct s as [|c cs]; simpl.
    + split; [discriminate | intros [rest H]; discriminate].
    + rewrite andb_true_iff, IH. split.
      * intros [Hc [rest ->]]. apply Ascii.eqb_eq in Hc as ->. now exists rest.
      * intros [rest H]. injection H as -> ->. split; [apply Ascii.eqb_refl|].
        now exists rest.
Qed.

Lemma Contains_spec (s sub : string) :
  Contains s sub = true <-> Spec.Substring sub s.
Proof.
  unfold Spec.Substring. induction s as [|c s IH].
  - cbn [Contains]. rewrite orb_false_r, HasPrefix_spec. split.
    + intros [rest H]. now exists "", rest.
    + intros [[|b before] [after H]]; [now exists after | discriminate].
  - cbn [Contains]. rewrite orb_true_iff, HasPrefix_spec, IH. split.
    + intros [[rest H] | [before [after H]]].
      * now exists "", rest.
      * exists (String c before), after. simpl. now rewrite H.
    + intros [[|b before] [after H]].
      * left. now exists after.
      * right. simpl in H. injection H as -> ->. now exists before, after.
Qed.

Lemma Contains_false (s sub : string) :
  Contains s sub = false <-> ~ Spec.Substring sub s.
Proof.
  rewrite <- Contains_spec. destruct (Contains s sub); split; easy.
Qed.

Lemma Contains_LowerSubstring (text p : string) :
  Contains (ToLower text) p = true <-> Spec.LowerSubstring p text.
Proof. apply Contains_spec. Qed.

Lemma Contains_LowerSubstring_false (text p : string) :
  Contains (ToLower text) p = false <-> ~ Spec.LowerSubstring p text.
Proof. apply Contains_false. Qed.

Lemma lowerASCII_app (a b : string) :
  lowerASCII (a +:+ b) = lowerASCII a +:+ lowerASCII b.
Proof. induction a as [|c a IH]; simpl; [reflexivity | now rewrite IH]. Qed.

Lemma lowerASCII_app_inv (s x y : string) :
  lowerASCII s = x +:+ y ->
  exists s1 s2, s = s1 +:+ s2 /\ lowerASCII s1 = x /\ lowerASCII s2 = y.
Proof.
  revert s. induction x as [|c x IH]; intros s H.
  - now exists "", s.
  - destruct s as [|d s]; [discriminate|]. simpl in H. injection H as Hc Hs.
    destruct (IH s Hs) as (s1 & s2 & -> & H1 & H2).
    exists (String d s1), s2. simpl. now rewrite Hc, H1.
Qed.

(** For a lower-case pattern, a case-insensitive substring of a text is a
    substring of the byte-wise lowered text. *)
Lemma FoldSubstring_iff (p text : string) :
  lowerASCII p = p ->
  Spec.FoldSubstring p text <-> Spec.Substring p (lowerASCII text).
Proof.
  intros Hp. unfold Spec.FoldSubstring, Spec.Substring. split.
  - intros (w & (a & b & ->) & Hw). apply SameUpToCase_iff in Hw.
    rewrite Hp in Hw.
    exists (lowerASCII a), (lowerASCII b). now rewrite !lowerASCII_app, Hw.
  - intros (a & b & H).
    apply lowerASCII_app_inv in H as (s1 & s2 & -> & H1 & H2).
    apply lowerASCII_app_inv in H2 as (w & s3 & -> & Hw & H3).
    exists w. split; [now exists s1, s3|].
    apply SameUpToCase_iff. now rewrite Hp.
Qed.

(** In an ASCII text, a lower-case pattern is found in the lowered text
    exactly when it is a substring of the text up to letter case. *)
Lemma LowerSubstring_ascii (p text : string) :
  isASCII text = true -> lowerASCII p = p ->
  Spec.LowerSubstring p text <-> Spec.FoldSubstring p text.
Proof.
  intros Ha Hp. unfold Spec.LowerSubstring.
  now rewrite (ToLower_ascii text Ha), FoldSubstring_iff.
Qed.

(** On ASCII strings [strings.EqualFold] is equality up to letter case. *)
Lemma FoldsTo_ascii (s t : string) :
  isASCII s = true -> isASCII t = true ->
  Spec.FoldsTo s t <-> Spec.SameUpToCase s t.
Proof.
  intros Hs Ht. unfold Spec.FoldsTo, EqualFold. rewrite Hs, Ht. simpl.
  now rewrite String.eqb_eq, SameUpToCase_iff.
Qed.

End StringFacts.

Example ParseInt_cases :
  map GoStrconv.ParseInt
      ["42"; "-7"; "+7"; "007"; ""; "+"; "4 2"; "platform";
       "9223372036854775807"; "9223372036854775808"; "-9223372036854775808"]
  = [Some 42%Z; Some (-7)%Z; Some 7%Z; Some 7%Z; None; None; None; None;
     Some 9223372036854775807%Z; None; Some (-9223372036854775808)%Z].
Proof. reflexivity. Qed.

Example FormatInt_cases :
  map GoStrconv.FormatInt [0%Z; 7%Z; 1234567890%Z; (-15)%Z]
  = ["0"; "7"; "1234567890"; "-15"].
Proof. reflexivity. Qed.

(** Case analysis on the string comparisons of the goal. *)
Ltac string_cases :=
  repeat match goal with
    | |- context [String.eqb ?a ?b] =>
        destruct (String.eqb_spec a b)
    end.

(** Turns the facts of the context that are up to letter case into facts
    on lowered strings. *)
Ltac lowered :=
  repeat match goal with
    | H : Spec.SameUpToCase _ _ |- _ =>
        apply SameUpToCase_lowers in H; [|reflexivity|reflexivity]
    | H : Spec.OneOf _ _ |- _ =>
        apply OneOf_lowers in H; [simpl in H | repeat constructor]
    | H : Exists (Spec.SameUpToCase _) _ |- _ =>
        apply OneOf_lowers in H; [simpl in H | repeat constructor]
    | H : Exists (Spec.LowersTo _) _ |- _ =>
        apply Exists_LowersTo in H; simpl in H
    | H : Spec.LowersTo _ _ |- _ => unfold Spec.LowersTo in H
    end.

(** ** Deployment status (claim C1) *)

Section DeploymentStatus.
Import GoStrings Deployment.
Context {U : Unicode}.

(** The ten rows of the adapter's own test table. *)
Example normalizeStatus_test_table :
  map (fun row => normalizeStatus (fst row) (snd row))
      [("queued", ""); ("in_progress", ""); ("completed", "success");
       ("completed", "failure"); ("completed", "cancelled");
       ("completed", "skipped"); ("completed", "timed_out");
       ("completed", "action_required"); ("completed", "unknown");
       ("unknown", "")]
  = ["queued"; "running"; "success"; "failed"; "cancelled"; "cancelled";
     "failed"; "failed"; "failed"; "unknown"].
Proof. reflexivity. Qed.

(** Letter case of the inputs does not change the row; a status outside
    the table comes back with the case it had. *)
Example normalizeStatus_mixed_case :
  normalizeStatus "QUEUED" "" = "queued"
  /\ normalizeStatus "In_Progress" "SUCCESS" = "running"
  /\ normalizeStatus "Completed" "Skipped" = "cancelled"
  /\ normalizeStatus "COMPLETED" "Timed_Out" = "failed"
  /\ normalizeStatus "Waiting" "success" = "Waiting".
Proof. repeat split. Qed.

(** The table read with the lowering of [strings.ToLower], for every
    status and conclusion. *)
Lemma normalizeStatus_lowered_table (status conclusion out : string) :
  normalizeStatus status conclusion = out
  <-> Spec.StatusTable Spec.LowersTo status conclusion out.
Proof.
  unfold normalizeStatus. split.
  - intros <-.
    string_cases;
      solve [ constructor; try assumption;
              rewrite Exists_LowersTo; simpl; intuition congruence ].
  - intros H.
    destruct H;
      repeat match goal with
        | H : ~ Exists (Spec.LowersTo _) _ |- _ =>
            rewrite Exists_LowersTo in H; simpl in H
        end;
      lowered;
      repeat match goal with H : ToLower _ = _ |- _ => rewrite H; clear H end;
      try reflexivity;
      string_cases; try reflexivity; exfalso; intuition congruence.
Qed.

(** On an ASCII string, matching a lower-case ASCII word of a table by
    lowering and matching it up to letter case are the same. *)
Lemma Exists_same_ascii (words : list string) (s : string) :
  isASCII s = true ->
  Forall (fun w => isASCII w = true /\ lowerASCII w = w) words ->
  Exists (Spec.SameUpToCase s) words <-> Exists (Spec.LowersTo s) words.
Proof.
  intros Ha Hw. rewrite Exists_LowersTo. now apply OneOf_ascii.
Qed.

Lemma StatusTable_ascii (status conclusion out : string) :
  isASCII status = true -> isASCII conclusion = true ->
  Spec.StatusTable Spec.SameUpToCase status conclusion out
  <-> Spec.StatusTable Spec.LowersTo status conclusion out.
Proof.
  intros Hs Hc. split; intros H; destruct H;
    repeat match goal with
      | H : Spec.SameUpToCase _ _ |- _ =>
          apply LowersTo_ascii in H; [|assumption|reflexivity|reflexivity]
      | H : ~ Exists (Spec.SameUpToCase _) _ |- _ =>
          rewrite Exists_same_ascii in H
            by first [assumption | repeat constructor]
      end;
    try solve [constructor; assumption];
    repeat match goal with
      | H : Spec.LowersTo _ _ |- _ =>
          apply LowersTo_ascii in H; [|assumption|reflexivity|reflexivity]
      | H : ~ Exists (Spec.LowersTo _) _ |- _ =>
          rewrite <- Exists_same_ascii in H
            by first [assumption | repeat constructor]
      end;
    solve [constructor; assumption].
Qed.

(** C1.  For every status and conclusion, the deployment status
    normalizer returns what the ten-row table gives: queued for queued,
    running for in_progress, for completed the result named by the six
    listed conclusions and failed for any other conclusion, and the status
    as received for any other status.  The status and the conclusion are
    matched against the words of the table after [strings.ToLower]; for
    a status and a conclusion of ASCII bytes, that is a match up to letter
    case. *)
Theorem normalizeStatus_matches_table :
  (forall status conclusion out,
      normalizeStatus status conclusion = out
      <-> Spec.StatusTable Spec.LowersTo status conclusion out)
  /\ (forall status conclusion out,
         isASCII status = true -> isASCII conclusion = true ->
         (normalizeStatus status conclusion = out
          <-> Spec.StatusTable Spec.SameUpToCase status conclusion out)).
Proof.
  split.
  - apply normalizeStatus_lowered_table.
  - intros status conclusion out Hs Hc.
    rewrite StatusTable_ascii by assumption.
    apply normalizeStatus_lowered_table.
Qed.

End DeploymentStatus.

(** ** Environment inference (claim C2) *)

Section EnvironmentInference.
Import GoStrings Deployment.
Context {U : Unicode}.

Lemma envPatterns_spec : envPatterns = Spec.patterns.
Proof. reflexivity. Qed.

Lemma patterns_lower : Forall (fun p => lowerASCII p = p) Spec.patterns.
Proof. repeat constructor. Qed.

(** The scan returns the first pattern found, and nothing exactly when no
    pattern is found. *)
Lemma scanPatterns_Some (text : string) (l : list string) (p : string) :
  scanPatterns (ToLower text) l = Some p
  <-> Spec.FirstPattern Spec.LowerSubstring l text p.
Proof.
  unfold Spec.FirstPattern. induction l as [|q l IH]; simpl.
  - split; [discriminate | intros (e & t & H & _)]. now destruct e.
  - destruct (Contains (ToLower text) q) eqn:Hc.
    + apply Contains_LowerSubstring in Hc. split.
      * intros [= ->]. exists [], l. repeat split; [assumption|constructor].
      * intros ([|q' e] & t & H & Hp & He); injection H as -> ->.
        -- reflexivity.
        -- apply Forall_cons in He as [He _]. contradiction.
    + apply Contains_LowerSubstring_false in Hc. rewrite IH. split.
      * intros (e & t & -> & Hp & He). exists (q :: e), t.
        repeat split; [assumption|]. now constructor.
      * intros ([|q' e] & t & H & Hp & He); injection H as -> ->.
        -- contradiction.
        -- apply Forall_cons in He as [_ He]. now exists e, t.
Qed.

Lemma scanPatterns_None (text : string) (l : list string) :
  scanPatterns (ToLower text) l = None
  <-> Spec.NoPattern Spec.LowerSubstring l text.
Proof.
  unfold Spec.NoPattern. induction l as [|q l IH]; simpl.
  - split; [constructor | reflexivity].
  - rewrite Forall_cons, <- IH, <- Contains_LowerSubstring_false.
    destruct (Contains (ToLower text) q); split; easy.
Qed.

Lemma FirstPattern_excludes_NoPattern (l : list string) (text p : string) :
  Spec.FirstPattern Spec.LowerSubstring l text p ->
  Spec.NoPattern Spec.LowerSubstring l text -> False.
Proof.
  intros Hf Hn.
  apply scanPatterns_Some in Hf. apply scanPatterns_None in Hn. congruence.
Qed.

Lemma FirstPattern_unique (l : list string) (text p q : string) :
  Spec.FirstPattern Spec.LowerSubstring l text p ->
  Spec.FirstPattern Spec.LowerSubstring l text q -> p = q.
Proof.
  intros Hp Hq.
  apply scanPatterns_Some in Hp. apply scanPatterns_Some in Hq. congruence.
Qed.

Lemma extractEnvironment_Inferred (name branch : string) :
  Spec.Inferred Spec.LowersTo Spec.LowerSubstring name branch
                (extractEnvironment name branch).
Proof.
  unfold extractEnvironment. rewrite envPatterns_spec.
  destruct (scanPatterns (ToLower name) Spec.patterns) as [p|] eqn:Hn.
  { apply Spec.by_name. now apply scanPatterns_Some. }
  apply scanPatterns_None in Hn.
  destruct (scanPatterns (ToLower branch) Spec.patterns) as [p|] eqn:Hb.
  { apply Spec.by_branch; [assumption | now apply scanPatterns_Some]. }
  apply scanPatterns_None in Hb.
  destruct (String.eqb_spec (ToLower branch) "main") as [Hm|Hm]; simpl.
  { apply Spec.by_main; try assumption.
    apply Exists_LowersTo. rewrite Hm. simpl. tauto. }
  destruct (String.eqb_spec (ToLower branch) "master") as [Hm'|Hm']; simpl.
  { apply Spec.by_main; try assumption.
    apply Exists_LowersTo. rewrite Hm'. simpl. tauto. }
  destruct (String.eqb_spec (ToLower branch) "develop") as [Hd|Hd]; simpl.
  { apply Spec.by_develop; try assumption.
    apply Exists_LowersTo. rewrite Hd. simpl. tauto. }
  destruct (String.eqb_spec (ToLower branch) "dev") as [Hd'|Hd']; simpl.
  { apply Spec.by_develop; try assumption.
    apply Exists_LowersTo. rewrite Hd'. simpl. tauto. }
  apply Spec.by_default; try assumption.
  rewrite Exists_LowersTo. simpl. intuition congruence.
Qed.

Lemma Inferred_functional (name branch e1 e2 : string) :
  Spec.Inferred Spec.LowersTo Spec.LowerSubstring name branch e1 ->
  Spec.Inferred Spec.LowersTo Spec.LowerSubstring name branch e2 -> e1 = e2.
Proof.
  intros H1 H2.
  destruct H1, H2; try reflexivity;
    try (exfalso;
         match goal with
         | Hf : Spec.FirstPattern _ _ ?t _, Hn : Spec.NoPattern _ _ ?t |- _ =>
             exact (FirstPattern_excludes_NoPattern _ _ _ Hf Hn)
         end);
    try (eapply FirstPattern_unique; eassumption);
    exfalso;
    repeat match goal with
      | H : ~ Exists (Spec.LowersTo _) _ |- _ =>
          rewrite Exists_LowersTo in H; simpl in H
      end;
    lowered; intuition (subst; try discriminate; congruence).
Qed.

(** The environment inferred with [strings.ToLower], for every name and
    branch. *)
Lemma extractEnvironment_lowered (name branch env : string) :
  extractEnvironment name branch = env
  <-> Spec.Inferred Spec.LowersTo Spec.LowerSubstring name branch env.
Proof.
  split.
  - intros <-. apply extractEnvironment_Inferred.
  - intros H. eapply Inferred_functional; [|exact H].
    apply extractEnvironment_Inferred.
Qed.

(** Two ways of looking for patterns that agree on the patterns of a list
    find the same first one. *)
Lemma FirstPattern_agree (within within' : string -> string -> Prop)
      (l : list string) (text p : string) :
  Forall (fun q => within q text <-> within' q text) l ->
  Spec.FirstPattern within l text p -> Spec.FirstPattern within' l text p.
Proof.
  intros Hl (earlier & later & -> & Hp & He).
  apply Forall_app in Hl as [Hearlier Hrest].
  apply Forall_cons in Hrest as [Hhere _].
  exists earlier, later. split; [reflexivity|]. split; [now apply Hhere|].
  clear Hp Hhere. induction He as [|q e Hq _ IH]; [constructor|].
  apply Forall_cons in Hearlier as [Hq' Hearlier].
  constructor; [|now apply IH]. intros Hw. apply Hq. now apply Hq'.
Qed.

Lemma NoPattern_agree (within within' : string -> string -> Prop)
      (l : list string) (text : string) :
  Forall (fun q => within q text <-> within' q text) l ->
  Spec.NoPattern within l text -> Spec.NoPattern within' l text.
Proof.
  unfold Spec.NoPattern. intros Hl Hn.
  induction Hn as [|q e Hq _ IH]; [constructor|].
  apply Forall_cons in Hl as [Hq' Hl].
  constructor; [|now apply IH]. intros Hw. apply Hq. now apply Hq'.
Qed.

Lemma patterns_agree (text : string) :
  isASCII text = true ->
  Forall (fun q => Spec.FoldSubstring q text <-> Spec.LowerSubstring q text)
         Spec.patterns
  /\ Forall (fun q => Spec.LowerSubstring q text <-> Spec.FoldSubstring q text)
            Spec.patterns.
Proof.
  intros Ha.
  split; (eapply Forall_impl; [exact patterns_lower|]); intros q Hq; simpl;
    [symmetry|]; now apply LowerSubstring_ascii.
Qed.

(** For a name and a branch of ASCII bytes, inference with
    [strings.ToLower] is inference up to letter case. *)
Lemma Inferred_ascii (name branch env : string) :
  isASCII name = true -> isASCII branch = true ->
  Spec.Inferred Spec.SameUpToCase Spec.FoldSubstring name branch env
  <-> Spec.Inferred Spec.LowersTo Spec.LowerSubstring name branch env.
Proof.
  intros Hn Hb.
  destruct (patterns_agree name Hn) as [Hn1 Hn2].
  destruct (patterns_agree branch Hb) as [Hb1 Hb2].
  split; intros H; destruct H.
  - apply Spec.by_name. now apply (FirstPattern_agree _ _ _ _ _ Hn1).
  - apply Spec.by_branch.
    + now apply (NoPattern_agree _ _ _ _ Hn1).
    + now apply (FirstPattern_agree _ _ _ _ _ Hb1).
  - apply Spec.by_main.
    + now apply (NoPattern_agree _ _ _ _ Hn1).
    + now apply (NoPattern_agree _ _ _ _ Hb1).
    + apply Exists_same_ascii; [assumption | repeat constructor | assumption].
  - apply Spec.by_develop.
    + now apply (NoPattern_agree _ _ _ _ Hn1).
    + now apply (NoPattern_agree _ _ _ _ Hb1).
    + apply Exists_same_ascii; [assumption | repeat constructor | assumption].
  - apply Spec.by_default.
    + now apply (NoPattern_agree _ _ _ _ Hn1).
    + now apply (NoPattern_agree _ _ _ _ Hb1).
    + rewrite <- Exists_same_ascii;
        [assumption | assumption | repeat constructor].
  - apply Spec.by_name. now apply (FirstPattern_agree _ _ _ _ _ Hn2).
  - apply Spec.by_branch.
    + now apply (NoPattern_agree _ _ _ _ Hn2).
    + now apply (FirstPattern_agree _ _ _ _ _ Hb2).
  - apply Spec.by_main.
    + now apply (NoPattern_agree _ _ _ _ Hn2).
    + now apply (NoPattern_agree _ _ _ _ Hb2).
    + apply Exists_same_ascii; [assumption | repeat constructor | assumption].
  - apply Spec.by_develop.
    + now apply (NoPattern_agree _ _ _ _ Hn2).
    + now apply (NoPattern_agree _ _ _ _ Hb2).
    + apply Exists_same_ascii; [assumption | repeat constructor | assumption].
  - apply Spec.by_default.
    + now apply (NoPattern_agree _ _ _ _ Hn2).
    + now apply (NoPattern_agree _ _ _ _ Hb2).
    + rewrite Exists_same_ascii;
        [assumption | assumption | repeat constructor].
Qed.

(** C2.  Environment inference is a function of the name and the branch
    whose result is exactly the one the ordered scan describes: the first
    of the eight patterns that is a substring of the lowered name, else
    the first that is one of the lowered branch, else production for a
    branch that is lowered to main or master, development for one that is
    lowered to develop or dev, and development otherwise.  Lowering is
    that of [strings.ToLower]; for a name and a branch of ASCII bytes the
    scan is the same with substrings and words taken up to letter case.
    The four literal cases hold. *)
Theorem extractEnvironment_spec :
  (forall name branch env,
      extractEnvironment name branch = env
      <-> Spec.Inferred Spec.LowersTo Spec.LowerSubstring name branch env)
  /\ (forall name branch env,
         isASCII name = true -> isASCII branch = true ->
         (extractEnvironment name branch = env
          <-> Spec.Inferred Spec.SameUpToCase Spec.FoldSubstring
                            name branch env))
  /\ extractEnvironment "Deploy to Production" "main" = "prod"
  /\ extractEnvironment "Build" "main" = "production"
  /\ extractEnvironment "Build" "develop" = "dev"
  /\ extractEnvironment "Build" "feature/xyz" = "development".
Proof.
  split; [|split; [|repeat split]].
  - apply extractEnvironment_lowered.
  - intros name branch env Hn Hb. rewrite Inferred_ascii by assumption.
    apply extractEnvironment_lowered.
Qed.

(** The remaining rows of the adapter's own test table. *)
Example extractEnvironment_test_table :
  extractEnvironment "Deploy to Staging" "develop" = "staging"
  /\ extractEnvironment "Test Deployment" "feature/test" = "test"
  /\ extractEnvironment "Build" "master" = "production"
  /\ extractEnvironment "Build" "dev" = "dev".
Proof. repeat split. Qed.

End EnvironmentInference.

(** ** Ticket status and team role (claims C3 and C4) *)

Section TicketStatus.
Import GoStrings GoStrconv Ticket.
Context {U : Unicode}.

(** The adapter's own test table for [normalizeStatus]. *)
Example ticket_normalizeStatus_test_table :
  map normalizeStatus ["open"; "closed"; "OPEN"; "CLOSED"; "unknown"]
  = ["open"; "closed"; "open"; "closed"; "unknown"].
Proof. reflexivity. Qed.

Lemma normalizeStatus_passthrough (state : string) :
  ToLower state <> "open" -> ToLower state <> "closed" ->
  normalizeStatus state = state.
Proof.
  intros Ho Hc. unfold normalizeStatus.
  destruct (String.eqb_spec (ToLower state) "open"); [contradiction|].
  now destruct (String.eqb_spec (ToLower state) "closed").
Qed.

Lemma updateState_unknown (status : string) :
  ~ Spec.LowersInto Spec.aliasValues status -> updateState status = None.
Proof.
  intros H. unfold updateState.
  unfold Spec.LowersInto, Spec.aliasValues in H. simpl in H.
  string_cases; simpl; try reflexivity; exfalso; intuition congruence.
Qed.

(** One call is made by [Update] on a well-formed id, and it carries the
    request built from the input. *)
Lemma Update_call (r : Remote) (p : Provider) (id : string) (n : Z)
      (input : UpdateTicketInput) (h : list Call) :
  Atoi id = Some n ->
  snd (Update r p id input h)
  = (h ++ [IssuesEdit (client p) (Owner (config p)) (Repo (config p)) n
                      (updateRequest input)])%list.
Proof.
  intros Hn. unfold Update. rewrite Hn. unfold bind, perform, ret.
  now destruct (editIssue _ _ _ _ _ _ _).
Qed.

(** Whatever the tables, an update whose status is "Pending" builds an
    edit request without a state. *)
Example update_pending_request :
  updateRequest (mkUpdateInput None None (Some "Pending") None)
  = mkIssueRequest None None None None None.
Proof. reflexivity. Qed.

(** A string that is outside a list of lower-case ASCII words up to letter
    case, and is made of ASCII bytes, is not lowered into the list. *)
Lemma not_OneOf_lowers (words : list string) (s : string) :
  isASCII s = true ->
  ~ Spec.OneOf words s -> ~ Spec.LowersInto words s.
Proof. intros Ha Hno Hin. apply Hno. now apply lowers_OneOf. Qed.

(** C3, amended.  An update whose status is present, non-empty and, once
    lowered by [strings.ToLower], outside the two alias groups makes its
    one edit call with the state field unset; on reads, a state that is
    lowered to neither open nor closed comes back as received.  A status
    of ASCII bytes that is none of the alias values up to letter case is
    such a status. *)
Theorem update_unknown_status_unset
        (r : Remote) (p : Provider) (id : string) (n : Z)
        (input : UpdateTicketInput) (status : string) (h : list Call) :
  Atoi id = Some n ->
  u_Status input = Some status ->
  status <> "" ->
  ~ Spec.LowersInto Spec.aliasValues status ->
  (exists request,
      snd (Update r p id input h)
      = (h ++ [IssuesEdit (client p) (Owner (config p)) (Repo (config p)) n
                          request])%list
      /\ req_State request = None)
  /\ (forall issue,
         ~ Spec.LowersInto ["open"; "closed"] (issue_State issue) ->
         normalizeStatus (issue_State issue) = issue_State issue
         /\ t_Status (convertIssueToTicket p issue) = issue_State issue)
  /\ (forall words s,
         isASCII s = true -> ~ Spec.OneOf words s ->
         ~ Spec.LowersInto words s).
Proof.
  intros Hn Hs Hne Hal. split; [|split].
  - exists (updateRequest input). split; [now apply Update_call|].
    unfold updateRequest; simpl. rewrite Hs. simpl.
    destruct (String.eqb_spec status ""); [contradiction|].
    now apply updateState_unknown.
  - intros issue Hno. unfold Spec.LowersInto in Hno. simpl in Hno.
    split; apply normalizeStatus_passthrough; intuition congruence.
  - apply not_OneOf_lowers.
Qed.

End TicketStatus.

Section Normalizers.
Import GoStrings.
Context {U : Unicode}.

Example normalizeRole_test_table :
  map Team.normalizeRole
      ["maintainer"; "member"; "MAINTAINER"; "MEMBER"; "unknown"; ""]
  = ["owner"; "member"; "owner"; "member"; "member"; "member"].
Proof. reflexivity. Qed.

Lemma ticket_normalizeStatus_idem (s : string) :
  Ticket.normalizeStatus (Ticket.normalizeStatus s) = Ticket.normalizeStatus s.
Proof.
  unfold Ticket.normalizeStatus at 2 3.
  destruct (String.eqb_spec (ToLower s) "open"); [reflexivity|].
  destruct (String.eqb_spec (ToLower s) "closed"); [reflexivity|].
  now apply normalizeStatus_passthrough.
Qed.

Lemma ticket_normalizeStatus_lowered (s : string) :
  ToLower (Ticket.normalizeStatus s) = ToLower s.
Proof.
  unfold Ticket.normalizeStatus.
  destruct (String.eqb_spec (ToLower s) "open") as [->|]; [reflexivity|].
  now destruct (String.eqb_spec (ToLower s) "closed") as [->|].
Qed.

Lemma normalizeRole_twice (s : string) :
  Team.normalizeRole (Team.normalizeRole s) = "member".
Proof.
  unfold Team.normalizeRole at 2.
  destruct (ToLower s =? "maintainer"); [reflexivity|].
  now destruct (ToLower s =? "member").
Qed.

Lemma normalizeRole_owner_iff (s : string) :
  Team.normalizeRole s = "owner" <-> ToLower s = "maintainer".
Proof.
  unfold Team.normalizeRole.
  destruct (String.eqb_spec (ToLower s) "maintainer") as [->|Hm].
  - easy.
  - destruct (ToLower s =? "member"); split; easy.
Qed.

(** Whatever the tables, a second normalisation turns the owner role into
    member, and the statuses "Pending" and "pending" come back as they
    are. *)
Example normalizers_runs :
  Team.normalizeRole "maintainer" = "owner"
  /\ Team.normalizeRole (Team.normalizeRole "maintainer") = "member"
  /\ Ticket.normalizeStatus "Pending" = "Pending"
  /\ Ticket.normalizeStatus "pending" = "pending".
Proof. repeat split. Qed.

(** ASCII strings equal up to letter case are lowered to the same
    string. *)
Lemma SameUpToCase_SameLowered (s t : string) :
  isASCII s = true -> Spec.SameUpToCase s t -> Spec.SameLowered s t.
Proof.
  intros Ha H. unfold Spec.SameLowered.
  rewrite (ToLower_ascii s Ha), ToLower_ascii.
  - now apply SameUpToCase_iff.
  - now rewrite <- (SameUpToCase_isASCII _ _ H).
Qed.

(** C4, amended.  Ticket status normalisation is idempotent; on two
    strings that [strings.ToLower] lowers to the same string its results
    are lowered to the same string, and are equal when that string is open
    or closed.  Team role normalisation gives the same result on two such
    strings; applied twice it always gives member, so it is idempotent on
    exactly the strings that are not lowered to maintainer.  ASCII strings
    equal up to letter case are lowered to the same string. *)
Theorem normalizers_amended :
  (forall s,
      Ticket.normalizeStatus (Ticket.normalizeStatus s)
      = Ticket.normalizeStatus s)
  /\ (forall s t,
         Spec.SameLowered s t ->
         Spec.SameLowered (Ticket.normalizeStatus s)
                          (Ticket.normalizeStatus t)
         /\ (Spec.LowersInto ["open"; "closed"] s ->
             Ticket.normalizeStatus s = Ticket.normalizeStatus t))
  /\ (forall s t,
         Spec.SameLowered s t -> Team.normalizeRole s = Team.normalizeRole t)
  /\ (forall s, Team.normalizeRole (Team.normalizeRole s) = "member")
  /\ (forall s,
         Team.normalizeRole (Team.normalizeRole s) = Team.normalizeRole s
         <-> ~ Spec.LowersTo s "maintainer")
  /\ (forall s t,
         isASCII s = true -> Spec.SameUpToCase s t -> Spec.SameLowered s t).
Proof.
  split; [|split; [|split; [|split; [|split]]]].
  - apply ticket_normalizeStatus_idem.
  - intros s t H. unfold Spec.SameLowered in *. split.
    + now rewrite !ticket_normalizeStatus_lowered.
    + intros Hin. unfold Spec.LowersInto in Hin. simpl in Hin.
      unfold Ticket.normalizeStatus. rewrite <- H.
      destruct Hin as [<-|[<-|[]]]; reflexivity.
  - intros s t H. unfold Spec.SameLowered in H. unfold Team.normalizeRole.
    now rewrite H.
  - apply normalizeRole_twice.
  - intros s. rewrite normalizeRole_twice. unfold Spec.LowersTo. split.
    + intros Hidem Hm. apply normalizeRole_owner_iff in Hm. congruence.
    + intros Hm. unfold Team.normalizeRole.
      destruct (String.eqb_spec (ToLower s) "maintainer") as [Hs|Hs].
      * contradiction.
      * now destruct (ToLower s =? "member").
  - apply SameUpToCase_SameLowered.
Qed.

End Normalizers.
(** ** Page size and the single page (claim C5) *)

Section Pagination.
Context {U : GoStrings.Unicode}.

Lemma ticket_perPage_spec (limit : Z) : Ticket.perPage limit = Spec.pageSize limit.
Proof.
  unfold Ticket.perPage, Spec.pageSize.
  destruct (Z.ltb_spec 0 limit), (Z.ltb_spec limit 100); simpl;
    case_decide; lia.
Qed.

Lemma deployment_perPage_spec (limit : Z) :
  Deployment.perPage limit = Spec.pageSize limit.
Proof.
  unfold Deployment.perPage, Spec.pageSize.
  destruct (Z.ltb_spec 0 limit), (Z.ltb_spec limit 100); simpl;
    case_decide; lia.
Qed.

Lemma pageSize_below_limit (limit : Z) :
  (0 < limit -> Spec.pageSize limit <= limit)%Z.
Proof. unfold Spec.pageSize. case_decide; lia. Qed.

Lemma collectTickets_filter (p : Ticket.Provider) (issues : list Ticket.Issue) :
  Ticket.collectTickets p issues
  = map (Ticket.convertIssueToTicket p) (List.filter Spec.plainIssue issues).
Proof.
  induction issues as [|issue rest IH]; simpl; [reflexivity|].
  unfold Spec.plainIssue at 1.
  destruct (Ticket.issue_PullRequestLinks issue); simpl; now rewrite IH.
Qed.

Lemma collectTickets_length (p : Ticket.Provider) (issues : list Ticket.Issue) :
  (length (Ticket.collectTickets p issues) <= length issues)%nat.
Proof.
  rewrite collectTickets_filter, length_map. apply List.filter_length_le.
Qed.

Lemma collectDeployments_length (p : Deployment.Provider)
      (q : Deployment.DeploymentQuery) (runs : list Deployment.WorkflowRun) :
  (length (Deployment.collectDeployments p q runs) <= length runs)%nat.
Proof.
  induction runs as [|run rest IH]; simpl; [lia|].
  destruct (Deployment.keepRun p q run); simpl; lia.
Qed.

(** The one call of a ticket query. *)
Lemma ticket_Query_call (r : Ticket.Remote) (p : Ticket.Provider)
      (q : Ticket.TicketQuery) (h : list Ticket.Call) :
  snd (Ticket.Query r p q h)
  = (h ++ [Ticket.ListByRepo (Ticket.client p) (Ticket.Owner (Ticket.config p))
             (Ticket.Repo (Ticket.config p)) (Ticket.queryOptions q)])%list.
Proof.
  unfold Ticket.Query, bind, perform, ret.
  now destruct (Ticket.listByRepo _ _ _ _ _ _).
Qed.

Lemma ticket_Query_result (r : Ticket.Remote) (p : Ticket.Provider)
      (q : Ticket.TicketQuery) (h : list Ticket.Call) :
  fst (Ticket.Query r p q h)
  = match Ticket.listByRepo r h (Ticket.client p)
            (Ticket.Owner (Ticket.config p)) (Ticket.Repo (Ticket.config p))
            (Ticket.queryOptions q) with
    | Ok issues => Ok (Ticket.collectTickets p issues)
    | Err err => Err (Ticket.wrapError err)
    end.
Proof.
  unfold Ticket.Query, bind, perform, ret.
  now destruct (Ticket.listByRepo _ _ _ _ _ _).
Qed.

(** The one call of a deployment query. *)
Lemma deployment_Query_call (r : Deployment.Remote) (p : Deployment.Provider)
      (q : Deployment.DeploymentQuery) (h : list Deployment.Call) :
  snd (Deployment.Query r p q h)
  = (h ++ [Deployment.ListRepositoryWorkflowRuns
             (Deployment.client p) (Deployment.Owner (Deployment.config p))
             (Deployment.Repo (Deployment.config p))
             (Deployment.queryOptions q)])%list.
Proof.
  unfold Deployment.Query, bind, perform, ret.
  now destruct (Deployment.listRuns _ _ _ _ _ _).
Qed.

Lemma deployment_Query_result (r : Deployment.Remote)
      (p : Deployment.Provider) (q : Deployment.DeploymentQuery)
      (h : list Deployment.Call) :
  fst (Deployment.Query r p q h)
  = match Deployment.listRuns r h (Deployment.client p)
            (Deployment.Owner (Deployment.config p))
            (Deployment.Repo (Deployment.config p))
            (Deployment.queryOptions q) with
    | Ok runs => Ok (Deployment.collectDeployments p q runs)
    | Err err => Err (Deployment.wrapError err)
    end.
Proof.
  unfold Deployment.Query, bind, perform, ret.
  now destruct (Deployment.listRuns _ _ _ _ _ _).
Qed.

(** C5, amended.  For every ticket or deployment query the page size
    sent upstream is 100, reduced to the caller's limit exactly when the
    limit is above 0 and below 100; the query makes one list call, for the
    first page; and when that page holds no more records than the size
    asked for, a query with a positive limit returns no more results than
    its limit. *)
Theorem query_single_page :
  (forall q,
      opt_ticket_page q = mkListOptions 0 (Spec.pageSize (Ticket.q_Limit q)))
  /\ (forall q,
         opt_deployment_page q
         = mkListOptions 0 (Spec.pageSize (Deployment.q_Limit q)))
  /\ (forall r p q h,
         snd (Ticket.Query r p q h)
         = (h ++ [Ticket.ListByRepo
                    (Ticket.client p) (Ticket.Owner (Ticket.config p))
                    (Ticket.Repo (Ticket.config p))
                    (Ticket.queryOptions q)])%list)
  /\ (forall r p q h,
         snd (Deployment.Query r p q h)
         = (h ++ [Deployment.ListRepositoryWorkflowRuns
                    (Deployment.client p)
                    (Deployment.Owner (Deployment.config p))
                    (Deployment.Repo (Deployment.config p))
                    (Deployment.queryOptions q)])%list)
  /\ (forall r p q h issues,
         Ticket.listByRepo r h (Ticket.client p)
           (Ticket.Owner (Ticket.config p)) (Ticket.Repo (Ticket.config p))
           (Ticket.queryOptions q) = Ok issues ->
         (Z.of_nat (length issues) <= Spec.pageSize (Ticket.q_Limit q))%Z ->
         (0 < Ticket.q_Limit q)%Z ->
         exists tickets,
           fst (Ticket.Query r p q h) = Ok tickets
           /\ (Z.of_nat (length tickets) <= Ticket.q_Limit q)%Z)
  /\ (forall r p q h runs,
         Deployment.listRuns r h (Deployment.client p)
           (Deployment.Owner (Deployment.config p))
           (Deployment.Repo (Deployment.config p))
           (Deployment.queryOptions q) = Ok runs ->
         (Z.of_nat (length runs) <= Spec.pageSize (Deployment.q_Limit q))%Z ->
         (0 < Deployment.q_Limit q)%Z ->
         exists deployments,
           fst (Deployment.Query r p q h) = Ok deployments
           /\ (Z.of_nat (length deployments) <= Deployment.q_Limit q)%Z).
Proof.
  split; [|split; [|split; [|split; [|split]]]].
  - intros q. unfold opt_ticket_page. simpl. now rewrite ticket_perPage_spec.
  - intros q. unfold opt_deployment_page. simpl.
    now rewrite deployment_perPage_spec.
  - apply ticket_Query_call.
  - apply deployment_Query_call.
  - intros r p q h issues Hlist Hpage Hpos.
    exists (Ticket.collectTickets p issues). split.
    + now rewrite ticket_Query_result, Hlist.
    + pose proof (collectTickets_length p issues).
      pose proof (pageSize_below_limit _ Hpos). lia.
  - intros r p q h runs Hlist Hpage Hpos.
    exists (Deployment.collectDeployments p q runs). split.
    + now rewrite deployment_Query_result, Hlist.
    + pose proof (collectDeployments_length p q runs).
      pose proof (pageSize_below_limit _ Hpos). lia.
Qed.

End Pagination.

(** ** Pull requests in ticket queries (claim C10) *)

Section PullRequests.
Import Ticket.
Context {U : GoStrings.Unicode}.

(** C10.  The tickets a query returns are the conversions, in order, of
    the records of the upstream page that carry no pull-request links;
    every record with a non-nil pull-request link field is skipped. *)
Theorem query_skips_pull_requests (r : Remote) (p : Provider)
        (q : TicketQuery) (h : list Call) :
  fst (Query r p q h)
  = match listByRepo r h (client p) (Owner (config p)) (Repo (config p))
                     (queryOptions q) with
    | Ok issues =>
        Ok (map (convertIssueToTicket p)
                (List.filter
                   (fun issue =>
                      match issue_PullRequestLinks issue with
                      | None => true
                      | Some _ => false
                      end) issues))
    | Err err => Err (wrapError err)
    end.
Proof.
  rewrite ticket_Query_result.
  destruct (listByRepo _ _ _ _ _ _); [|reflexivity].
  now rewrite collectTickets_filter.
Qed.

(** A page of three records whose second one is a pull request. *)
Example query_skips_pull_requests_run :
  fst (Query (Samples.ticketRemote
                [Samples.issue 1 "open" None;
                 Samples.issue 2 "open" (Some "https://github.example/pull/2");
                 Samples.issue 3 "CLOSED" None])
             Samples.ticketProvider (mkQuery [] "" 0 ∅) [])
  = Ok [convertIssueToTicket Samples.ticketProvider
          (Samples.issue 1 "open" None);
        convertIssueToTicket Samples.ticketProvider
          (Samples.issue 3 "CLOSED" None)].
Proof. reflexivity. Qed.

End PullRequests.

(** ** Construction (claim C8) *)

Section Construction.
Context {U : GoStrings.Unicode}.

Lemma asString_Some (cfg : gmap string GoAny) (key : string) :
  Spec.HasString cfg key <-> exists s, asString (cfg !! key) = Some s.
Proof.
  unfold Spec.HasString, asString. split; intros [s H]; exists s.
  - now rewrite H.
  - destruct (cfg !! key) as [[]|]; congruence.
Qed.

Lemma asString_None (cfg : gmap string GoAny) (key : string) :
  ~ Spec.HasString cfg key <-> asString (cfg !! key) = None.
Proof.
  rewrite asString_Some. destruct (asString (cfg !! key)) as [s|].
  - split; [intros H; destruct H; now exists s | discriminate].
  - split; [reflexivity | intros _ [s H]; discriminate].
Qed.

Lemma HasString_dec (cfg : gmap string GoAny) (key : string) :
  {Spec.HasString cfg key} + {~ Spec.HasString cfg key}.
Proof.
  unfold Spec.HasString.
  destruct (cfg !! key) as [[]|];
    first [left; eexists; reflexivity | right; intros [s H]; discriminate].
Qed.

Lemma firstMissingKey_spec (required : list string) (cfg : gmap string GoAny)
      (key : string) :
  Spec.firstMissingKey required cfg = Some key
  <-> Spec.FirstMissing required cfg key.
Proof.
  unfold Spec.FirstMissing.
  induction required as [|k rest IH]; simpl.
  - split; [discriminate | intros ([|] & ? & ? & _); discriminate].
  - destruct (HasString_dec cfg k) as [Hk|Hk].
    + pose proof Hk as [s Hs]. rewrite Hs, IH. split.
      * intros (before & after & -> & Hb & Hkey).
        exists (k :: before), after. repeat split; [|assumption].
        now constructor.
      * intros ([|k' before] & after & Hreq & Hb & Hkey);
          injection Hreq as -> ->; [contradiction|].
        apply Forall_cons in Hb as [_ Hb]. now exists before, after.
    + assert (Hscan : match cfg !! k with
                      | Some (AnyString _) => Spec.firstMissingKey rest cfg
                      | _ => Some k
                      end = Some k).
      { destruct (cfg !! k) as [[]|] eqn:E; try reflexivity.
        destruct Hk. unfold Spec.HasString. eauto. }
      rewrite Hscan. split.
      * intros [= <-]. exists [], rest. repeat split; [constructor|assumption].
      * intros ([|k' before] & after & Hreq & Hb & Hkey);
          injection Hreq as -> ->; [reflexivity|].
        apply Forall_cons in Hb as [Hb _]. contradiction.
Qed.

Lemma firstMissingKey_None (required : list string) (cfg : gmap string GoAny) :
  Spec.firstMissingKey required cfg = None
  <-> Forall (Spec.HasString cfg) required.
Proof.
  induction required as [|k rest IH]; simpl.
  - split; [constructor | reflexivity].
  - rewrite Forall_cons, <- IH. unfold Spec.HasString.
    destruct (cfg !! k) as [[]|]; split; try discriminate;
      try (intros [[s H] _]; discriminate).
    + intros H. split; [now eexists | assumption].
    + now intros [_ H].
Qed.

Lemma ticket_New_scan (cfg : gmap string GoAny) :
  match Spec.firstMissingKey ["token"; "owner"; "repo"] cfg with
  | Some key => Ticket.New cfg = Err (key +:+ " is required")
  | None => exists p, Ticket.New cfg = Ok p
  end.
Proof.
  unfold Ticket.New, asString; simpl.
  destruct (cfg !! "token") as [[]|]; try reflexivity.
  destruct (cfg !! "owner") as [[]|]; try reflexivity.
  destruct (cfg !! "repo") as [[]|]; try reflexivity.
  now eexists.
Qed.

Lemma deployment_New_scan (cfg : gmap string GoAny) :
  match Spec.firstMissingKey ["token"; "owner"; "repo"] cfg with
  | Some key => Deployment.New cfg = Err (key +:+ " is required")
  | None => exists p, Deployment.New cfg = Ok p
  end.
Proof.
  unfold Deployment.New, asString; simpl.
  destruct (cfg !! "token") as [[]|]; try reflexivity.
  destruct (cfg !! "owner") as [[]|]; try reflexivity.
  destruct (cfg !! "repo") as [[]|]; try reflexivity.
  now eexists.
Qed.

Lemma team_New_scan (cfg : gmap string GoAny) :
  match Spec.firstMissingKey ["token"; "organization"] cfg with
  | Some key => Team.New cfg = Err (key +:+ " is required")
  | None => exists p, Team.New cfg = Ok p
  end.
Proof.
  unfold Team.New, asString; simpl.
  destruct (cfg !! "token") as [[]|]; try reflexivity.
  destruct (cfg !! "organization") as [[]|]; try reflexivity.
  now eexists.
Qed.

Lemma FirstMissing_New (cfg : gmap string GoAny) (key : string) :
  Spec.FirstMissing ["token"; "owner"; "repo"] cfg key ->
  Ticket.New cfg = Err (key +:+ " is required")
  /\ Deployment.New cfg = Err (key +:+ " is required").
Proof.
  intros H. apply firstMissingKey_spec in H.
  pose proof (ticket_New_scan cfg) as Ht.
  pose proof (deployment_New_scan cfg) as Hd.
  rewrite H in Ht, Hd. now split.
Qed.

Lemma FirstMissing_team_New (cfg : gmap string GoAny) (key : string) :
  Spec.FirstMissing ["token"; "organization"] cfg key ->
  Team.New cfg = Err (key +:+ " is required").
Proof.
  intros H. apply firstMissingKey_spec in H.
  pose proof (team_New_scan cfg) as Ht. now rewrite H in Ht.
Qed.

(** C8.  Construction reads the required keys in a fixed order (token,
    owner, repo for tickets and deployments; token, organization for
    teams) and fails at the first one that is missing or is not a string,
    with an error naming that key; no call to the remote API is made on
    that path; and when the three keys of the ticket adapter are strings,
    construction succeeds with a default state that is "open" whenever
    [defaultState] is absent or is not a string. *)
Theorem construction_validates_in_order :
  (forall cfg key,
      Spec.FirstMissing ["token"; "owner"; "repo"] cfg key ->
      Ticket.New cfg = Err (key +:+ " is required")
      /\ Deployment.New cfg = Err (key +:+ " is required"))
  /\ (forall cfg key,
         Spec.FirstMissing ["token"; "organization"] cfg key ->
         Team.New cfg = Err (key +:+ " is required"))
  /\ (forall cfg token owner repo,
         cfg !! "token" = Some (AnyString token) ->
         cfg !! "owner" = Some (AnyString owner) ->
         cfg !! "repo" = Some (AnyString repo) ->
         exists defaultState,
           Ticket.New cfg
           = Ok (Ticket.mkProvider
                   (NewTokenClient token)
                   (Ticket.mkConfig token owner repo defaultState))
           /\ (~ Spec.HasString cfg "defaultState" -> defaultState = "open")
           /\ (forall s, cfg !! "defaultState" = Some (AnyString s) ->
                         defaultState = s))
  /\ (forall r req h e,
         Ticket.New (TicketPlugin.Config req) = Err e ->
         TicketPlugin.handle r None req h
         = ((None, TicketPlugin.writeErr (Errorf e)), h))
  /\ (forall r req h e,
         Deployment.New (DeploymentPlugin.Config req) = Err e ->
         DeploymentPlugin.handle r None req h
         = ((None, DeploymentPlugin.writeErr (Errorf e)), h))
  /\ (forall errorText r cfg input h e,
         Team.New cfg = Err e ->
         TeamPlugin.main errorText r (TeamPlugin.EnvObject cfg) input h
         = (TeamPlugin.Fatal
              ("Failed to create GitHub team provider: " +:+ e), h)).
Proof.
  split; [|split; [|split; [|split; [|split]]]].
  - apply FirstMissing_New.
  - apply FirstMissing_team_New.
  - intros cfg token owner repo Ht Ho Hr. unfold Ticket.New.
    rewrite Ht, Ho, Hr. simpl. eexists. split; [reflexivity|]. split.
    + intros Hno. apply asString_None in Hno. now rewrite Hno.
    + intros s Hs. now rewrite Hs.
  - intros r req h e He. unfold TicketPlugin.handle. now rewrite He.
  - intros r req h e He. unfold DeploymentPlugin.handle. now rewrite He.
  - intros errorText r cfg input h e He. unfold TeamPlugin.main.
    now rewrite He.
Qed.

Example ticket_New_defaults :
  Ticket.New Samples.ticketConfig = Ok Samples.ticketProvider
  /\ Ticket.New (<["defaultState" := AnyBool true]> Samples.ticketConfig)
     = Ok Samples.ticketProvider
  /\ Ticket.New (<["defaultState" := AnyString "closed"]> Samples.ticketConfig)
     = Ok (Ticket.mkProvider
             (NewTokenClient "t0ken")
             (Ticket.mkConfig "t0ken" "acme" "widgets" "closed"))
  /\ Ticket.New ∅ = Err "token is required"
  /\ Team.New {["token" := AnyString "t0ken"]}
     = Err "organization is required".
Proof. repeat split. Qed.

End Construction.

(** ** The request loops as state machines (claims C6 and C7) *)

Section TicketBridge.
Import Ticket TicketPlugin.
Context {U : GoStrings.Unicode}.

Lemma ticket_handle_failed (r : Remote) (req : rpcRequest) (h : list Call)
      (e : string) :
  New (Config req) = Err e ->
  handle r None req h = ((None, writeErr (Errorf e)), h).
Proof. intros He. unfold handle. now rewrite He. Qed.

Lemma ticket_handle_constructed (r : Remote) (req : rpcRequest) (h : list Call)
      (p : Provider) :
  New (Config req) = Ok p ->
  handle r None req h
  = ((Some p, fst (dispatch r p req h)), snd (dispatch r p req h)).
Proof.
  intros Hp. unfold handle. rewrite Hp. unfold bind, ret.
  now destruct (dispatch r p req h).
Qed.

Lemma ticket_handle_ready (r : Remote) (p : Provider) (req : rpcRequest)
      (h : list Call) :
  handle r (Some p) req h
  = ((Some p, fst (dispatch r p req h)), snd (dispatch r p req h)).
Proof. unfold handle, bind, ret. now destruct (dispatch r p req h). Qed.

Lemma ticket_handle_next (r : Remote) (provider : option Provider)
      (req : rpcRequest) (h : list Call) :
  Spec.stateOf (fst (fst (handle r provider req h)))
  = Spec.next New (Spec.stateOf provider) (Config req).
Proof.
  destruct provider as [p|]; cbn [Spec.stateOf Spec.next].
  - now rewrite ticket_handle_ready.
  - destruct (New (Config req)) as [p|e] eqn:E.
    + now rewrite (ticket_handle_constructed _ _ _ _ E).
    + now rewrite (ticket_handle_failed _ _ _ _ E).
Qed.

Lemma ticket_serve_ready (r : Remote) (p : Provider) (reqs : list rpcRequest)
      (h : list Call) :
  fst (fst (serve r (Some p) reqs h)) = Some p.
Proof.
  revert h. induction reqs as [|req rest IH]; intros h; [reflexivity|].
  cbn [serve]. unfold bind at 1. rewrite ticket_handle_ready.
  unfold bind, ret. cbn [fst snd]. specialize (IH (snd (dispatch r p req h))).
  now destruct (serve r (Some p) rest _) as [[? ?] ?].
Qed.

Lemma ticket_serve_failing (r : Remote) (failing rest : list rpcRequest)
      (h : list Call) :
  Forall (fun req => exists e, New (Config req) = Err e) failing ->
  fst (fst (serve r None (failing ++ rest)%list h))
  = fst (fst (serve r None rest h))
  /\ snd (serve r None (failing ++ rest)%list h) = snd (serve r None rest h).
Proof.
  induction 1 as [|req failing [e He] _ IH]; [now split|].
  cbn [app serve]. unfold bind at 1 3.
  rewrite (ticket_handle_failed _ _ _ _ He). unfold bind, ret. cbn [fst snd].
  destruct IH as [IH1 IH2].
  destruct (serve r None (failing ++ rest)%list h) as [[? ?] ?].
  destruct (serve r None rest h) as [[? ?] ?]. now simpl in *.
Qed.

Lemma ticket_serve_first_success (r : Remote) (failing : list rpcRequest)
      (req : rpcRequest) (p : Provider) (rest : list rpcRequest)
      (h : list Call) :
  Forall (fun req => exists e, New (Config req) = Err e) failing ->
  New (Config req) = Ok p ->
  fst (fst (serve r None (failing ++ req :: rest)%list h)) = Some p.
Proof.
  intros Hfail Hp.
  destruct (ticket_serve_failing r failing (req :: rest) h Hfail) as [-> _].
  cbn [serve]. unfold bind at 1. rewrite (ticket_handle_constructed _ _ _ _ Hp).
  unfold bind, ret. cbn [fst snd].
  pose proof (ticket_serve_ready r p rest (snd (dispatch r p req h))) as Hr.
  now destruct (serve r (Some p) rest _) as [[? ?] ?].
Qed.

(** The loop handles a prefix of decoded requests as [serve] does, and
    goes on with what follows. *)
Lemma ticket_loop_serve (r : Remote) (provider : option Provider)
      (reqs : list rpcRequest) (rest : list (Decoded rpcRequest))
      (h : list Call) :
  loop r provider (map Request_ reqs ++ rest)%list h
  = let served := serve r provider reqs h in
    let after := loop r (fst (fst served)) rest (snd served) in
    ((snd (fst served) ++ fst after)%list, snd after).
Proof.
  revert provider h. induction reqs as [|req reqs IH]; intros provider h.
  - simpl. unfold ret. simpl. apply surjective_pairing.
  - cbn [map app loop serve]. unfold bind, ret.
    destruct (handle r provider req h) as [[provider1 resp] h1].
    cbn [fst snd]. rewrite IH.
    destruct (serve r provider1 reqs h1) as [[provider2 out] h2].
    cbn [fst snd]. now destruct (loop r provider2 rest h2).
Qed.

End TicketBridge.

Section DeploymentBridge.
Import Deployment DeploymentPlugin.
Context {U : GoStrings.Unicode}.

Lemma deployment_handle_failed (r : Remote) (req : rpcRequest) (h : list Call)
      (e : string) :
  New (Config req) = Err e ->
  handle r None req h = ((None, writeErr (Errorf e)), h).
Proof. intros He. unfold handle. now rewrite He. Qed.

Lemma deployment_handle_constructed (r : Remote) (req : rpcRequest) (h : list Call)
      (p : Provider) :
  New (Config req) = Ok p ->
  handle r None req h
  = ((Some p, fst (dispatch r p req h)), snd (dispatch r p req h)).
Proof.
  intros Hp. unfold handle. rewrite Hp. unfold bind, ret.
  now destruct (dispatch r p req h).
Qed.

Lemma deployment_handle_ready (r : Remote) (p : Provider) (req : rpcRequest)
      (h : list Call) :
  handle r (Some p) req h
  = ((Some p, fst (dispatch r p req h)), snd (dispatch r p req h)).
Proof. unfold handle, bind, ret. now destruct (dispatch r p req h). Qed.

Lemma deployment_handle_next (r : Remote) (provider : option Provider)
      (req : rpcRequest) (h : list Call) :
  Spec.stateOf (fst (fst (handle r provider req h)))
  = Spec.next New (Spec.stateOf provider) (Config req).
Proof.
  destruct provider as [p|]; cbn [Spec.stateOf Spec.next].
  - now rewrite deployment_handle_ready.
  - destruct (New (Config req)) as [p|e] eqn:E.
    + now rewrite (deployment_handle_constructed _ _ _ _ E).
    + now rewrite (deployment_handle_failed _ _ _ _ E).
Qed.

Lemma deployment_serve_ready (r : Remote) (p : Provider) (reqs : list rpcRequest)
      (h : list Call) :
  fst (fst (serve r (Some p) reqs h)) = Some p.
Proof.
  revert h. induction reqs as [|req rest IH]; intros h; [reflexivity|].
  cbn [serve]. unfold bind at 1. rewrite deployment_handle_ready.
  unfold bind, ret. cbn [fst snd]. specialize (IH (snd (dispatch r p req h))).
  now destruct (serve r (Some p) rest _) as [[? ?] ?].
Qed.

Lemma deployment_serve_failing (r : Remote) (failing rest : list rpcRequest)
      (h : list Call) :
  Forall (fun req => exists e, New (Config req) = Err e) failing ->
  fst (fst (serve r None (failing ++ rest)%list h))
  = fst (fst (serve r None rest h))
  /\ snd (serve r None (failing ++ rest)%list h) = snd (serve r None rest h).
Proof.
  induction 1 as [|req failing [e He] _ IH]; [now split|].
  cbn [app serve]. unfold bind at 1 3.
  rewrite (deployment_handle_failed _ _ _ _ He). unfold bind, ret. cbn [fst snd].
  destruct IH as [IH1 IH2].
  destruct (serve r None (failing ++ rest)%list h) as [[? ?] ?].
  destruct (serve r None rest h) as [[? ?] ?]. now simpl in *.
Qed.

Lemma deployment_serve_first_success (r : Remote) (failing : list rpcRequest)
      (req : rpcRequest) (p : Provider) (rest : list rpcRequest)
      (h : list Call) :
  Forall (fun req => exists e, New (Config req) = Err e) failing ->
  New (Config req) = Ok p ->
  fst (fst (serve r None (failing ++ req :: rest)%list h)) = Some p.
Proof.
  intros Hfail Hp.
  destruct (deployment_serve_failing r failing (req :: rest) h Hfail) as [-> _].
  cbn [serve]. unfold bind at 1. rewrite (deployment_handle_constructed _ _ _ _ Hp).
  unfold bind, ret. cbn [fst snd].
  pose proof (deployment_serve_ready r p rest (snd (dispatch r p req h))) as Hr.
  now destruct (serve r (Some p) rest _) as [[? ?] ?].
Qed.

(** The loop handles a prefix of decoded requests as [serve] does, and
    goes on with what follows. *)
Lemma deployment_loop_serve (r : Remote) (provider : option Provider)
      (reqs : list rpcRequest) (rest : list (Decoded rpcRequest))
      (h : list Call) :
  loop r provider (map Request_ reqs ++ rest)%list h
  = let served := serve r provider reqs h in
    let after := loop r (fst (fst served)) rest (snd served) in
    ((snd (fst served) ++ fst after)%list, snd after).
Proof.
  revert provider h. induction reqs as [|req reqs IH]; intros provider h.
  - simpl. unfold ret. simpl. apply surjective_pairing.
  - cbn [map app loop serve]. unfold bind, ret.
    destruct (handle r provider req h) as [[provider1 resp] h1].
    cbn [fst snd]. rewrite IH.
    destruct (serve r provider1 reqs h1) as [[provider2 out] h2].
    cbn [fst snd]. now destruct (loop r provider2 rest h2).
Qed.

End DeploymentBridge.

Section Bridges.
Context {U : GoStrings.Unicode}.

(** C6.  The ticket and deployment loops start without an adapter and
    are two-state machines: a request received without an adapter tries
    construction from that request's configuration; on failure the error
    is reported and the loop still has no adapter; on the first success
    the adapter is kept, and every later request is answered by it,
    whatever configuration the request carries. *)
Theorem bridge_state_machine :
  (forall r args input h,
      versionFlag args = false ->
      TicketPlugin.main r args input h
      = (TicketPlugin.Responses (fst (TicketPlugin.loop r None input h)),
         snd (TicketPlugin.loop r None input h)))
  /\ (forall r args input h,
         versionFlag args = false ->
         DeploymentPlugin.main r args input h
         = (DeploymentPlugin.Responses
              (fst (DeploymentPlugin.loop r None input h)),
            snd (DeploymentPlugin.loop r None input h)))
  /\ Spec.StateMachine
       Ticket.New TicketPlugin.Config
       (fun e => TicketPlugin.writeErr (Errorf e))
       TicketPlugin.dispatch TicketPlugin.handle TicketPlugin.serve
       TicketPlugin.loop
  /\ Spec.StateMachine
       Deployment.New DeploymentPlugin.Config
       (fun e => DeploymentPlugin.writeErr (Errorf e))
       DeploymentPlugin.dispatch DeploymentPlugin.handle
       DeploymentPlugin.serve DeploymentPlugin.loop.
Proof.
  split; [|split; [|split]].
  - intros r args input h Hflag.
    unfold TicketPlugin.main, bind, ret. rewrite Hflag.
    now destruct (TicketPlugin.loop r None input h).
  - intros r args input h Hflag.
    unfold DeploymentPlugin.main, bind, ret. rewrite Hflag.
    now destruct (DeploymentPlugin.loop r None input h).
  - repeat split.
    + apply ticket_handle_next.
    + apply ticket_handle_failed.
    + apply ticket_handle_constructed.
    + apply ticket_handle_ready.
    + apply ticket_serve_ready.
    + apply ticket_serve_first_success.
    + apply ticket_loop_serve.
  - repeat split.
    + apply deployment_handle_next.
    + apply deployment_handle_failed.
    + apply deployment_handle_constructed.
    + apply deployment_handle_ready.
    + apply deployment_serve_ready.
    + apply deployment_serve_first_success.
    + apply deployment_loop_serve.
Qed.

Ltac unknown_method H :=
  simpl in H;
  repeat match goal with
    | |- context [String.eqb ?a ?b] =>
        destruct (String.eqb_spec a b); [exfalso; intuition congruence|]
    end;
  reflexivity.

Lemma ticket_dispatch_unknown (r : Ticket.Remote) (p : Ticket.Provider)
      (req : TicketPlugin.rpcRequest) (h : list Ticket.Call) :
  ~ In (TicketPlugin.Method req) TicketPlugin.methods ->
  TicketPlugin.dispatch r p req h
  = (TicketPlugin.writeErr
       (Errorf ("unknown method: " +:+ TicketPlugin.Method req)), h).
Proof. intros H. unfold TicketPlugin.dispatch. unknown_method H. Qed.

Lemma deployment_dispatch_unknown (r : Deployment.Remote)
      (p : Deployment.Provider) (req : DeploymentPlugin.rpcRequest)
      (h : list Deployment.Call) :
  ~ In (DeploymentPlugin.Method req) DeploymentPlugin.methods ->
  DeploymentPlugin.dispatch r p req h
  = (DeploymentPlugin.writeErr
       (Errorf ("unknown method: " +:+ DeploymentPlugin.Method req)), h).
Proof. intros H. unfold DeploymentPlugin.dispatch. unknown_method H. Qed.

Lemma team_handleRequest_unknown (errorText : OpsOrchError -> string)
      (r : Team.Remote) (p : Team.Provider) (req : TeamPlugin.PluginRequest)
      (h : list Team.Call) :
  ~ In (TeamPlugin.Method req) TeamPlugin.methods ->
  TeamPlugin.handleRequest errorText r p req h
  = (TeamPlugin.ErrorOf
       (TeamPlugin.mkPluginError
          "method_not_found" ("Unknown method: " +:+ TeamPlugin.Method req)),
     h).
Proof. intros H. unfold TeamPlugin.handleRequest. unknown_method H. Qed.

(** C7, amended.  For every request whose method is not in the dispatch
    table, no adapter operation is invoked (the history of calls is
    unchanged) and the loop goes on with the next request.  The team loop
    answers with a method_not_found error.  The ticket loop answers with
    an unknown-method error when it has an adapter or builds one from the
    request's configuration; when it has none and the configuration does
    not validate, it answers with the validation error instead. *)
Theorem unknown_method_amended :
  (forall errorText r p req h,
      ~ In (TeamPlugin.Method req) TeamPlugin.methods ->
      TeamPlugin.handleRequest errorText r p req h
      = (TeamPlugin.ErrorOf
           (TeamPlugin.mkPluginError
              "method_not_found"
              ("Unknown method: " +:+ TeamPlugin.Method req)), h))
  /\ (forall errorText r p req rest h,
         TeamPlugin.loop errorText r p (Request_ req :: rest) h
         = let handled := TeamPlugin.handleRequest errorText r p req h in
           let after := TeamPlugin.loop errorText r p rest (snd handled) in
           (fst handled :: fst after, snd after))
  /\ (forall r provider req h,
         ~ In (TicketPlugin.Method req) TicketPlugin.methods ->
         match provider, Ticket.New (TicketPlugin.Config req) with
         | Some p, _ | None, Ok p =>
             TicketPlugin.handle r provider req h
             = ((Some p,
                 TicketPlugin.writeErr
                   (Errorf ("unknown method: " +:+ TicketPlugin.Method req))),
                h)
         | None, Err e =>
             TicketPlugin.handle r provider req h
             = ((None, TicketPlugin.writeErr (Errorf e)), h)
         end)
  /\ (forall r provider req rest h,
         TicketPlugin.loop r provider (Request_ req :: rest) h
         = let handled := TicketPlugin.handle r provider req h in
           let after :=
             TicketPlugin.loop r (fst (fst handled)) rest (snd handled) in
           (snd (fst handled) :: fst after, snd after)).
Proof.
  split; [|split; [|split]].
  - apply team_handleRequest_unknown.
  - intros errorText r p req rest h. cbn [TeamPlugin.loop]. unfold bind, ret.
    destruct (TeamPlugin.handleRequest errorText r p req h) as [resp h1].
    cbn [fst snd]. now destruct (TeamPlugin.loop errorText r p rest h1).
  - intros r provider req h Hm. destruct provider as [p|].
    + rewrite ticket_handle_ready. now rewrite ticket_dispatch_unknown.
    + destruct (Ticket.New (TicketPlugin.Config req)) as [p|e] eqn:E.
      * rewrite (ticket_handle_constructed _ _ _ _ E).
        now rewrite ticket_dispatch_unknown.
      * now apply ticket_handle_failed.
  - intros r provider req rest h. cbn [TicketPlugin.loop]. unfold bind, ret.
    destruct (TicketPlugin.handle r provider req h) as [[provider1 resp] h1].
    cbn [fst snd]. now destruct (TicketPlugin.loop r provider1 rest h1).
Qed.

End Bridges.

(** ** Members of a team (claim C9) *)

Section TeamMembers.
Import Team.
Context {U : GoStrings.Unicode}.

Lemma memberStep_failed (r : Remote) (p : Provider) (orgID id : Z)
      (member : User) (h : list Call) (err : ClientError) :
  getUser r h (client p) (user_Login member) = Err err ->
  memberStep r p orgID id member h
  = (basicMember member, (h ++ [UsersGet (client p) (user_Login member)])%list).
Proof. intros He. unfold memberStep, bind, perform, ret. now rewrite He. Qed.

Lemma memberLoop_app (r : Remote) (p : Provider) (orgID id : Z)
      (l1 l2 : list User) (h : list Call) :
  memberLoop r p orgID id (l1 ++ l2)%list h
  = let first := memberLoop r p orgID id l1 h in
    let second := memberLoop r p orgID id l2 (snd first) in
    ((fst first ++ fst second)%list, snd second).
Proof.
  revert h. induction l1 as [|m l1 IH]; intros h.
  - simpl. unfold ret. simpl. apply surjective_pairing.
  - cbn [app memberLoop]. unfold bind, ret.
    destruct (memberStep r p orgID id m h) as [tm h1].
    rewrite IH. destruct (memberLoop r p orgID id l1 h1) as [tms h2].
    cbn [fst snd]. now destruct (memberLoop r p orgID id l2 h2).
Qed.

Lemma memberLoop_length (r : Remote) (p : Provider) (orgID id : Z)
      (members : list User) (h : list Call) :
  length (fst (memberLoop r p orgID id members h)) = length members.
Proof.
  revert h. induction members as [|m members IH]; intros h; [reflexivity|].
  cbn [memberLoop]. unfold bind, ret.
  destruct (memberStep r p orgID id m h) as [tm h1]. specialize (IH h1).
  destruct (memberLoop r p orgID id members h1). simpl in *. now rewrite IH.
Qed.

(** The entry of a member whose profile cannot be read, wherever the
    member stands in the list. *)
Lemma memberLoop_failed (r : Remote) (p : Provider) (orgID id : Z)
      (before : list User) (member : User) (after : list User)
      (h : list Call) (err : ClientError) :
  getUser r (snd (memberLoop r p orgID id before h)) (client p)
          (user_Login member) = Err err ->
  fst (memberLoop r p orgID id (before ++ member :: after)%list h)
      !! length before
  = Some (basicMember member).
Proof.
  intros He. rewrite memberLoop_app. cbn zeta. cbn [fst].
  rewrite lookup_app_r by (rewrite memberLoop_length; lia).
  rewrite memberLoop_length, Nat.sub_diag.
  cbn [memberLoop]. unfold bind at 1.
  rewrite (memberStep_failed _ _ _ _ _ _ _ He). unfold bind, ret.
  now destruct (memberLoop r p orgID id after _).
Qed.

(** C9.  Once the team is resolved, the organisation is read and the
    members are listed, [Members] succeeds whatever the per-member
    lookups answer; its result has one entry per listed member; and the
    entry of a member whose detailed-user lookup fails holds the role
    "member", the login as id, name and handle, no email, and as metadata
    the member's id, avatar URL, page URL, site-admin flag and type under
    github_id, avatar_url, html_url, site_admin and type, and no other
    key. *)
Theorem members_degrade
        (r : Remote) (p : Provider) (teamID : string) (h : list Call)
        (id : Z) (h0 : list Call) (orgID : Z) (members : list User) :
  let org := Organization (config p) in
  let opts := mkListOptions 0 100 in
  let h1 := (h0 ++ [OrganizationsGet (client p) org])%list in
  let h2 := (h1 ++ [ListTeamMembersByID (client p) orgID id opts])%list in
  resolveTeamID r p teamID h = (Ok id, h0) ->
  getOrganization r h0 (client p) org = Ok orgID ->
  listTeamMembers r h1 (client p) orgID id opts = Ok members ->
  exists result,
    fst (Members r p teamID h) = Ok result
    /\ length result = length members
    /\ forall before member after err,
        members = (before ++ member :: after)%list ->
        getUser r (snd (memberLoop r p orgID id before h2)) (client p)
                (user_Login member) = Err err ->
        exists entry,
          result !! length before = Some entry
          /\ m_Role entry = "member"
          /\ m_ID entry = user_Login member
          /\ m_Name entry = user_Login member
          /\ m_Handle entry = user_Login member
          /\ m_Email entry = ""
          /\ m_Metadata entry !! "github_id"
             = Some (AnyNumber (user_ID member))
          /\ m_Metadata entry !! "avatar_url"
             = Some (AnyString (user_AvatarURL member))
          /\ m_Metadata entry !! "html_url"
             = Some (AnyString (user_HTMLURL member))
          /\ m_Metadata entry !! "site_admin"
             = Some (AnyBool (user_SiteAdmin member))
          /\ m_Metadata entry !! "type"
             = Some (AnyString (user_Type member))
          /\ forall key,
              ~ In key ["github_id"; "avatar_url"; "html_url"; "site_admin";
                        "type"] ->
              m_Metadata entry !! key = None.
Proof.
  intros org opts h1 h2 Hid Horg Hlist.
  exists (fst (memberLoop r p orgID id members h2)). split; [|split].
  - unfold Members, bind. rewrite Hid.
    unfold membersOf, bind, perform, ret. fold org. rewrite Horg.
    fold h1 opts. rewrite Hlist. fold h2.
    now destruct (memberLoop r p orgID id members h2).
  - apply memberLoop_length.
  - intros before member after err -> He. exists (basicMember member).
    split; [now apply memberLoop_failed with (err := err)|].
    repeat split; try reflexivity.
    intros key Hk. simpl in Hk.
    unfold basicMember, basicMetadata. cbn [m_Metadata list_to_map foldr].
    cbn [fst snd].
    repeat (rewrite lookup_insert_ne by (intros <-; intuition)).
    apply lookup_empty.
Qed.

(** The same run, evaluated: bob is present between alice and carol, as a
    plain member named by his login, while the two others are owners. *)
Example members_degrade_run :
  match fst (Members Samples.teamRemote Samples.teamProvider "platform" [])
  with
  | Ok result =>
      map (fun m => (m_ID m, m_Name m, m_Role m)) result
      = [("alice", "Name of alice", "owner");
         ("bob", "bob", "member");
         ("carol", "Name of carol", "owner")]
      /\ result !! 1%nat = Some (basicMember (Samples.person "bob" 12))
  | Err _ => False
  end.
Proof. vm_compute. split; reflexivity. Qed.

(** The calls of that run, in order: one detailed-user lookup per member,
    and one membership lookup for each member whose profile was read. *)
Example members_degrade_calls :
  let c := NewTokenClient "t0ken" in
  snd (Members Samples.teamRemote Samples.teamProvider "platform" [])
  = [GetTeamBySlug c "acme" "platform";
     OrganizationsGet c "acme";
     ListTeamMembersByID c 100 9 (mkListOptions 0 100);
     UsersGet c "alice"; GetTeamMembershipByID c 100 9 "alice";
     UsersGet c "bob";
     UsersGet c "carol"; GetTeamMembershipByID c 100 9 "carol"].
Proof. reflexivity. Qed.

End TeamMembers.

(** * Further properties of the adapters *)

(** ** Error wrapping *)

Section ErrorWrapping.
Context {U : GoStrings.Unicode}.

Lemma wrapErrorWith_code (forbidden notFound forbidden' notFound' : string)
      (err : ClientError) :
  Code (wrapErrorWith forbidden notFound err)
  = Code (wrapErrorWith forbidden' notFound' err).
Proof.
  destruct err as [code msg|text]; [|reflexivity]. unfold wrapErrorWith.
  repeat match goal with
    | |- context [Z.eqb ?a ?b] => destruct (Z.eqb a b)
    end; reflexivity.
Qed.

(** X1.  The three adapters give every client error the same code.  For
    an error response that code is unauthorized exactly for HTTP 401,
    forbidden exactly for 403, not_found exactly for 404, bad_request
    exactly for 422 and provider_error exactly for every other status;
    any other error is a provider_error.  The upstream message is kept in
    the wrapped message for 422 and for the other statuses, and dropped
    for 401, 403 and 404. *)
Theorem wrapError_codes (err : ClientError) :
  Code (Deployment.wrapError err) = Code (Ticket.wrapError err)
  /\ Code (Team.wrapError err) = Code (Ticket.wrapError err)
  /\ match err with
     | ErrorResponse status msg =>
         (Code (Ticket.wrapError err) = "unauthorized" <-> status = 401%Z)
         /\ (Code (Ticket.wrapError err) = "forbidden" <-> status = 403%Z)
         /\ (Code (Ticket.wrapError err) = "not_found" <-> status = 404%Z)
         /\ (Code (Ticket.wrapError err) = "bad_request" <-> status = 422%Z)
         /\ (Code (Ticket.wrapError err) = "provider_error"
             <-> ~ In status [401; 403; 404; 422]%Z)
         /\ (status = 422%Z ->
             Message (Ticket.wrapError err)
             = "GitHub API validation error: " +:+ msg)
         /\ (~ In status [401; 403; 404; 422]%Z ->
             Message (Ticket.wrapError err) = "GitHub API error: " +:+ msg)
         /\ (In status [401; 403; 404]%Z ->
             forall msg',
               Ticket.wrapError (ErrorResponse status msg')
               = Ticket.wrapError err)
     | OtherError text =>
         Ticket.wrapError err
         = mkOpsOrchError "provider_error" ("GitHub API error: " +:+ text)
     end.
Proof.
  split; [|split].
  - apply wrapErrorWith_code.
  - apply wrapErrorWith_code.
  - destruct err as [status msg|text]; [|reflexivity].
    unfold Ticket.wrapError, wrapErrorWith. simpl In.
    destruct (Z.eqb_spec status 401) as [->|H1].
    { simpl. repeat split; intros; try reflexivity; try discriminate;
        try lia; intuition lia. }
    destruct (Z.eqb_spec status 403) as [->|H2].
    { simpl. repeat split; intros; try reflexivity; try discriminate;
        try lia; intuition lia. }
    destruct (Z.eqb_spec status 404) as [->|H3].
    { simpl. repeat split; intros; try reflexivity; try discriminate;
        try lia; intuition lia. }
    destruct (Z.eqb_spec status 422) as [->|H4].
    { simpl. repeat split; intros; try reflexivity; try discriminate;
        try lia; intuition lia. }
    simpl. repeat split; intros; try reflexivity; try discriminate;
      try lia; intuition lia.
Qed.

End ErrorWrapping.

(** ** Identifiers *)

Section Identifiers.
Import GoStrconv.
Context {U : GoStrings.Unicode}.

Lemma digits_acc (d : Decimal.uint) (acc : positive) :
  digits (Zpos acc) (NilEmpty.string_of_uint d)
  = Some (Zpos (Pos.of_uint_acc d acc)).
Proof.
  revert acc. induction d; intros acc; simpl; try reflexivity;
    unfold digitVal; simpl; rewrite <- IHd; f_equal; lia.
Qed.

Lemma digits_zero (d : Decimal.uint) :
  digits 0 (NilEmpty.string_of_uint d) = Some (Z.of_N (Pos.of_uint d)).
Proof.
  induction d; simpl; try reflexivity; unfold digitVal; simpl;
    first [exact IHd | apply digits_acc].
Qed.

Lemma digits_to_uint (p : positive) :
  digits 0 (NilZero.string_of_uint (Pos.to_uint p)) = Some (Zpos p).
Proof.
  unfold NilZero.string_of_uint.
  pose proof (Unsigned.to_uint_nonnil p) as Hn.
  destruct (Pos.to_uint p) eqn:E; [contradiction| ..];
    rewrite <- E, digits_zero, Unsigned.of_to; reflexivity.
Qed.

(** The decimal text of a positive number starts with a digit. *)
Lemma to_uint_head (p : positive) :
  exists c t, NilZero.string_of_uint (Pos.to_uint p) = String c t
              /\ c <> "+"%char /\ c <> "-"%char.
Proof.
  unfold NilZero.string_of_uint.
  pose proof (Unsigned.to_uint_nonnil p) as Hn.
  destruct (Pos.to_uint p); [contradiction| ..]; simpl;
    eexists _, _; (split; [reflexivity|split; discriminate]).
Qed.

(** Parsing the decimal text of an [int64] gives the number back. *)
Lemma ParseInt_FormatInt (n : Z) :
  Obs.InInt64 n -> ParseInt (FormatInt n) = Some n.
Proof.
  unfold Obs.InInt64. intros Hr. unfold FormatInt, ParseInt.
  destruct n as [|p|p]; simpl.
  - reflexivity.
  - destruct (to_uint_head p) as (c & t & E & Hp & Hm).
    pose proof (digits_to_uint p) as Hd. rewrite E in *.
    assert (Hs : match String c t with
                 | String "+" t' => (false, t')
                 | String "-" t' => (true, t')
                 | _ => (false, String c t)
                 end = (false, String c t)).
    { destruct c as [[] [] [] [] [] [] [] []]; try reflexivity; congruence. }
    rewrite Hs, Hd.
    destruct (Z.leb_spec int64_min (Z.pos p)),
             (Z.leb_spec (Z.pos p) int64_max);
      simpl; try reflexivity; lia.
  - rewrite digits_to_uint.
    destruct (to_uint_head p) as (c & t & E & _). rewrite E.
    destruct (Z.leb_spec int64_min (- Z.pos p)),
             (Z.leb_spec (- Z.pos p) int64_max);
      simpl; try reflexivity; lia.
Qed.

Lemma ticket_Get_call (r : Ticket.Remote) (p : Ticket.Provider) (id : string)
      (n : Z) (h : list Ticket.Call) :
  Atoi id = Some n ->
  snd (Ticket.Get r p id h)
  = (h ++ [Ticket.IssuesGet (Ticket.client p) (Ticket.Owner (Ticket.config p))
             (Ticket.Repo (Ticket.config p)) n])%list.
Proof.
  intros Hn. unfold Ticket.Get. rewrite Hn. unfold bind, perform, ret.
  now destruct (Ticket.getIssue _ _ _ _ _ _).
Qed.

Lemma deployment_Get_call (r : Deployment.Remote) (p : Deployment.Provider)
      (id : string) (n : Z) (h : list Deployment.Call) :
  ParseInt id = Some n ->
  snd (Deployment.Get r p id h)
  = (h ++ [Deployment.GetWorkflowRunByID
             (Deployment.client p) (Deployment.Owner (Deployment.config p))
             (Deployment.Repo (Deployment.config p)) n])%list.
Proof.
  intros Hn. unfold Deployment.Get. rewrite Hn. unfold bind, perform, ret.
  now destruct (Deployment.getRun _ _ _ _ _ _).
Qed.

(** X2.  An identifier that is not a decimal [int64] never reaches the
    remote API: [Get] and [Update] of the ticket adapter and [Get] of the
    deployment adapter answer bad_request, naming the identifier, and
    make no call.  An identifier that is one makes exactly one call, with
    the number it denotes. *)
Theorem malformed_id_makes_no_call (id : string) :
  match ParseInt id with
  | None =>
      (forall r p h,
          Ticket.Get r p id h
          = (Err (mkOpsOrchError "bad_request"
                                 ("invalid issue number: " +:+ id)), h))
      /\ (forall r p input h,
             Ticket.Update r p id input h
             = (Err (mkOpsOrchError "bad_request"
                                    ("invalid issue number: " +:+ id)), h))
      /\ (forall r p h,
             Deployment.Get r p id h
             = (Err (mkOpsOrchError "bad_request"
                                    ("invalid workflow run ID: " +:+ id)), h))
  | Some n =>
      (forall r p h,
          snd (Ticket.Get r p id h)
          = (h ++ [Ticket.IssuesGet
                     (Ticket.client p) (Ticket.Owner (Ticket.config p))
                     (Ticket.Repo (Ticket.config p)) n])%list)
      /\ (forall r p input h,
             snd (Ticket.Update r p id input h)
             = (h ++ [Ticket.IssuesEdit
                        (Ticket.client p) (Ticket.Owner (Ticket.config p))
                        (Ticket.Repo (Ticket.config p)) n
                        (Ticket.updateRequest input)])%list)
      /\ (forall r p h,
             snd (Deployment.Get r p id h)
             = (h ++ [Deployment.GetWorkflowRunByID
                        (Deployment.client p)
                        (Deployment.Owner (Deployment.config p))
                        (Deployment.Repo (Deployment.config p)) n])%list)
  end.
Proof.
  destruct (ParseInt id) as [n|] eqn:E.
  - split; [|split]; intros.
    + now apply ticket_Get_call.
    + now apply Update_call.
    + now apply deployment_Get_call.
  - split; [|split]; intros.
    + unfold Ticket.Get, Atoi. now rewrite E.
    + unfold Ticket.Update, Atoi. now rewrite E.
    + unfold Deployment.Get. now rewrite E.
Qed.

(** Identifiers at the edges: empty, padded, signed, zero-padded, and one
    past the largest [int64]. *)
Example id_edges :
  let get id := Ticket.Get (Samples.ticketRemote []) Samples.ticketProvider
                           id [] in
  let c := NewTokenClient "t0ken" in
  snd (get "") = [] /\ snd (get " 7") = [] /\ snd (get "7a") = []
  /\ snd (get "9223372036854775808") = []
  /\ snd (get "+7") = [Ticket.IssuesGet c "acme" "widgets" 7]
  /\ snd (get "007") = [Ticket.IssuesGet c "acme" "widgets" 7]
  /\ snd (get "-7") = [Ticket.IssuesGet c "acme" "widgets" (-7)].
Proof. repeat split. Qed.

(** X3.  Identifiers round-trip: [Get] on the id of a ticket converted
    from an issue asks for that issue's number, and [Get] on the id of a
    deployment converted from a workflow run asks for that run's id. *)
Theorem converted_id_round_trip :
  (forall r p issue h,
      Obs.InInt64 (Ticket.issue_Number issue) ->
      snd (Ticket.Get r p (Ticket.t_ID (Ticket.convertIssueToTicket p issue))
                      h)
      = (h ++ [Ticket.IssuesGet
                 (Ticket.client p) (Ticket.Owner (Ticket.config p))
                 (Ticket.Repo (Ticket.config p))
                 (Ticket.issue_Number issue)])%list)
  /\ (forall r p run h,
         Obs.InInt64 (Deployment.run_ID run) ->
         snd (Deployment.Get
                r p
                (Deployment.d_ID
                   (Deployment.convertWorkflowRunToDeployment p run)) h)
         = (h ++ [Deployment.GetWorkflowRunByID
                    (Deployment.client p)
                    (Deployment.Owner (Deployment.config p))
                    (Deployment.Repo (Deployment.config p))
                    (Deployment.run_ID run)])%list).
Proof.
  split.
  - intros r p issue h Hr. apply ticket_Get_call. simpl.
    unfold Atoi, Itoa. now apply ParseInt_FormatInt.
  - intros r p run h Hr. apply deployment_Get_call. simpl.
    now apply ParseInt_FormatInt.
Qed.

End Identifiers.

(** ** The ticket adapter *)

Section TicketAdapter.
Import GoStrings Ticket.
Context {U : GoStrings.Unicode}.

Lemma collectTickets_provider (p p' : Provider) (issues : list Issue) :
  collectTickets p issues = collectTickets p' issues.
Proof.
  induction issues as [|issue rest IH]; simpl; [reflexivity|].
  destruct (issue_PullRequestLinks issue); now rewrite IH.
Qed.

(** X4.  The configured default state is never used: two ticket adapters
    that differ only in it make the same calls and return the same
    results in [Query], [Get], [Create] and [Update]. *)
Theorem defaultState_is_unused
        (r : Remote) (c : GithubClient) (token owner repo : string)
        (state state' : string) (h : list Call) :
  let p := mkProvider c (mkConfig token owner repo state) in
  let p' := mkProvider c (mkConfig token owner repo state') in
  (forall q, Query r p q h = Query r p' q h)
  /\ (forall id, Get r p id h = Get r p' id h)
  /\ (forall input, Create r p input h = Create r p' input h)
  /\ (forall id input, Update r p id input h = Update r p' id input h).
Proof.
  intros p p'. split; [|split; [|split]].
  - intros q. unfold Query, bind, perform, ret. simpl.
    destruct (listByRepo _ _ _ _ _ _); [|reflexivity].
    now rewrite (collectTickets_provider p p').
  - reflexivity.
  - reflexivity.
  - reflexivity.
Qed.

Lemma updateState_open (status : string) :
  updateState status = Some "open" <-> Spec.LowersInto Obs.openGroup status.
Proof.
  unfold Obs.openGroup. unfold Spec.LowersInto.
  unfold updateState. simpl.
  repeat match goal with
    | |- context [String.eqb ?a ?b] => destruct (String.eqb_spec a b)
    end; simpl; split; intros H; try reflexivity; try discriminate;
    intuition congruence.
Qed.

Lemma updateState_closed (status : string) :
  updateState status = Some "closed" <-> Spec.LowersInto Obs.closedGroup status.
Proof.
  unfold Obs.closedGroup. unfold Spec.LowersInto.
  unfold updateState. simpl.
  repeat match goal with
    | |- context [String.eqb ?a ?b] => destruct (String.eqb_spec a b)
    end; simpl; split; intros H; try reflexivity; try discriminate;
    try (exfalso; intuition congruence);
    repeat match goal with
      | E : ToLower _ = _ |- _ => rewrite E in *; clear E
      end; intuition discriminate.
Qed.

Lemma updateState_values (status v : string) :
  updateState status = Some v -> v = "open" \/ v = "closed".
Proof.
  unfold updateState.
  repeat match goal with
    | |- context [String.eqb ?a ?b] => destruct (String.eqb a b)
    end; simpl; intros [= <-] || discriminate; auto.
Qed.

Lemma LowersInto_nonempty (words : list string) (s : string) :
  Forall (fun w => w <> "") words -> Spec.LowersInto words s -> s <> "".
Proof.
  intros Hw Ho ->. unfold Spec.LowersInto in Ho. simpl in Ho.
  rewrite Forall_forall in Hw. apply list_elem_of_In in Ho.
  now apply Hw in Ho.
Qed.

(** For a status of ASCII bytes, being lowered into an alias group is
    being one of its values up to letter case. *)
Lemma alias_groups_ascii (status : string) :
  isASCII status = true ->
  (Spec.LowersInto Obs.openGroup status <-> Spec.OneOf Obs.openGroup status)
  /\ (Spec.LowersInto Obs.closedGroup status
      <-> Spec.OneOf Obs.closedGroup status)
  /\ (Spec.LowersInto Spec.aliasValues status
      <-> Spec.OneOf Spec.aliasValues status).
Proof.
  intros Ha.
  split; [|split]; apply LowersInto_ascii; first [assumption | repeat constructor].
Qed.

(** X5.  The state an update sends upstream is open exactly when the
    input's status, lowered by [strings.ToLower], is one of open, new,
    in_progress, closed exactly when it is one of closed, resolved, done,
    and is never any other value.  For a status of ASCII bytes, lowered
    into a group means one of its values up to letter case. *)
Theorem update_state_sent (input : UpdateTicketInput) :
  (req_State (updateRequest input) = Some "open"
   <-> exists status,
         u_Status input = Some status /\ Spec.LowersInto Obs.openGroup status)
  /\ (req_State (updateRequest input) = Some "closed"
      <-> exists status,
            u_Status input = Some status
            /\ Spec.LowersInto Obs.closedGroup status)
  /\ (forall v,
         req_State (updateRequest input) = Some v ->
         v = "open" \/ v = "closed")
  /\ (forall status,
         isASCII status = true ->
         (Spec.LowersInto Obs.openGroup status
          <-> Spec.OneOf Obs.openGroup status)
         /\ (Spec.LowersInto Obs.closedGroup status
             <-> Spec.OneOf Obs.closedGroup status)
         /\ (Spec.LowersInto Spec.aliasValues status
             <-> Spec.OneOf Spec.aliasValues status)).
Proof.
  apply and_tail3; [exact alias_groups_ascii|].
  unfold updateRequest; simpl. destruct (u_Status input) as [status|]; simpl.
  - destruct (String.eqb_spec status "") as [->|Hne].
    + split; [|split]; try discriminate.
      * split; [discriminate|]. intros (s & [= <-] & Ho).
        now apply LowersInto_nonempty in Ho; [|repeat constructor].
      * split; [discriminate|]. intros (s & [= <-] & Ho).
        now apply LowersInto_nonempty in Ho; [|repeat constructor].
    + split; [|split].
      * rewrite updateState_open. split; [intros H; now exists status|].
        now intros (s & [= <-] & Ho).
      * rewrite updateState_closed. split; [intros H; now exists status|].
        now intros (s & [= <-] & Ho).
      * apply updateState_values.
  - split; [|split]; try discriminate;
      (split; [discriminate | now intros (s & [=] & _)]).
Qed.

Lemma pushState_values (acc status : string) :
  pushState acc status = "open" \/ pushState acc status = "closed"
  \/ pushState acc status = acc.
Proof.
  unfold pushState.
  repeat match goal with
    | |- context [String.eqb ?a ?b] => destruct (String.eqb a b)
    end; simpl; auto.
Qed.

Lemma pushState_open (acc status : string) :
  Spec.LowersInto Obs.openGroup status -> pushState acc status = "open".
Proof.
  unfold Obs.openGroup. unfold Spec.LowersInto.
  unfold pushState. simpl. intros [ <- | [ <- | [ <- | [] ] ] ]; reflexivity.
Qed.

Lemma pushState_closed (acc status : string) :
  Spec.LowersInto Obs.closedGroup status -> pushState acc status = "closed".
Proof.
  unfold Obs.closedGroup. unfold Spec.LowersInto.
  unfold pushState. simpl. intros [ <- | [ <- | [ <- | [] ] ] ]; reflexivity.
Qed.

Lemma pushState_other (acc status : string) :
  ~ Spec.LowersInto Spec.aliasValues status -> pushState acc status = acc.
Proof.
  unfold Spec.aliasValues. unfold Spec.LowersInto.
  unfold pushState. simpl. intros H.
  repeat match goal with
    | |- context [String.eqb ?a ?b] => destruct (String.eqb_spec a b)
    end; simpl; try reflexivity; exfalso; intuition congruence.
Qed.

Lemma pushState_fold_other (acc : string) (statuses : list string) :
  Forall (fun s => ~ Spec.LowersInto Spec.aliasValues s) statuses ->
  fold_left pushState statuses acc = acc.
Proof.
  intros H. revert acc. induction H as [|s l Hs _ IH]; intros acc; simpl.
  - reflexivity.
  - now rewrite (pushState_other _ _ Hs).
Qed.

Lemma LowersInto_alias_cases (s : string) :
  Spec.LowersInto Spec.aliasValues s
  <-> Spec.LowersInto Obs.openGroup s \/ Spec.LowersInto Obs.closedGroup s.
Proof.
  unfold Spec.aliasValues, Obs.openGroup, Obs.closedGroup.
  unfold Spec.LowersInto. simpl. tauto.
Qed.

Lemma LowersInto_dec (words : list string) (s : string) :
  {Spec.LowersInto words s} + {~ Spec.LowersInto words s}.
Proof. apply (in_dec string_dec). Qed.

(** X6.  When a ticket query lists several statuses, the state filter
    sent upstream is decided by the last status that [strings.ToLower]
    lowers into an alias group: open for the open group, closed for the
    closed group.  It is empty exactly when no listed status is lowered
    into a group, and it is never any other value.  For a status of ASCII
    bytes, lowered into a group means one of its values up to letter
    case. *)
Theorem query_state_pushed (q : TicketQuery) :
  (forall before status after,
      q_Statuses q = (before ++ status :: after)%list ->
      Forall (fun s => ~ Spec.LowersInto Spec.aliasValues s) after ->
      (Spec.LowersInto Obs.openGroup status ->
       opt_State (queryOptions q) = "open")
      /\ (Spec.LowersInto Obs.closedGroup status ->
          opt_State (queryOptions q) = "closed"))
  /\ (opt_State (queryOptions q) = ""
      <-> Forall (fun s => ~ Spec.LowersInto Spec.aliasValues s) (q_Statuses q))
  /\ In (opt_State (queryOptions q)) [""; "open"; "closed"]
  /\ (forall status,
         isASCII status = true ->
         (Spec.LowersInto Obs.openGroup status
          <-> Spec.OneOf Obs.openGroup status)
         /\ (Spec.LowersInto Obs.closedGroup status
             <-> Spec.OneOf Obs.closedGroup status)
         /\ (Spec.LowersInto Spec.aliasValues status
             <-> Spec.OneOf Spec.aliasValues status)).
Proof.
  apply and_tail3; [exact alias_groups_ascii|].
  unfold queryOptions; simpl. split; [|split].
  - intros before status after -> Hafter.
    rewrite fold_left_app. simpl. rewrite (pushState_fold_other _ _ Hafter).
    split; intros Hs; [now apply pushState_open | now apply pushState_closed].
  - split.
    + generalize (q_Statuses q). intros l.
      induction l as [|s l IH] using rev_ind; [constructor|].
      rewrite fold_left_app. simpl. intros H.
      destruct (LowersInto_dec Spec.aliasValues s) as [Hs|Hs].
      * apply LowersInto_alias_cases in Hs as [Hs|Hs].
        -- rewrite (pushState_open _ _ Hs) in H. discriminate.
        -- rewrite (pushState_closed _ _ Hs) in H. discriminate.
      * rewrite (pushState_other _ _ Hs) in H.
        apply Forall_app. split; [now apply IH | now constructor].
    + apply pushState_fold_other.
  - generalize (q_Statuses q). intros l.
    induction l as [|s l IH] using rev_ind; [simpl; auto|].
    rewrite fold_left_app. simpl.
    destruct (pushState_values (fold_left pushState l "") s) as [ -> | [ -> | -> ] ];
      simpl; auto.
Qed.

(** Statuses [open] then [closed]: only closed issues are asked for. *)
Example query_state_pushed_run :
  opt_State (queryOptions (mkQuery ["open"; "weird"; "Closed"; "later"] "" 0 ∅))
  = "closed".
Proof. reflexivity. Qed.

End TicketAdapter.

(** ** The ticket and deployment loops *)

Section TicketLoop.
Import Ticket TicketPlugin.
Context {U : GoStrings.Unicode}.

Lemma ticket_Create_call (r : Remote) (p : Provider)
      (input : CreateTicketInput) (h : list Call) :
  snd (Create r p input h)
  = (h ++ [IssuesCreate (client p) (Owner (config p)) (Repo (config p))
                        (createRequest input)])%list.
Proof.
  unfold Create, bind, perform, ret. now destruct (createIssue _ _ _ _ _ _).
Qed.

Lemma OwnCalls_none (p : Provider) (h : list Call) : Obs.OwnCalls p h h.
Proof. exists []. rewrite app_nil_r. repeat split; [simpl; lia|constructor]. Qed.

Lemma OwnCalls_one (p : Provider) (h : list Call) (c : Call) :
  Obs.ticketTarget c = (client p, Owner (config p), Repo (config p)) ->
  Obs.OwnCalls p h (h ++ [c])%list.
Proof.
  intros Hc. exists [c]. repeat split; [simpl; lia|]. now repeat constructor.
Qed.

Lemma ticket_dispatch_own_calls (r : Remote) (p : Provider)
      (req : rpcRequest) (h : list Call) :
  Obs.OwnCalls p h (snd (dispatch r p req h)).
Proof.
  unfold dispatch.
  destruct (Method req =? "ticket.query").
  { destruct (asQuery (Payload req)) as [q|e]; [|apply OwnCalls_none].
    unfold bind at 1, ret.
    pose proof (ticket_Query_call r p q h) as Hc.
    destruct (Query r p q h) as [res h1]. simpl in *. subst h1.
    now apply OwnCalls_one. }
  destruct (Method req =? "ticket.get").
  { destruct (asID (Payload req)) as [id|e]; [|apply OwnCalls_none].
    unfold bind at 1, ret.
    destruct (GoStrconv.Atoi id) as [n|] eqn:E.
    - pose proof (ticket_Get_call r p id n h E) as Hc.
      destruct (Get r p id h) as [res h1]. simpl in *. subst h1.
      now apply OwnCalls_one.
    - unfold Get. rewrite E. apply OwnCalls_none. }
  destruct (Method req =? "ticket.create").
  { destruct (asCreate (Payload req)) as [input|e]; [|apply OwnCalls_none].
    unfold bind at 1, ret.
    pose proof (ticket_Create_call r p input h) as Hc.
    destruct (Create r p input h) as [res h1]. simpl in *. subst h1.
    now apply OwnCalls_one. }
  destruct (Method req =? "ticket.update").
  { destruct (asUpdate (Payload req)) as [[id input]|e]; [|apply OwnCalls_none].
    unfold bind at 1, ret.
    destruct (GoStrconv.Atoi id) as [n|] eqn:E.
    - pose proof (Update_call r p id n input h E) as Hc.
      destruct (Update r p id input h) as [res h1]. simpl in *. subst h1.
      now apply OwnCalls_one.
    - unfold Update. rewrite E. apply OwnCalls_none. }
  apply OwnCalls_none.
Qed.

Lemma ticket_serve_cons_ready (r : Remote) (p : Provider)
      (req : rpcRequest) (reqs : list rpcRequest) (h : list Call) :
  serve r (Some p) (req :: reqs) h
  = let answered := dispatch r p req h in
    let served := serve r (Some p) reqs (snd answered) in
    ((fst (fst served), fst answered :: snd (fst served)), snd served).
Proof.
  cbn [serve]. unfold bind at 1. rewrite ticket_handle_ready.
  unfold bind, ret. cbn [fst snd].
  now destruct (serve r (Some p) reqs _) as [[? ?] ?].
Qed.

(** X7.  Once the ticket loop holds an adapter, every call it makes while
    serving any sequence of requests goes through that adapter's client
    handle, to its owner and repository, whatever configurations the
    requests carry; it makes at most one call per request and writes
    exactly one response per request. *)
Theorem ticket_loop_calls_bound (r : Remote) (p : Provider)
        (reqs : list rpcRequest) (h : list Call) :
  exists calls,
    snd (serve r (Some p) reqs h) = (h ++ calls)%list
    /\ (length calls <= length reqs)%nat
    /\ Forall (fun c => Obs.ticketTarget c
                        = (client p, Owner (config p), Repo (config p)))
              calls
    /\ length (snd (fst (serve r (Some p) reqs h))) = length reqs.
Proof.
  revert h. induction reqs as [|req reqs IH]; intros h.
  - exists []. simpl. rewrite app_nil_r. repeat split; constructor.
  - rewrite ticket_serve_cons_ready. cbn zeta.
    destruct (ticket_dispatch_own_calls r p req h)
      as (c1 & Hc1 & Hl1 & Hf1).
    rewrite Hc1. destruct (IH (h ++ c1)%list) as (c2 & Hc2 & Hl2 & Hf2 & Hn).
    destruct (serve r (Some p) reqs (h ++ c1)%list) as [[st out] h2].
    cbn [fst snd] in *. subst h2. exists (c1 ++ c2)%list.
    rewrite app_assoc, length_app. repeat split.
    + simpl. lia.
    + now apply Forall_app.
    + simpl. congruence.
Qed.

(** The run of three requests used above: the second builds the adapter,
    and the third, which carries another owner, is served for the owner
    of the second. *)
Example ticket_loop_calls_bound_run :
  snd (serve (Samples.ticketRemote []) None
             [Samples.unknownMethodRequest; Samples.getRequest;
              Samples.otherOwnerRequest] [])
  = [IssuesGet (NewTokenClient "t0ken") "acme" "widgets" 7;
     IssuesGet (NewTokenClient "t0ken") "acme" "widgets" 7].
Proof. reflexivity. Qed.

End TicketLoop.

Section DecodeErrors.
Context {U : GoStrings.Unicode}.

(** X8.  A decode error ends the ticket and deployment loops: the
    requests decoded before it are served, the error is written unless it
    is the end of input, and nothing that follows is answered or causes a
    call. *)
Theorem decode_error_ends_loop :
  (forall r provider reqs text rest h,
      TicketPlugin.loop
        r provider (map Request_ reqs ++ DecodeError text :: rest)%list h
      = let served := TicketPlugin.serve r provider reqs h in
        ((snd (fst served)
            ++ Obs2.lastWords
                 (fun e => TicketPlugin.writeErr (FromJSON e)) text)%list,
         snd served))
  /\ (forall r provider reqs text rest h,
         DeploymentPlugin.loop
           r provider (map Request_ reqs ++ DecodeError text :: rest)%list h
         = let served := DeploymentPlugin.serve r provider reqs h in
           ((snd (fst served)
               ++ Obs2.lastWords
                    (fun e => DeploymentPlugin.writeErr (FromJSON e))
                    text)%list,
            snd served)).
Proof.
  split; intros r provider reqs text rest h.
  - rewrite ticket_loop_serve. cbn zeta.
    destruct (TicketPlugin.serve r provider reqs h) as [[st out] h1].
    cbn [fst snd TicketPlugin.loop]. unfold Obs2.lastWords.
    now destruct (text =? "EOF").
  - rewrite deployment_loop_serve. cbn zeta.
    destruct (DeploymentPlugin.serve r provider reqs h) as [[st out] h1].
    cbn [fst snd DeploymentPlugin.loop]. unfold Obs2.lastWords.
    now destruct (text =? "EOF").
Qed.

(** An error that the decoder keeps ends these two loops in the same
    way. *)
Lemma stream_error_ends_loop :
  (forall r provider reqs text rest h,
      TicketPlugin.loop
        r provider (map Request_ reqs ++ StreamError text :: rest)%list h
      = TicketPlugin.loop
          r provider (map Request_ reqs ++ [DecodeError text])%list h)
  /\ (forall r provider reqs text rest h,
         DeploymentPlugin.loop
           r provider (map Request_ reqs ++ StreamError text :: rest)%list h
         = DeploymentPlugin.loop
             r provider (map Request_ reqs ++ [DecodeError text])%list h).
Proof.
  split; intros r provider reqs text rest h.
  - now rewrite !ticket_loop_serve.
  - now rewrite !deployment_loop_serve.
Qed.

Lemma team_loop_requests (errorText : OpsOrchError -> string)
      (r : Team.Remote) (p : Team.Provider)
      (input : list (Decoded TeamPlugin.PluginRequest)) (h : list Team.Call) :
  Forall (fun d => d <> DecodeError "EOF") input ->
  TeamPlugin.loop errorText r p input h
  = TeamPlugin.loop errorText r p (map Request_ (Obs2.requestsOf input)) h.
Proof.
  intros Hin. revert h. induction Hin as [|d input Hd _ IH]; intros h.
  - reflexivity.
  - destruct d as [req|text|text]; cbn [Obs2.requestsOf map TeamPlugin.loop].
    + unfold bind.
      destruct (TeamPlugin.handleRequest errorText r p req h) as [resp h1].
      now rewrite IH.
    + destruct (String.eqb_spec text "EOF") as [->|_]; [contradiction|].
      apply IH.
    + reflexivity.
Qed.

Lemma team_loop_stream_error (errorText : OpsOrchError -> string)
      (r : Team.Remote) (p : Team.Provider)
      (reqs : list TeamPlugin.PluginRequest) (text : string)
      (rest : list (Decoded TeamPlugin.PluginRequest)) (h : list Team.Call) :
  TeamPlugin.loop errorText r p
                  (map Request_ reqs ++ StreamError text :: rest)%list h
  = TeamPlugin.loop errorText r p (map Request_ reqs) h.
Proof.
  revert h. induction reqs as [|req reqs IH]; intros h; [reflexivity|].
  cbn [map app TeamPlugin.loop]. unfold bind.
  destruct (TeamPlugin.handleRequest errorText r p req h) as [resp h1].
  now rewrite IH.
Qed.

Lemma team_loop_length (errorText : OpsOrchError -> string)
      (r : Team.Remote) (p : Team.Provider)
      (reqs : list TeamPlugin.PluginRequest) (h : list Team.Call) :
  length (fst (TeamPlugin.loop errorText r p (map Request_ reqs) h))
  = length reqs.
Proof.
  revert h. induction reqs as [|req reqs IH]; intros h; [reflexivity|].
  cbn [map TeamPlugin.loop]. unfold bind, ret.
  destruct (TeamPlugin.handleRequest errorText r p req h) as [resp h1].
  specialize (IH h1).
  destruct (TeamPlugin.loop errorText r p (map Request_ reqs) h1).
  simpl in *. now rewrite IH.
Qed.

Lemma team_loop_spins (reqs : list TeamPlugin.PluginRequest) (text : string)
      (rest : list (Decoded TeamPlugin.PluginRequest)) :
  TeamPlugin.leaves (map Request_ reqs ++ StreamError text :: rest)%list
  = (text =? "EOF").
Proof. induction reqs as [|req reqs IH]; [reflexivity | exact IH]. Qed.

(** X9.  The team loop goes on after a decode error that the JSON decoder
    does not keep: as long as no decode error reads "EOF", it answers the
    requests decoded before the first error the decoder keeps as if
    nothing else had been in the input, with exactly one response for each
    of them.  After an error the decoder keeps (text that is not JSON, a
    failed read), nothing is answered any more, whatever follows, and
    [main] does not return. *)
Theorem team_loop_skips_decode_errors
        (errorText : OpsOrchError -> string) (r : Team.Remote)
        (p : Team.Provider)
        (input : list (Decoded TeamPlugin.PluginRequest))
        (h : list Team.Call) :
  Forall (fun d => d <> DecodeError "EOF") input ->
  TeamPlugin.loop errorText r p input h
  = TeamPlugin.loop errorText r p (map Request_ (Obs2.requestsOf input)) h
  /\ length (fst (TeamPlugin.loop errorText r p input h))
     = length (Obs2.requestsOf input)
  /\ (forall reqs text rest,
         input = (map Request_ reqs ++ StreamError text :: rest)%list ->
         TeamPlugin.loop errorText r p input h
         = TeamPlugin.loop errorText r p (map Request_ reqs) h
         /\ length (fst (TeamPlugin.loop errorText r p input h))
            = length reqs
         /\ (forall cfg,
                Team.New cfg = Ok p -> text <> "EOF" ->
                TeamPlugin.main errorText r (TeamPlugin.EnvObject cfg) input h
                = (TeamPlugin.Spinning
                     (fst (TeamPlugin.loop errorText r p
                                           (map Request_ reqs) h)),
                   snd (TeamPlugin.loop errorText r p
                                        (map Request_ reqs) h)))).
Proof.
  intros Hin. split; [now apply team_loop_requests|]. split.
  - rewrite team_loop_requests by assumption. apply team_loop_length.
  - intros reqs text rest ->. rewrite team_loop_stream_error.
    split; [reflexivity|]. split; [apply team_loop_length|].
    intros cfg Hcfg Htext. unfold TeamPlugin.main. rewrite Hcfg.
    unfold bind, ret. rewrite team_loop_stream_error, team_loop_spins.
    destruct (String.eqb_spec text "EOF") as [|_]; [contradiction|].
    now destruct (TeamPlugin.loop errorText r p (map Request_ reqs) h).
Qed.

End DecodeErrors.

(** ** The deployment adapter *)

Section DeploymentAdapter.
Import GoStrings Deployment.
Context {U : GoStrings.Unicode}.

Lemma append_assoc (a b c : string) : (a +:+ b) +:+ c = a +:+ b +:+ c.
Proof.
  induction a as [|x a IH]; [reflexivity|].
  change (String x ((a +:+ b) +:+ c) = String x (a +:+ b +:+ c)).
  now rewrite IH.
Qed.

(** A text that contains a word contains every prefix of the word. *)
Lemma Contains_prefix (s a b : string) :
  Contains s (a +:+ b) = true -> Contains s a = true.
Proof.
  rewrite !Contains_spec. unfold Spec.Substring.
  intros (x & y & ->). exists x, (b +:+ y). f_equal. apply append_assoc.
Qed.

(** The normalizer gives one of its five statuses, or the status it
    received when that is none of queued, in_progress, completed. *)
Lemma deployment_normalizeStatus_cases (status conclusion : string) :
  In (normalizeStatus status conclusion) Obs3.canonicalStatuses
  \/ (normalizeStatus status conclusion = status
      /\ ~ In (ToLower status) ["queued"; "in_progress"; "completed"]).
Proof.
  unfold normalizeStatus, Obs3.canonicalStatuses.
  destruct (String.eqb_spec (ToLower status) "queued"); [simpl; auto|].
  destruct (String.eqb_spec (ToLower status) "in_progress"); [simpl; auto|].
  destruct (String.eqb_spec (ToLower status) "completed").
  - left.
    repeat match goal with
      | |- context [String.eqb ?a ?b] => destruct (String.eqb a b)
      end; simpl; auto 10.
  - right. split; [reflexivity|]. simpl. intuition congruence.
Qed.

Lemma normalizeStatus_never_raw (status conclusion : string) :
  ~ Spec.OneOf ["in_progress"; "completed"]
               (normalizeStatus status conclusion).
Proof.
  intros H. apply OneOf_lowers in H; [|repeat constructor].
  destruct (deployment_normalizeStatus_cases status conclusion)
    as [Hc|[Hraw Hno]].
  - unfold Obs3.canonicalStatuses in Hc. simpl in Hc.
    destruct Hc as [E|[E|[E|[E|[E|[]]]]]]; rewrite <- E in H;
      vm_compute in H; intuition discriminate.
  - rewrite Hraw in H. simpl in *. intuition.
Qed.

(** X10.  The deployment status normalizer is idempotent in its status:
    normalising its own result again, with any conclusion, changes
    nothing; and its result is never in_progress or completed, in any
    letter case. *)
Theorem deployment_normalizeStatus_stable
        (status conclusion conclusion' : string) :
  normalizeStatus (normalizeStatus status conclusion) conclusion'
  = normalizeStatus status conclusion
  /\ ~ Spec.OneOf ["in_progress"; "completed"]
                  (normalizeStatus status conclusion).
Proof.
  split; [|apply normalizeStatus_never_raw].
  destruct (deployment_normalizeStatus_cases status conclusion)
    as [Hc|[Hraw Hno]].
  - unfold Obs3.canonicalStatuses in Hc. simpl in Hc.
    destruct Hc as [<-|[<-|[<-|[<-|[<-|[]]]]]]; reflexivity.
  - rewrite Hraw. unfold normalizeStatus. simpl in Hno.
    repeat match goal with
      | |- context [String.eqb ?a ?b] =>
          destruct (String.eqb_spec a b); [exfalso; intuition congruence|]
      end; reflexivity.
Qed.

(** The scan finds a pattern of the list, contained in the text, and no
    earlier pattern is. *)
Lemma scanPatterns_found (text : string) (l : list string) (p : string) :
  scanPatterns text l = Some p ->
  exists earlier later,
    l = (earlier ++ p :: later)%list
    /\ Contains text p = true
    /\ Forall (fun q => Contains text q = false) earlier.
Proof.
  induction l as [|q l IH]; simpl; [discriminate|].
  destruct (Contains text q) eqn:Hq.
  - intros [= ->]. exists [], l. repeat split; [assumption|constructor].
  - intros H. destruct (IH H) as (e & t & -> & Hp & He).
    exists (q :: e), t. repeat split; [assumption|]. now constructor.
Qed.

(** Of the eight patterns the scan can give five: production,
    development and testing each come after a pattern they contain. *)
Lemma scanPatterns_range (text p : string) :
  scanPatterns text envPatterns = Some p ->
  In p ["prod"; "staging"; "stage"; "dev"; "test"].
Proof.
  unfold envPatterns. simpl.
  destruct (Contains text "prod") eqn:Hprod; [intros [= <-]; simpl; auto|].
  destruct (Contains text "production") eqn:Hproduction.
  { apply (Contains_prefix text "prod" "uction") in Hproduction. congruence. }
  destruct (Contains text "staging"); [intros [= <-]; simpl; auto|].
  destruct (Contains text "stage"); [intros [= <-]; simpl; auto|].
  destruct (Contains text "dev") eqn:Hdev; [intros [= <-]; simpl; auto|].
  destruct (Contains text "development") eqn:Hdevelopment.
  { apply (Contains_prefix text "dev" "elopment") in Hdevelopment.
    congruence. }
  destruct (Contains text "test") eqn:Htest; [intros [= <-]; simpl; auto 6|].
  destruct (Contains text "testing") eqn:Htesting; [|discriminate].
  apply (Contains_prefix text "test" "ing") in Htesting. congruence.
Qed.

Lemma extractEnvironment_in (name branch : string) :
  In (extractEnvironment name branch) Obs3.environments.
Proof.
  unfold extractEnvironment, Obs3.environments.
  destruct (scanPatterns (ToLower name) envPatterns) as [p|] eqn:Hn.
  { apply scanPatterns_range in Hn. simpl in *. intuition. }
  destruct (scanPatterns (ToLower branch) envPatterns) as [p|] eqn:Hb.
  { apply scanPatterns_range in Hb. simpl in *. intuition. }
  destruct ((ToLower branch =? "main") || (ToLower branch =? "master"));
    [simpl; auto|].
  destruct ((ToLower branch =? "develop") || (ToLower branch =? "dev"));
    simpl; auto 10.
Qed.

(** In a text of ASCII bytes, the patterns and the branch names are looked
    for up to letter case. *)
Lemma inference_ascii (text : string) :
  isASCII text = true ->
  (Spec.NoPattern Spec.LowerSubstring Spec.patterns text
   <-> Spec.NoPattern Spec.FoldSubstring Spec.patterns text)
  /\ (Spec.LowersInto ["main"; "master"] text
      <-> Spec.OneOf ["main"; "master"] text).
Proof.
  intros Ha. destruct (patterns_agree text Ha) as [H1 H2]. split.
  - split; [now apply NoPattern_agree | now apply NoPattern_agree].
  - apply LowersInto_ascii; [assumption | repeat constructor].
Qed.

(** X11.  Environment inference gives one of seven values and never
    "testing".  It gives "production" only when neither the lowered name
    nor the lowered branch contains a pattern and the branch is lowered to
    main or master, and "development" only when neither contains a
    pattern; lowering is that of [strings.ToLower].  In a text of ASCII
    bytes, a pattern is in the lowered text when it is a substring of the
    text up to letter case, and a text is lowered to main or master when
    it is one of them up to letter case. *)
Theorem extractEnvironment_range (name branch : string) :
  In (extractEnvironment name branch) Obs3.environments
  /\ extractEnvironment name branch <> "testing"
  /\ (extractEnvironment name branch = "production" ->
      Spec.NoPattern Spec.LowerSubstring Spec.patterns name
      /\ Spec.NoPattern Spec.LowerSubstring Spec.patterns branch
      /\ Spec.LowersInto ["main"; "master"] branch)
  /\ (extractEnvironment name branch = "development" ->
      Spec.NoPattern Spec.LowerSubstring Spec.patterns name
      /\ Spec.NoPattern Spec.LowerSubstring Spec.patterns branch)
  /\ (forall text,
         isASCII text = true ->
         (Spec.NoPattern Spec.LowerSubstring Spec.patterns text
          <-> Spec.NoPattern Spec.FoldSubstring Spec.patterns text)
         /\ (Spec.LowersInto ["main"; "master"] text
             <-> Spec.OneOf ["main"; "master"] text)).
Proof.
  apply and_tail4; [exact inference_ascii|].
  unfold extractEnvironment, Obs3.environments.
  destruct (scanPatterns (ToLower name) envPatterns) as [p|] eqn:Hn.
  { apply scanPatterns_range in Hn. simpl in Hn.
    destruct Hn as [<-|[<-|[<-|[<-|[<-|[]]]]]];
      (split; [simpl; auto 10|]); (split; [discriminate|]);
      split; discriminate. }
  rewrite envPatterns_spec in Hn. apply scanPatterns_None in Hn.
  destruct (scanPatterns (ToLower branch) envPatterns) as [p|] eqn:Hb.
  { apply scanPatterns_range in Hb. simpl in Hb.
    destruct Hb as [<-|[<-|[<-|[<-|[<-|[]]]]]];
      (split; [simpl; auto 10|]); (split; [discriminate|]);
      split; discriminate. }
  rewrite envPatterns_spec in Hb. apply scanPatterns_None in Hb.
  destruct (String.eqb_spec (ToLower branch) "main") as [Hm|Hm]; simpl.
  { repeat split; auto; try discriminate.
    unfold Spec.LowersInto. rewrite Hm. simpl. auto. }
  destruct (String.eqb_spec (ToLower branch) "master") as [Hm'|Hm']; simpl.
  { repeat split; auto; try discriminate.
    unfold Spec.LowersInto. rewrite Hm'. simpl. auto. }
  destruct ((ToLower branch =? "develop") || (ToLower branch =? "dev"));
    repeat split; auto 10; discriminate.
Qed.

(** X12.  The version of a deployment is the first seven bytes of the
    head commit's hash, and is empty when the hash has fewer than seven
    bytes. *)
Theorem version_is_short_hash (p : Provider) (run : WorkflowRun) :
  let version := d_Version (convertWorkflowRunToDeployment p run) in
  ((7 <= String.length (run_HeadSHA run))%nat ->
   String.length version = 7%nat
   /\ exists rest, run_HeadSHA run = version +:+ rest)
  /\ ((String.length (run_HeadSHA run) < 7)%nat -> version = "").
Proof.
  unfold convertWorkflowRunToDeployment. cbn [d_Version].
  generalize (run_HeadSHA run). intros sha. split.
  - intros Hlen.
    destruct sha as [|c0 [|c1 [|c2 [|c3 [|c4 [|c5 [|c6 rest]]]]]]];
      simpl in Hlen; try lia.
    simpl. split; [reflexivity|]. now exists rest.
  - intros Hlen.
    destruct (negb (sha =? "") && (7 <=? String.length sha)%nat) eqn:E;
      [|reflexivity].
    apply andb_true_iff in E as [_ E]. apply Nat.leb_le in E. lia.
Qed.

Lemma existsb_EqualFold (statuses : list string) (status : string) :
  existsb (fun s => EqualFold status s) statuses = true
  <-> Exists (Spec.FoldsTo status) statuses.
Proof.
  rewrite existsb_exists, Exists_exists. unfold Spec.FoldsTo. split.
  - intros (s & Hin & Hs). exists s.
    split; [now apply list_elem_of_In | assumption].
  - intros (s & Hin & Hs). exists s.
    split; [now apply list_elem_of_In | assumption].
Qed.

(** The last two filters of the result loop. *)
Lemma scope_filters (conv : DeploymentT) (q : DeploymentQuery)
      (d : DeploymentT) :
  (if negb (scope_Service (q_Scope q) =? "")
      && negb (d_Service conv =? scope_Service (q_Scope q))
   then None
   else if negb (scope_Environment (q_Scope q) =? "")
           && negb (d_Environment conv =? scope_Environment (q_Scope q))
   then None
   else Some conv) = Some d
  <-> d = conv
      /\ (scope_Service (q_Scope q) = ""
          \/ d_Service conv = scope_Service (q_Scope q))
      /\ (scope_Environment (q_Scope q) = ""
          \/ d_Environment conv = scope_Environment (q_Scope q)).
Proof.
  destruct (String.eqb_spec (scope_Service (q_Scope q)) "") as [Hs0|Hs0];
    destruct (String.eqb_spec (d_Service conv) (scope_Service (q_Scope q)))
      as [Hs1|Hs1];
    destruct (String.eqb_spec (scope_Environment (q_Scope q)) "")
      as [He0|He0];
    destruct (String.eqb_spec (d_Environment conv)
                              (scope_Environment (q_Scope q))) as [He1|He1];
    cbn [negb andb]; split;
    try (intros [= <-]; split; [reflexivity|]; split; auto);
    try discriminate;
    intros (-> & Hsv & Hen); try reflexivity;
    exfalso; intuition congruence.
Qed.

(** A run is kept exactly when its conversion passes the filters. *)
Lemma keepRun_spec (p : Provider) (q : DeploymentQuery) (run : WorkflowRun)
      (d : DeploymentT) :
  keepRun p q run = Some d
  <-> d = convertWorkflowRunToDeployment p run /\ Obs3.Matches q d.
Proof.
  unfold keepRun, Obs3.Matches.
  destruct (q_Statuses q) as [|s0 l] eqn:Eq.
  - cbn [negb]. rewrite scope_filters. split.
    + intros (-> & Hsv & Hen). repeat split; auto.
    + intros (-> & _ & Hsv & Hen). repeat split; auto.
  - cbv zeta.
    pose proof (existsb_EqualFold
                  (s0 :: l)
                  (normalizeStatus (run_Status run) (run_Conclusion run)))
      as Hst.
    destruct (existsb _ (s0 :: l)).
    + cbn [negb]. rewrite scope_filters. split.
      * intros (-> & Hsv & Hen). repeat split; auto. right. now apply Hst.
      * intros (-> & _ & Hsv & Hen). repeat split; auto.
    + cbn [negb]. split; [discriminate|].
      intros (-> & [Hs|Hs] & _); [discriminate|].
      apply Hst in Hs. discriminate.
Qed.

Lemma collectDeployments_spec (p : Provider) (q : DeploymentQuery)
      (runs : list WorkflowRun) :
  Forall (Obs3.Matches q) (collectDeployments p q runs)
  /\ sublist (collectDeployments p q runs)
             (map (convertWorkflowRunToDeployment p) runs)
  /\ (forall run,
         In run runs ->
         Obs3.Matches q (convertWorkflowRunToDeployment p run) ->
         In (convertWorkflowRunToDeployment p run)
            (collectDeployments p q runs)).
Proof.
  induction runs as [|run runs (IHf & IHs & IHc)]; simpl.
  - repeat split; [constructor | constructor | intros ? []].
  - destruct (keepRun p q run) as [d|] eqn:E.
    + apply keepRun_spec in E as [-> Hd]. repeat split.
      * now constructor.
      * now apply sublist_skip.
      * intros run' [<-|Hin] Hm; [now left | right; now apply IHc].
    + repeat split.
      * assumption.
      * now apply sublist_cons.
      * intros run' [<-|Hin] Hm; [|now apply IHc].
        assert (keepRun p q run
                = Some (convertWorkflowRunToDeployment p run)) as Hk
          by now apply keepRun_spec.
        congruence.
Qed.

(** X13.  The deployments a query returns are exactly the conversions of
    the runs of the upstream page that pass its client-side filters, in
    upstream order: each returned deployment has a status that
    [strings.EqualFold] finds equal to one of the requested statuses when
    any is requested, and the requested service and environment when
    these are not empty; and no run passing them is left out.  On two
    ASCII strings, [strings.EqualFold] is equality up to letter case. *)
Theorem deployment_query_filters
        (r : Remote) (p : Provider) (q : DeploymentQuery) (h : list Call)
        (runs : list WorkflowRun) :
  listRuns r h (client p) (Owner (config p)) (Repo (config p))
           (queryOptions q) = Ok runs ->
  exists result,
    fst (Query r p q h) = Ok result
    /\ Forall (Obs3.Matches q) result
    /\ sublist result (map (convertWorkflowRunToDeployment p) runs)
    /\ (forall run,
           In run runs ->
           Obs3.Matches q (convertWorkflowRunToDeployment p run) ->
           In (convertWorkflowRunToDeployment p run) result)
    /\ (forall s t,
           isASCII s = true -> isASCII t = true ->
           (Spec.FoldsTo s t <-> Spec.SameUpToCase s t)).
Proof.
  intros Hlist. exists (collectDeployments p q runs).
  split; [now rewrite deployment_Query_result, Hlist|].
  destruct (collectDeployments_spec p q runs) as (Hf & Hs & Hc).
  repeat split; try assumption; now apply FoldsTo_ascii.
Qed.

Lemma collectDeployments_converted (p : Provider) (q : DeploymentQuery)
      (runs : list WorkflowRun) (d : DeploymentT) :
  In d (collectDeployments p q runs) ->
  Obs3.Matches q d
  /\ exists run, In run runs /\ d = convertWorkflowRunToDeployment p run.
Proof.
  induction runs as [|run runs IH]; simpl; [intros []|].
  assert (Hrest : In d (collectDeployments p q runs) ->
                  Obs3.Matches q d
                  /\ exists run0, (run = run0 \/ In run0 runs)
                                  /\ d = convertWorkflowRunToDeployment p run0).
  { intros Hin. destruct (IH Hin) as (Hm & run0 & Hin0 & ->).
    split; [assumption|]. exists run0. auto. }
  destruct (keepRun p q run) as [d'|] eqn:E; [|exact Hrest].
  intros [<-|Hin]; [|now apply Hrest].
  apply keepRun_spec in E as [-> Hd]. split; [assumption|].
  exists run. auto.
Qed.

(** The normalizer gives ASCII text for a status of ASCII bytes. *)
Lemma normalizeStatus_isASCII (status conclusion : string) :
  isASCII status = true ->
  isASCII (normalizeStatus status conclusion) = true.
Proof.
  intros Ha.
  destruct (deployment_normalizeStatus_cases status conclusion)
    as [Hc|[Hraw _]].
  - unfold Obs3.canonicalStatuses in Hc. simpl in Hc.
    destruct Hc as [<-|[<-|[<-|[<-|[<-|[]]]]]]; reflexivity.
  - now rewrite Hraw.
Qed.

(** X14.  Some deployment queries can match nothing: a query scoped to a
    service other than the configured repository and a query scoped to an
    environment that inference never gives, whatever the upstream page
    holds; and a query all of whose statuses are in_progress or completed
    up to letter case, which the normalizer never gives, on a page whose
    runs have statuses of ASCII bytes. *)
Theorem deployment_query_matches_nothing
        (r : Remote) (p : Provider) (q : DeploymentQuery) (h : list Call)
        (runs : list WorkflowRun) :
  listRuns r h (client p) (Owner (config p)) (Repo (config p))
           (queryOptions q) = Ok runs ->
  (scope_Service (q_Scope q) <> ""
   /\ scope_Service (q_Scope q) <> Repo (config p))
  \/ (scope_Environment (q_Scope q) <> ""
      /\ ~ In (scope_Environment (q_Scope q)) Obs3.environments)
  \/ (q_Statuses q <> []
      /\ Forall (Spec.OneOf ["in_progress"; "completed"]) (q_Statuses q)
      /\ Forall (fun run => isASCII (run_Status run) = true) runs) ->
  fst (Query r p q h) = Ok [].
Proof.
  intros Hlist Hq. rewrite deployment_Query_result, Hlist. f_equal.
  destruct (collectDeployments p q runs) as [|d rest] eqn:E; [reflexivity|].
  exfalso.
  destruct (collectDeployments_converted p q runs d)
    as (Hm & run & Hrun & ->); [rewrite E; now left|].
  destruct Hm as (Hst & Hsv & Hen).
  destruct Hq as [[Hne Hrepo]|[[Hne Henv]|(Hne & Hall & Hascii)]].
  - destruct Hsv as [Hsv|Hsv]; [contradiction|]. simpl in Hsv. congruence.
  - destruct Hen as [Hen|Hen]; [contradiction|]. simpl in Hen.
    apply Henv. rewrite <- Hen. apply extractEnvironment_in.
  - destruct Hst as [Hst|Hst]; [contradiction|].
    rewrite Exists_exists in Hst. destruct Hst as (s & Hin & Hs).
    rewrite Forall_forall in Hall. apply Hall in Hin.
    rewrite Forall_forall in Hascii. apply list_elem_of_In in Hrun.
    apply Hascii in Hrun.
    apply (normalizeStatus_never_raw (run_Status run) (run_Conclusion run)).
    simpl in Hs. unfold Spec.OneOf in *. rewrite Exists_exists in *.
    destruct Hin as (w & Hw & Hsw). exists w. split; [assumption|].
    apply FoldsTo_ascii in Hs.
    + apply SameUpToCase_iff. apply SameUpToCase_iff in Hs, Hsw. congruence.
    + now apply normalizeStatus_isASCII.
    + rewrite (SameUpToCase_isASCII _ _ Hsw).
      apply list_elem_of_In in Hw. simpl in Hw.
      destruct Hw as [<-|[<-|[]]]; reflexivity.
Qed.

End DeploymentAdapter.

Section DeploymentStatusFilter.
Import GoStrings Deployment.
Context {U : GoStrings.Unicode}.

Lemma pushStatus_values (acc status : string) :
  In (pushStatus acc status) ["queued"; "in_progress"; "completed"]
  \/ pushStatus acc status = acc.
Proof.
  unfold pushStatus.
  repeat match goal with
    | |- context [String.eqb ?a ?b] => destruct (String.eqb a b)
    end; simpl; auto 6.
Qed.

Lemma pushStatus_queued (acc status : string) :
  Spec.LowersTo status "queued" -> pushStatus acc status = "queued".
Proof. unfold Spec.LowersTo. intros H. unfold pushStatus. now rewrite H. Qed.

Lemma pushStatus_running (acc status : string) :
  Spec.LowersInto Obs3.runningGroup status -> pushStatus acc status = "in_progress".
Proof.
  unfold Obs3.runningGroup. unfold Spec.LowersInto.
  unfold pushStatus. simpl. intros [ <- | [ <- | [] ] ]; reflexivity.
Qed.

Lemma pushStatus_completed (acc status : string) :
  Spec.LowersInto Obs3.completedGroup status -> pushStatus acc status = "completed".
Proof.
  unfold Obs3.completedGroup. unfold Spec.LowersInto.
  unfold pushStatus. simpl.
  intros [ <- | [ <- | [ <- | [ <- | [] ] ] ] ]; reflexivity.
Qed.

Lemma pushStatus_other (acc status : string) :
  ~ Spec.LowersInto Obs3.pushedStatuses status -> pushStatus acc status = acc.
Proof.
  unfold Obs3.pushedStatuses. unfold Spec.LowersInto.
  unfold pushStatus. simpl. intros H.
  repeat match goal with
    | |- context [String.eqb ?a ?b] => destruct (String.eqb_spec a b)
    end; simpl; try reflexivity; exfalso; intuition congruence.
Qed.

Lemma pushStatus_fold_other (acc : string) (statuses : list string) :
  Forall (fun s => ~ Spec.LowersInto Obs3.pushedStatuses s) statuses ->
  fold_left pushStatus statuses acc = acc.
Proof.
  intros H. revert acc. induction H as [|s l Hs _ IH]; intros acc; simpl.
  - reflexivity.
  - now rewrite (pushStatus_other _ _ Hs).
Qed.

Lemma pushStatus_recognised (acc status : string) :
  Spec.LowersInto Obs3.pushedStatuses status ->
  In (pushStatus acc status) ["queued"; "in_progress"; "completed"].
Proof.
  unfold Obs3.pushedStatuses. unfold Spec.LowersInto.
  unfold pushStatus. simpl.
  intros [ <- | [ <- | [ <- | [ <- | [ <- | [ <- | [ <- | [] ] ] ] ] ] ] ];
    simpl; auto.
Qed.

(** For a status of ASCII bytes, being lowered to a recognised word is
    being that word up to letter case. *)
Lemma pushed_statuses_ascii (status : string) :
  isASCII status = true ->
  (Spec.LowersTo status "queued" <-> Spec.SameUpToCase status "queued")
  /\ (Spec.LowersInto Obs3.runningGroup status
      <-> Spec.OneOf Obs3.runningGroup status)
  /\ (Spec.LowersInto Obs3.completedGroup status
      <-> Spec.OneOf Obs3.completedGroup status)
  /\ (Spec.LowersInto Obs3.pushedStatuses status
      <-> Spec.OneOf Obs3.pushedStatuses status).
Proof.
  intros Ha. split; [now apply LowersTo_ascii|].
  split; [|split]; apply LowersInto_ascii; first [assumption | repeat constructor].
Qed.

(** X15.  When a deployment query lists several statuses, the status
    filter sent upstream is decided by the last one that
    [strings.ToLower] lowers to a recognised word: queued for queued,
    in_progress for running or in_progress, and completed for success,
    completed, failed or cancelled alike.  It is empty exactly when no
    listed status is recognised, and is never any other value.  For a
    status of ASCII bytes, lowered to a word means equal to it up to
    letter case. *)
Theorem deployment_status_pushed (q : DeploymentQuery) :
  (forall before status after,
      q_Statuses q = (before ++ status :: after)%list ->
      Forall (fun s => ~ Spec.LowersInto Obs3.pushedStatuses s) after ->
      (Spec.LowersTo status "queued" ->
       opt_Status (queryOptions q) = "queued")
      /\ (Spec.LowersInto Obs3.runningGroup status ->
          opt_Status (queryOptions q) = "in_progress")
      /\ (Spec.LowersInto Obs3.completedGroup status ->
          opt_Status (queryOptions q) = "completed"))
  /\ (opt_Status (queryOptions q) = ""
      <-> Forall (fun s => ~ Spec.LowersInto Obs3.pushedStatuses s)
                 (q_Statuses q))
  /\ In (opt_Status (queryOptions q))
        [""; "queued"; "in_progress"; "completed"]
  /\ (forall status,
         isASCII status = true ->
         (Spec.LowersTo status "queued"
          <-> Spec.SameUpToCase status "queued")
         /\ (Spec.LowersInto Obs3.runningGroup status
             <-> Spec.OneOf Obs3.runningGroup status)
         /\ (Spec.LowersInto Obs3.completedGroup status
             <-> Spec.OneOf Obs3.completedGroup status)
         /\ (Spec.LowersInto Obs3.pushedStatuses status
             <-> Spec.OneOf Obs3.pushedStatuses status)).
Proof.
  apply and_tail3; [exact pushed_statuses_ascii|].
  unfold queryOptions; cbn [opt_Status]. split; [|split].
  - intros before status after -> Hafter.
    rewrite fold_left_app. simpl. rewrite (pushStatus_fold_other _ _ Hafter).
    split; [|split]; intros Hs;
      [now apply pushStatus_queued | now apply pushStatus_running
      | now apply pushStatus_completed].
  - split.
    + generalize (q_Statuses q). intros l.
      induction l as [|s l IH] using rev_ind; [constructor|].
      rewrite fold_left_app. simpl. intros H.
      destruct (LowersInto_dec Obs3.pushedStatuses s) as [Hs|Hs].
      * apply (pushStatus_recognised (fold_left pushStatus l "")) in Hs.
        rewrite H in Hs. simpl in Hs. intuition discriminate.
      * rewrite (pushStatus_other _ _ Hs) in H.
        apply Forall_app. split; [now apply IH | now constructor].
    + apply pushStatus_fold_other.
  - generalize (q_Statuses q). intros l.
    induction l as [|s l IH] using rev_ind; [simpl; auto|].
    rewrite fold_left_app. simpl.
    destruct (pushStatus_values (fold_left pushStatus l "") s) as [H|H].
    + simpl in *. intuition.
    + now rewrite H.
Qed.

(** A query for failed and queued runs asks upstream for queued runs
    only. *)
Example deployment_status_pushed_run :
  opt_Status (queryOptions
                (mkQuery ["failed"; "Queued"] (mkScope "" "" "") 0 ∅))
  = "queued".
Proof. reflexivity. Qed.

End DeploymentStatusFilter.

(** ** The team adapter *)

Section TeamAdapter.
Import GoStrings GoStrconv Team.
Context {U : GoStrings.Unicode}.

Lemma team_Get_by_slug (r : Remote) (p : Provider) (id : string)
      (h : list Call) :
  ParseInt id = None ->
  snd (Get r p id h)
  = (h ++ [GetTeamBySlug (client p) (Organization (config p)) id])%list.
Proof.
  intros Hn. unfold Get. rewrite Hn. unfold bind, perform, ret.
  now destruct (getTeamBySlug _ _ _ _ _).
Qed.

Lemma team_Get_by_number (r : Remote) (p : Provider) (id : string)
      (teamID orgID : Z) (h : list Call) :
  ParseInt id = Some teamID ->
  getOrganization r h (client p) (Organization (config p)) = Ok orgID ->
  snd (Get r p id h)
  = (h ++ [OrganizationsGet (client p) (Organization (config p));
           GetTeamByID (client p) orgID teamID])%list.
Proof.
  intros Hn Horg. unfold Get. rewrite Hn. unfold bind, perform, ret.
  rewrite Horg. destruct (getTeamByID _ _ _ _ _); simpl;
    now rewrite <- app_assoc.
Qed.

(** X16.  [Get] of the team adapter takes its argument for a numeric id
    whenever it parses as a decimal [int64]: it then reads the
    organisation and, if that succeeds, asks for the team by the
    organisation's id and that number, and never looks the argument up as
    a slug.  Any other argument is looked up as a slug, in one call. *)
Theorem team_Get_paths (r : Remote) (p : Provider) (id : string)
        (h : list Call) :
  let org := Organization (config p) in
  match ParseInt id with
  | None =>
      snd (Get r p id h) = (h ++ [GetTeamBySlug (client p) org id])%list
  | Some teamID =>
      match getOrganization r h (client p) org with
      | Ok orgID =>
          snd (Get r p id h)
          = (h ++ [OrganizationsGet (client p) org;
                   GetTeamByID (client p) orgID teamID])%list
      | Err err =>
          Get r p id h
          = (Err (wrapError err),
             (h ++ [OrganizationsGet (client p) org])%list)
      end
  end.
Proof.
  intros org. subst org.
  destruct (ParseInt id) as [teamID|] eqn:En.
  - destruct (getOrganization r h (client p) (Organization (config p)))
      as [orgID|err] eqn:Eo.
    + now apply team_Get_by_number.
    + unfold Get. rewrite En. unfold bind, perform, ret. now rewrite Eo.
  - now apply team_Get_by_slug.
Qed.

(** X17.  The id of a converted team leads [Get] back to that team when
    the team has a slug that is not a number (one lookup by that slug) or
    has no slug (a lookup by its numeric id); a team whose slug reads as
    a number is looked up by that number instead of by its slug. *)
Theorem team_id_round_trip (r : Remote) (p : Provider) (team : GithubTeam)
        (h : list Call) :
  let org := Organization (config p) in
  let id := t_ID (convertTeamToSchema p team) in
  (team_Slug team <> "" -> ParseInt (team_Slug team) = None ->
   snd (Get r p id h)
   = (h ++ [GetTeamBySlug (client p) org (team_Slug team)])%list)
  /\ (forall orgID,
         team_Slug team = "" -> Obs.InInt64 (team_ID team) ->
         getOrganization r h (client p) org = Ok orgID ->
         snd (Get r p id h)
         = (h ++ [OrganizationsGet (client p) org;
                  GetTeamByID (client p) orgID (team_ID team)])%list)
  /\ (forall orgID n,
         ParseInt (team_Slug team) = Some n ->
         getOrganization r h (client p) org = Ok orgID ->
         snd (Get r p id h)
         = (h ++ [OrganizationsGet (client p) org;
                  GetTeamByID (client p) orgID n])%list).
Proof.
  intros org id. subst org id. cbn [t_ID convertTeamToSchema].
  unfold slugOrID. split; [|split].
  - intros Hne Hnum.
    destruct (String.eqb_spec (team_Slug team) ""); [contradiction|].
    cbn [negb]. now apply team_Get_by_slug.
  - intros orgID Hs Hr Horg. rewrite Hs. cbn [String.eqb negb].
    apply team_Get_by_number; [|assumption]. now apply ParseInt_FormatInt.
  - intros orgID n Hn Horg.
    destruct (String.eqb_spec (team_Slug team) "") as [Hs|Hs].
    { rewrite Hs in Hn. discriminate. }
    cbn [negb]. now apply team_Get_by_number.
Qed.

(** A team whose slug is "2024": its id reads as a number, so [Get] asks
    for team number 2024 and not for team 9. *)
Example team_id_round_trip_numeric_slug :
  let team :=
    {| team_ID := 9; team_Slug := "2024"; team_Name := "Class of 2024";
       team_Description := ""; team_Privacy := ""; team_Permission := "";
       team_HTMLURL := ""; team_MembersURL := ""; team_RepositoriesURL := "";
       team_MembersCount := 0; team_ReposCount := 0; team_Parent := None |} in
  snd (Get Samples.teamRemote Samples.teamProvider
           (t_ID (convertTeamToSchema Samples.teamProvider team)) [])
  = [OrganizationsGet (NewTokenClient "t0ken") "acme";
     GetTeamByID (NewTokenClient "t0ken") 100 2024].
Proof. reflexivity. Qed.

End TeamAdapter.

Section TeamQuery.
Import GoStrings Team.
Context {U : GoStrings.Unicode}.

Lemma SameUpToCase_lowered_r (w p : string) :
  Spec.SameUpToCase w (lowerASCII p) <-> Spec.SameUpToCase w p.
Proof. now rewrite !SameUpToCase_iff, lowerASCII_idem. Qed.

(** On ASCII strings, the name test of the team query is a
    case-insensitive substring test. *)
Lemma LowerSubstring_fold (name text : string) :
  isASCII name = true -> isASCII text = true ->
  Spec.LowerSubstring (ToLower name) text <-> Spec.FoldSubstring name text.
Proof.
  intros Hn Ht. rewrite (ToLower_ascii name Hn).
  rewrite (LowerSubstring_ascii _ _ Ht (lowerASCII_idem name)).
  unfold Spec.FoldSubstring. split; intros (w & Hw & Hs); exists w;
    (split; [assumption|]); now apply SameUpToCase_lowered_r.
Qed.

Lemma tagsMatch_spec (wanted actual : gmap string string) :
  tagsMatch wanted actual = true
  <-> forall key value,
        wanted !! key = Some value -> default "" (actual !! key) = value.
Proof.
  unfold tagsMatch. rewrite forallb_forall. split.
  - intros H key value Hk. apply String.eqb_eq.
    apply (H (key, value)). apply list_elem_of_In.
    now apply elem_of_map_to_list.
  - intros H [key value] Hin. apply String.eqb_eq. simpl. apply H.
    apply elem_of_map_to_list. now apply list_elem_of_In.
Qed.

Lemma keepTeam_spec (q : TeamQuery) (t : TeamT) :
  keepTeam q t = true <-> Obs4.TeamMatches q t.
Proof.
  unfold keepTeam, Obs4.TeamMatches.
  rewrite andb_true_iff, tagsMatch_spec.
  destruct (String.eqb_spec (q_Name q) "") as [Hn|Hn]; cbn [negb andb].
  - split; intros [_ Ht]; auto.
  - destruct (Contains (ToLower (t_Name t)) (ToLower (q_Name q))) eqn:Hc;
      cbn [negb].
    + apply Contains_LowerSubstring in Hc. split; intros [_ Ht]; auto.
    + split; [intros [? _]; discriminate|].
      intros [[Hq|Hq] _]; [contradiction|].
      apply Contains_LowerSubstring in Hq. congruence.
Qed.

Lemma team_Query_result (r : Remote) (p : Provider) (q : TeamQuery)
      (h : list Call) :
  Query r p q h
  = (match listTeams r h (client p) (Organization (config p))
                     (mkListOptions 0 100) with
     | Ok teams =>
         Ok (filter (fun t => keepTeam q t = true)
                    (map (convertTeamToSchema p) teams))
     | Err err => Err (wrapError err)
     end,
     (h ++ [ListTeams (client p) (Organization (config p))
                      (mkListOptions 0 100)])%list).
Proof.
  unfold Query, bind, perform, ret. now destruct (listTeams _ _ _ _ _).
Qed.

(** X18.  A team query makes one call, for the first hundred teams of
    the organisation, and returns, in upstream order, exactly the
    converted teams that pass its filters: the requested name, lowered by
    [strings.ToLower], is a substring of the team's lowered name, and
    every requested tag has the requested value (all of them, not any).
    For two names of ASCII bytes the name test is a substring test up to
    letter case. *)
Theorem team_query_filters
        (r : Remote) (p : Provider) (q : TeamQuery) (h : list Call)
        (teams : list GithubTeam) :
  let org := Organization (config p) in
  listTeams r h (client p) org (mkListOptions 0 100) = Ok teams ->
  exists result,
    Query r p q h
    = (Ok result,
       (h ++ [ListTeams (client p) org (mkListOptions 0 100)])%list)
    /\ sublist result (map (convertTeamToSchema p) teams)
    /\ (forall t,
           In t result
           <-> In t (map (convertTeamToSchema p) teams)
               /\ Obs4.TeamMatches q t)
    /\ (forall name text,
           isASCII name = true -> isASCII text = true ->
           (Spec.LowerSubstring (ToLower name) text
            <-> Spec.FoldSubstring name text)).
Proof.
  intros org Hlist. subst org. rewrite team_Query_result, Hlist.
  eexists. split; [reflexivity|]. split; [apply sublist_filter|]. split.
  - intros t.
    rewrite <- !list_elem_of_In, list_elem_of_filter, keepTeam_spec. tauto.
  - apply LowerSubstring_fold.
Qed.

Lemma converted_team_tags (p : Provider) (team : GithubTeam) :
  t_Tags (convertTeamToSchema p team) !! "organization"
  = Some (Organization (config p))
  /\ t_Tags (convertTeamToSchema p team) !! "provider" = Some "github".
Proof. split; reflexivity. Qed.

(** X19.  Every converted team carries the tags provider, with value
    github, and organization, with the configured organisation; so a team
    query asking for another value of either tag returns nothing, while
    one with no name and no tags returns every converted team. *)
Theorem team_query_by_own_tags
        (r : Remote) (p : Provider) (q : TeamQuery) (h : list Call)
        (teams : list GithubTeam) :
  listTeams r h (client p) (Organization (config p)) (mkListOptions 0 100)
  = Ok teams ->
  (forall value,
      q_Tags q !! "organization" = Some value ->
      value <> Organization (config p) ->
      fst (Query r p q h) = Ok [])
  /\ (forall value,
         q_Tags q !! "provider" = Some value -> value <> "github" ->
         fst (Query r p q h) = Ok [])
  /\ (q_Name q = "" -> q_Tags q = ∅ ->
      fst (Query r p q h) = Ok (map (convertTeamToSchema p) teams)).
Proof.
  intros Hlist. rewrite team_Query_result, Hlist. cbn [fst].
  assert (Hnone : forall key value own,
             (forall team,
                 t_Tags (convertTeamToSchema p team) !! key = Some own) ->
             q_Tags q !! key = Some value -> value <> own ->
             filter (fun t => keepTeam q t = true)
                    (map (convertTeamToSchema p) teams) = []).
  { intros key value own Hown Hq Hne.
    destruct (filter _ _) as [|t rest] eqn:E; [reflexivity|]. exfalso.
    assert (Hin : t ∈ filter (fun t => keepTeam q t = true)
                             (map (convertTeamToSchema p) teams))
      by (rewrite E; left).
    apply list_elem_of_filter in Hin as [Hk Hin].
    apply keepTeam_spec in Hk as [_ Htags].
    apply list_elem_of_In, in_map_iff in Hin as (team & <- & _).
    specialize (Htags key value Hq). rewrite Hown in Htags. simpl in Htags.
    congruence. }
  split; [|split].
  - intros value Hq Hne. f_equal.
    apply (Hnone "organization" value (Organization (config p))); auto;
      intros team; apply converted_team_tags.
  - intros value Hq Hne. f_equal.
    apply (Hnone "provider" value "github"); auto;
      intros team; apply converted_team_tags.
  - intros Hn Ht. f_equal.
    clear Hnone. generalize (map (convertTeamToSchema p) teams). intros l.
    induction l as [|t l IH]; [reflexivity|].
    rewrite filter_cons_True; [now f_equal|].
    apply keepTeam_spec. split; [now left|].
    intros key value Hk. rewrite Ht in Hk. now rewrite lookup_empty in Hk.
Qed.

End TeamQuery.

Section TeamMembersMore.
Import GoStrings Team.
Context {U : GoStrings.Unicode}.

Lemma normalizeRole_values (role : string) :
  normalizeRole role = "owner" \/ normalizeRole role = "member".
Proof.
  unfold normalizeRole.
  destruct (ToLower role =? "maintainer"); [now left|].
  destruct (ToLower role =? "member"); now right.
Qed.

(** X20.  One iteration of the member loop gives the role owner exactly
    when the detailed-user lookup succeeds and the membership lookup
    that follows it answers a role that [strings.ToLower] lowers to
    maintainer; in every other case, a failed or empty membership lookup
    included, the role is member.  A role of ASCII bytes is lowered to
    maintainer when it is maintainer up to letter case. *)
Theorem member_role (r : Remote) (p : Provider) (orgID id : Z)
        (member : User) (h : list Call) :
  let login := user_Login member in
  let entry := fst (memberStep r p orgID id member h) in
  (m_Role entry = "owner"
   <-> exists user role,
         getUser r h (client p) login = Ok user
         /\ getMembership r (h ++ [UsersGet (client p) login])%list
                          (client p) orgID id login = Ok (Some role)
         /\ Spec.LowersTo role "maintainer")
  /\ (m_Role entry = "owner" \/ m_Role entry = "member")
  /\ m_ID entry = login /\ m_Handle entry = login
  /\ (forall role,
         isASCII role = true ->
         (Spec.LowersTo role "maintainer"
          <-> Spec.SameUpToCase role "maintainer")).
Proof.
  intros login entry. subst login entry.
  apply and_tail4;
    [intros role Ha; now apply LowersTo_ascii|].
  unfold memberStep, bind, perform, ret.
  destruct (getUser r h (client p) (user_Login member)) as [user|err];
    cbn [fst snd].
  - destruct (getMembership _ _ _ _ _ _) as [[role|]|err];
      cbn [fst m_Role m_ID m_Handle detailedMember].
    + split; [|split; [apply normalizeRole_values | now split]].
      rewrite normalizeRole_owner_iff. unfold Spec.LowersTo. split.
      * intros Hr. exists user, role. now repeat split.
      * now intros (u & role' & _ & [= <-] & Hs).
    + split; [|split; [now right | now split]].
      split; [discriminate | now intros (? & ? & _ & ? & _)].
    + split; [|split; [now right | now split]].
      split; [discriminate | now intros (? & ? & _ & ? & _)].
  - split; [|split; [now right | now split]].
    split; [discriminate | now intros (? & ? & ? & _)].
Qed.

Lemma memberStep_calls (r : Remote) (p : Provider) (orgID id : Z)
      (member : User) (h : list Call) :
  exists calls,
    snd (memberStep r p orgID id member h) = (h ++ calls)%list
    /\ Obs4.lookedUp calls = [user_Login member]
    /\ (1 <= length calls <= 2)%nat
    /\ Forall (fun c => Obs4.teamVia c = client p) calls.
Proof.
  unfold memberStep, bind, perform, ret.
  destruct (getUser r h (client p) (user_Login member)) as [user|err].
  - exists [UsersGet (client p) (user_Login member);
            GetTeamMembershipByID (client p) orgID id (user_Login member)].
    simpl. rewrite <- app_assoc. repeat split; try lia.
    now repeat constructor.
  - exists [UsersGet (client p) (user_Login member)].
    simpl. repeat split; try lia. now repeat constructor.
Qed.

Lemma lookedUp_app (a b : list Call) :
  Obs4.lookedUp (a ++ b)%list = (Obs4.lookedUp a ++ Obs4.lookedUp b)%list.
Proof.
  induction a as [|c a IH]; [reflexivity|].
  destruct c; simpl; now rewrite IH.
Qed.

(** X21.  The member loop looks every listed member up with [Users.Get]
    exactly once, in the order of the list, whatever the lookups answer;
    it makes between one and two calls per member, all through the
    adapter's client handle. *)
Theorem member_loop_calls (r : Remote) (p : Provider) (orgID id : Z)
        (members : list User) (h : list Call) :
  exists calls,
    snd (memberLoop r p orgID id members h) = (h ++ calls)%list
    /\ Obs4.lookedUp calls = map user_Login members
    /\ (length members <= length calls <= 2 * length members)%nat
    /\ Forall (fun c => Obs4.teamVia c = client p) calls.
Proof.
  revert h. induction members as [|member members IH]; intros h.
  - exists []. simpl. rewrite app_nil_r. repeat split; auto.
  - cbn [memberLoop]. unfold bind, ret.
    destruct (memberStep_calls r p orgID id member h)
      as (c1 & Hc1 & Hu1 & Hl1 & Hv1).
    destruct (memberStep r p orgID id member h) as [entry h1].
    cbn [snd] in Hc1. subst h1.
    destruct (IH (h ++ c1)%list) as (c2 & Hc2 & Hu2 & Hl2 & Hv2).
    destruct (memberLoop r p orgID id members (h ++ c1)%list) as [rest h2].
    cbn [snd] in *. subst h2. exists (c1 ++ c2)%list.
    rewrite app_assoc, lookedUp_app, Hu1, Hu2, length_app. simpl.
    repeat split; try lia. now apply Forall_app.
Qed.

End TeamMembersMore.

Section TeamBridgeErrors.
Import TeamPlugin.
Context {U : GoStrings.Unicode}.

(** Takes the facts of the context apart and closes a goal on the answer
    to one request of the team loop. *)
Ltac answered :=
  repeat match goal with
    | H : _ /\ _ |- _ => destruct H
    | H : _ \/ _ |- _ => destruct H
    | H : exists _, _ |- _ => destruct H
    end;
  simplify_eq;
  repeat match goal with
    | E : ?x = (_, _), H : context [?x] |- _ => rewrite E in H
    end;
  cbn [fst snd] in *; simplify_eq;
  first [ reflexivity | congruence | eauto 12 ].

(** X25.  The team loop answers a request with the adapter's result
    exactly when the operation the request names, run on the decoded
    parameters, returns one; with a provider_error carrying the text of
    the error exactly when that operation ends in an error, whatever code
    the adapter gave it; with a bad_request, before any call, exactly when
    the parameters do not decode for a method of the table; and with a
    method_not_found, before any call, exactly when the method is outside
    the table. *)
Theorem team_bridge_error_codes
        (errorText : OpsOrchError -> string) (r : Team.Remote)
        (p : Team.Provider) (req : PluginRequest) (h : list Team.Call) :
  let answer := handleRequest errorText r p req h in
  match fst answer with
  | ResultOf v => Obs5.AdapterResult r p req h v
  | ErrorOf e =>
      (Code e = "method_not_found"
       /\ ~ In (Method req) methods /\ snd answer = h)
      \/ (Code e = "bad_request" /\ Obs5.Undecodable req /\ snd answer = h)
      \/ (Code e = "provider_error"
          /\ exists err,
               Obs5.AdapterError r p req h err
               /\ Message e = errorText err)
  end
  /\ (~ In (Method req) methods ->
      answer
      = (ErrorOf (mkPluginError "method_not_found"
                                ("Unknown method: " +:+ Method req)), h))
  /\ (Obs5.Undecodable req ->
      exists e, fst answer = ErrorOf e /\ Code e = "bad_request")
  /\ (forall err,
         Obs5.AdapterError r p req h err ->
         fst answer = ErrorOf (mkPluginError "provider_error" (errorText err)))
  /\ (forall v, Obs5.AdapterResult r p req h v -> fst answer = ResultOf v).
Proof.
  intros answer. subst answer.
  split; [|split; [apply team_handleRequest_unknown|]];
    unfold Obs5.Undecodable, Obs5.AdapterError, Obs5.AdapterResult,
           handleRequest, methods.
  - destruct (String.eqb_spec (Method req) "team.query") as [Hq|Hq].
    { destruct (asQuery (Params req)) as [q|e] eqn:Eq.
      - unfold bind, ret. destruct (Team.Query r p q h) as [[teams|err] h1] eqn:E;
          cbn [fst snd reply].
        + left. split; [assumption|]. exists q, teams. now rewrite E.
        + right. right. split; [reflexivity|]. exists err.
          split; [|reflexivity]. left. split; [assumption|].
          exists q. now rewrite E.
      - cbn [fst snd ret]. right. left. split; [reflexivity|].
        split; [|reflexivity]. left. split; [assumption|]. now exists e. }
    destruct (String.eqb_spec (Method req) "team.get") as [Hg|Hg].
    { destruct (asID (Params req)) as [id|e] eqn:Eq.
      - unfold bind, ret. destruct (Team.Get r p id h) as [[team|err] h1] eqn:E;
          cbn [fst snd reply].
        + right. left. split; [assumption|]. exists id, team. now rewrite E.
        + right. right. split; [reflexivity|]. exists err.
          split; [|reflexivity]. right. left. split; [assumption|].
          exists id. now rewrite E.
      - cbn [fst snd ret]. right. left. split; [reflexivity|].
        split; [|reflexivity]. right. left. split; [assumption|].
        now exists e. }
    destruct (String.eqb_spec (Method req) "team.members") as [Hm|Hm].
    { destruct (asTeamID (Params req)) as [id|e] eqn:Eq.
      - unfold bind, ret.
        destruct (Team.Members r p id h) as [[ms|err] h1] eqn:E;
          cbn [fst snd reply].
        + right. right. split; [assumption|]. exists id, ms. now rewrite E.
        + right. right. split; [reflexivity|]. exists err.
          split; [|reflexivity]. right. right. split; [assumption|].
          exists id. now rewrite E.
      - cbn [fst snd ret]. right. left. split; [reflexivity|].
        split; [|reflexivity]. right. right. split; [assumption|].
        now exists e. }
    cbn [fst snd ret]. left. split; [reflexivity|]. split; [|reflexivity].
    simpl. intuition congruence.
  - destruct (String.eqb_spec (Method req) "team.query") as [Hq|Hq].
    { destruct (asQuery (Params req)) as [q|e] eqn:Eq.
      - unfold bind, ret. destruct (Team.Query r p q h) as [[teams|err] h1] eqn:E;
          cbn [fst snd reply]; repeat split; intros; answered.
      - cbn [fst snd ret]. repeat split; intros; answered. }
    destruct (String.eqb_spec (Method req) "team.get") as [Hg|Hg].
    { destruct (asID (Params req)) as [id|e] eqn:Eq.
      - unfold bind, ret. destruct (Team.Get r p id h) as [[team|err] h1] eqn:E;
          cbn [fst snd reply]; repeat split; intros; answered.
      - cbn [fst snd ret]. repeat split; intros; answered. }
    destruct (String.eqb_spec (Method req) "team.members") as [Hm|Hm].
    { destruct (asTeamID (Params req)) as [id|e] eqn:Eq.
      - unfold bind, ret.
        destruct (Team.Members r p id h) as [[ms|err] h1] eqn:E;
          cbn [fst snd reply]; repeat split; intros; answered.
      - cbn [fst snd ret]. repeat split; intros; answered. }
    cbn [fst snd ret]. repeat split; intros; answered.
Qed.
End TeamBridgeErrors.

Section BridgeErrors.
Context {U : GoStrings.Unicode}.

(** X26.  In the ticket loop a request whose answer is not an adapter
    result or an adapter error made no call: a payload that does not
    decode for its method, like an unknown method, is answered before the
    adapter is used. *)
Theorem ticket_bridge_errors_without_call
        (r : Ticket.Remote) (p : Ticket.Provider)
        (req : TicketPlugin.rpcRequest) (h : list Ticket.Call) :
  match fst (TicketPlugin.dispatch r p req h) with
  | TicketPlugin.writeOK _ | TicketPlugin.writeErr (FromProvider _) =>
      In (TicketPlugin.Method req) TicketPlugin.methods
  | TicketPlugin.writeErr (FromJSON _) =>
      In (TicketPlugin.Method req) TicketPlugin.methods
      /\ snd (TicketPlugin.dispatch r p req h) = h
  | TicketPlugin.writeErr (Errorf _) =>
      ~ In (TicketPlugin.Method req) TicketPlugin.methods
      /\ snd (TicketPlugin.dispatch r p req h) = h
  end.
Proof.
  unfold TicketPlugin.dispatch, TicketPlugin.methods.
  destruct (String.eqb_spec (TicketPlugin.Method req) "ticket.query")
    as [Hq|Hq].
  { rewrite Hq. destruct (TicketPlugin.asQuery _) as [q|e]; simpl; auto.
    unfold bind, ret. destruct (Ticket.Query r p q h) as [[res|err] h1];
      simpl; auto. }
  destruct (String.eqb_spec (TicketPlugin.Method req) "ticket.get")
    as [Hg|Hg].
  { rewrite Hg. destruct (TicketPlugin.asID _) as [id|e]; simpl; auto.
    unfold bind, ret. destruct (Ticket.Get r p id h) as [[res|err] h1];
      simpl; auto. }
  destruct (String.eqb_spec (TicketPlugin.Method req) "ticket.create")
    as [Hc|Hc].
  { rewrite Hc. destruct (TicketPlugin.asCreate _) as [input|e]; simpl;
      auto 6.
    unfold bind, ret. destruct (Ticket.Create r p input h) as [[res|err] h1];
      simpl; auto 6. }
  destruct (String.eqb_spec (TicketPlugin.Method req) "ticket.update")
    as [Hu|Hu].
  { rewrite Hu. destruct (TicketPlugin.asUpdate _) as [[id input]|e]; simpl;
      auto 6.
    unfold bind, ret.
    destruct (Ticket.Update r p id input h) as [[res|err] h1];
      simpl; auto 6. }
  simpl. split; [intuition congruence | reflexivity].
Qed.

End BridgeErrors.

Section MembersFailure.
Import Team.
Context {U : GoStrings.Unicode}.

Lemma resolveTeamID_calls (r : Remote) (p : Provider) (teamID : string)
      (h : list Call) :
  exists calls,
    snd (resolveTeamID r p teamID h) = (h ++ calls)%list
    /\ (length calls <= 1)%nat /\ Obs4.lookedUp calls = []
    /\ forall e, fst (resolveTeamID r p teamID h) = Err e ->
                 exists err, e = wrapError err.
Proof.
  unfold resolveTeamID.
  destruct (GoStrconv.ParseInt teamID) as [id|].
  - exists []. unfold ret. simpl. rewrite app_nil_r.
    repeat split; auto. discriminate.
  - exists [GetTeamBySlug (client p) (Organization (config p)) teamID].
    unfold bind, perform, ret.
    destruct (getTeamBySlug _ _ _ _ _) as [team|err]; simpl;
      repeat split; auto; try discriminate.
    intros e [= <-]. now exists err.
Qed.

(** X22.  When [Members] fails, it failed in one of its at most three
    preliminary calls (the lookup by slug, the organisation, the member
    list): its error is a wrapped client error, and not a single
    [Users.Get] was made. *)
Theorem members_failure_is_early
        (r : Remote) (p : Provider) (teamID : string) (h : list Call)
        (e : OpsOrchError) :
  fst (Members r p teamID h) = Err e ->
  exists calls err,
    snd (Members r p teamID h) = (h ++ calls)%list
    /\ (length calls <= 3)%nat
    /\ Obs4.lookedUp calls = []
    /\ e = wrapError err.
Proof.
  unfold Members, bind.
  destruct (resolveTeamID_calls r p teamID h) as (c0 & Hc0 & Hl0 & Hu0 & He0).
  destruct (resolveTeamID r p teamID h) as [[id|e0] h0];
    cbn [fst snd] in *; subst h0.
  2:{ unfold ret. cbn [fst snd]. intros [= <-].
      destruct (He0 e0 eq_refl) as [err ->]. exists c0, err.
      repeat split; auto; lia. }
  unfold membersOf, bind, perform, ret.
  destruct (getOrganization _ _ _ _) as [orgID|err]; cbn [fst snd].
  2:{ intros [= <-].
      exists (c0 ++ [OrganizationsGet (client p) (Organization (config p))])%list,
             err.
      rewrite app_assoc, length_app, lookedUp_app, Hu0. simpl.
      repeat split; auto; lia. }
  destruct (listTeamMembers _ _ _ _ _ _) as [members|err]; cbn [fst snd].
  2:{ intros [= <-].
      exists (c0 ++ [OrganizationsGet (client p) (Organization (config p));
                     ListTeamMembersByID (client p) orgID id
                                         (mkListOptions 0 100)])%list, err.
      rewrite length_app, lookedUp_app, Hu0. simpl.
      rewrite <- !app_assoc. simpl. repeat split; auto; lia. }
  destruct (memberLoop _ _ _ _ _ _). cbn [fst]. discriminate.
Qed.

End MembersFailure.

Section ExtensionFields.
Context {U : GoStrings.Unicode}.

(** X23.  The extension fields of a ticket hold the issue's URL under
    url, its labels under labels exactly when it has any, its milestone's
    title under milestone exactly when it has one, and nothing else. *)
Theorem ticket_fields (p : Ticket.Provider) (issue : Ticket.Issue) :
  let fields := Ticket.t_Fields (Ticket.convertIssueToTicket p issue) in
  fields !! "url" = Some (AnyString (Ticket.issue_HTMLURL issue))
  /\ fields !! "labels"
     = match Ticket.issue_Labels issue with
       | [] => None
       | labels => Some (AnyStrings labels)
       end
  /\ fields !! "milestone" = AnyString <$> Ticket.issue_Milestone issue
  /\ forall key,
      ~ In key ["url"; "labels"; "milestone"] -> fields !! key = None.
Proof.
  unfold Ticket.convertIssueToTicket. cbn [Ticket.t_Fields].
  destruct (Ticket.issue_Milestone issue) as [title|],
           (Ticket.issue_Labels issue) as [|l ls];
    repeat split; try reflexivity;
    intros key Hk; simpl in Hk;
    repeat (rewrite lookup_insert_ne by (intros <-; intuition));
    (apply lookup_singleton_ne || idtac); intros <-; intuition.
Qed.

(** X24.  The extension fields of a deployment hold the workflow name,
    the branch and the full commit hash, the commit message exactly when
    the run has a head commit, and nothing else; its actor holds the
    login exactly when the run has an actor. *)
Theorem deployment_fields (p : Deployment.Provider)
        (run : Deployment.WorkflowRun) :
  let d := Deployment.convertWorkflowRunToDeployment p run in
  Deployment.d_Fields d !! "workflow_name"
  = Some (AnyString (Deployment.run_Name run))
  /\ Deployment.d_Fields d !! "branch"
     = Some (AnyString (Deployment.run_HeadBranch run))
  /\ Deployment.d_Fields d !! "commit"
     = Some (AnyString (Deployment.run_HeadSHA run))
  /\ Deployment.d_Fields d !! "commit_message"
     = AnyString <$> Deployment.run_HeadCommit run
  /\ (forall key,
         ~ In key ["workflow_name"; "branch"; "commit"; "commit_message"] ->
         Deployment.d_Fields d !! key = None)
  /\ Deployment.d_Actor d
     = match Deployment.run_Actor run with
       | Some actor => {["login" := AnyString (user_Login actor)]}
       | None => ∅
       end.
Proof.
  unfold Deployment.convertWorkflowRunToDeployment.
  cbn [Deployment.d_Fields Deployment.d_Actor].
  destruct (Deployment.run_HeadCommit run) as [message|];
    repeat split; try reflexivity;
    intros key Hk; simpl in Hk;
    repeat (rewrite lookup_insert_ne by (intros <-; intuition));
    apply lookup_singleton_ne; intros <-; intuition.
Qed.

End ExtensionFields.


(** ** Sample runs *)

Section Runs.
Context {U : GoStrings.Unicode}.

(** The same query, evaluated: the failed run and the skipped one, which
    counts as cancelled. *)
Example deployment_query_filters_run :
  match fst (Deployment.Query (Samples.deploymentRemote MoreSamples.page)
                              Samples.deploymentProvider
                              MoreSamples.failedQuery []) with
  | Ok result =>
      map (fun d => (Deployment.d_ID d, Deployment.d_Status d,
                     Deployment.d_Environment d, Deployment.d_Version d))
          result
      = [("3", "failed", "staging", "0123456");
         ("4", "cancelled", "staging", "0123456")]
  | Err _ => False
  end.
Proof. reflexivity. Qed.

Example team_query_filters_run :
  fst (Team.Query Samples.teamRemote Samples.teamProvider
                  (Team.mkQuery "PLAT" {["privacy" := "closed"]}) [])
  = Ok [Team.convertTeamToSchema Samples.teamProvider Samples.platformTeam]
  /\ fst (Team.Query Samples.teamRemote Samples.teamProvider
                     (Team.mkQuery "" {["privacy" := "closed";
                                        "permission" := "admin"]}) [])
     = Ok [].
Proof. split; reflexivity. Qed.

(** The team plugin on an input with a JSON array between two requests and
    text that is not JSON before a third: two responses are written, and
    [main] does not return. *)
Example team_main_spins_run :
  fst (TeamPlugin.main
         MoreSamples.errorText Samples.teamRemote
         (TeamPlugin.EnvObject
            (<["token" := AnyString "t0ken"]>
               {["organization" := AnyString "acme"]}))
         MoreSamples.teamInput [])
  = TeamPlugin.Spinning
      [TeamPlugin.ResultOf
         (TeamPlugin.OneTeam
            (Team.convertTeamToSchema Samples.teamProvider
                                      Samples.platformTeam));
       TeamPlugin.ErrorOf
         (TeamPlugin.mkPluginError "method_not_found"
                                   "Unknown method: team.rename")].
Proof. reflexivity. Qed.

End Runs.

(** ** The theorems at sample inputs

    The lemmas of this part apply theorems of the parts above to the
    sample data, or run the model on it.  The sample data is ASCII text,
    for which [strings.ToLower] and [strings.EqualFold] do not consult the
    Unicode tables; the runs are made with [asciiTables]. *)

Section TicketSamples.
Import GoStrings GoStrconv Ticket.
#[local] Existing Instance asciiTables.

(** C3, as stated, fails: an update whose status is "Pending" sends an
    edit request with no state at all, not the lower-cased "pending". *)
Lemma update_unknown_status_counterexample :
  let input := mkUpdateInput None None (Some "Pending") None in
  u_Status input = Some "Pending"
  /\ "Pending" <> ""
  /\ ~ Spec.OneOf Spec.aliasValues "Pending"
  /\ ~ Spec.LowersInto Spec.aliasValues "Pending"
  /\ snd (Update (Samples.ticketRemote []) Samples.ticketProvider "7" input [])
     = [IssuesEdit (NewTokenClient "t0ken") "acme" "widgets" 7
                   (mkIssueRequest None None None None None)]
  /\ req_State (updateRequest input) <> Some (ToLower "Pending")
  /\ req_State (updateRequest input) <> Some "Pending".
Proof.
  repeat split; try discriminate.
  - intros H. apply OneOf_lowers in H; [|repeat constructor].
    vm_compute in H. intuition discriminate.
  - vm_compute. intuition discriminate.
Qed.

(** The update of the counterexample: one edit call, without a state. *)
Lemma update_unknown_status_unset_witness :
  (exists request,
      snd (Update (Samples.ticketRemote []) Samples.ticketProvider "7"
                  (mkUpdateInput None None (Some "Pending") None) [])
      = [IssuesEdit (NewTokenClient "t0ken") "acme" "widgets" 7 request]
      /\ req_State request = None)
  /\ (forall issue,
         ~ Spec.LowersInto ["open"; "closed"] (issue_State issue) ->
         normalizeStatus (issue_State issue) = issue_State issue
         /\ t_Status (convertIssueToTicket Samples.ticketProvider issue)
            = issue_State issue).
Proof.
  destruct (update_unknown_status_unset
              (Samples.ticketRemote []) Samples.ticketProvider "7" 7
              (mkUpdateInput None None (Some "Pending") None) "Pending" [])
    as (Hcall & Hread & _).
  - reflexivity.
  - reflexivity.
  - discriminate.
  - vm_compute. intuition discriminate.
  - split; assumption.
Defined.

(** C4, as stated, fails twice: normalising the role "maintainer" a second
    time turns "owner" into "member", and the ticket statuses "Pending"
    and "pending", equal up to case, are normalised to different
    strings. *)
Lemma normalizers_counterexample :
  Team.normalizeRole (Team.normalizeRole "maintainer")
  <> Team.normalizeRole "maintainer"
  /\ Spec.SameUpToCase "Pending" "pending"
  /\ Spec.SameLowered "Pending" "pending"
  /\ Ticket.normalizeStatus "Pending" <> Ticket.normalizeStatus "pending".
Proof.
  split; [discriminate|]. split; [|split; [reflexivity | discriminate]].
  now apply SameUpToCase_iff.
Qed.

(** C5, as stated, fails at limit 1, which is not strictly between 1 and
    100: both queries ask for a page of 1 record, not of 100. *)
Lemma page_size_counterexample :
  ~ (1 < 1 < 100)%Z
  /\ snd (Ticket.Query (Samples.ticketRemote []) Samples.ticketProvider
                       (Ticket.mkQuery [] "" 1 ∅) [])
     = [Ticket.ListByRepo (NewTokenClient "t0ken") "acme" "widgets"
          (Ticket.mkOpts "" "" [] (mkListOptions 0 1))]
  /\ snd (Deployment.Query (Samples.deploymentRemote [])
                           Samples.deploymentProvider
                           (Deployment.mkQuery []
                              (Deployment.mkScope "" "" "") 1 ∅) [])
     = [Deployment.ListRepositoryWorkflowRuns
          (NewTokenClient "t0ken") "acme" "widgets"
          (Deployment.mkOpts "" "" "" "" (mkListOptions 0 1))].
Proof. split; [lia|]. split; reflexivity. Qed.

(** A ticket query with limit 5 against a page of five records, two of
    them pull requests. *)
Lemma query_single_page_witness :
  exists tickets,
    fst (Ticket.Query
           (Samples.ticketRemote
              [Samples.issue 1 "open" None; Samples.issue 2 "open" (Some "pr");
               Samples.issue 3 "closed" None; Samples.issue 4 "open" None;
               Samples.issue 5 "open" (Some "pr")])
           Samples.ticketProvider (Ticket.mkQuery [] "" 5 ∅) [])
    = Ok tickets
    /\ (Z.of_nat (length tickets) <= 5)%Z.
Proof.
  destruct query_single_page as (_ & _ & _ & _ & H & _).
  apply (H (Samples.ticketRemote
              [Samples.issue 1 "open" None; Samples.issue 2 "open" (Some "pr");
               Samples.issue 3 "closed" None; Samples.issue 4 "open" None;
               Samples.issue 5 "open" (Some "pr")])
           Samples.ticketProvider (Ticket.mkQuery [] "" 5 ∅) []
           [Samples.issue 1 "open" None; Samples.issue 2 "open" (Some "pr");
            Samples.issue 3 "closed" None; Samples.issue 4 "open" None;
            Samples.issue 5 "open" (Some "pr")]).
  - reflexivity.
  - vm_compute. discriminate.
  - reflexivity.
Defined.

(** A configuration whose owner is a number: both adapters name owner,
    although repo would pass and token did. *)
Lemma construction_validates_in_order_witness :
  Ticket.New Samples.wrongOwnerConfig = Err "owner is required"
  /\ Deployment.New Samples.wrongOwnerConfig = Err "owner is required".
Proof.
  destruct construction_validates_in_order as (H & _).
  apply (H Samples.wrongOwnerConfig "owner").
  exists ["token"], ["repo"]. split; [reflexivity|]. split.
  - constructor; [|constructor]. exists "t0ken". reflexivity.
  - intros [s Hs]. vm_compute in Hs. discriminate.
Defined.

(** Three requests: one whose configuration is empty, one whose
    configuration validates, one carrying another owner.  The adapter of
    the second is the one the loop ends with. *)
Lemma bridge_state_machine_witness :
  fst (fst (TicketPlugin.serve
              (Samples.ticketRemote []) None
              ([Samples.unknownMethodRequest]
                 ++ Samples.getRequest :: [Samples.otherOwnerRequest])%list
              []))
  = Some Samples.ticketProvider.
Proof.
  destruct bridge_state_machine as (_ & _ & (_ & _ & _ & _ & _ & H & _) & _).
  apply H.
  - constructor; [|constructor]. exists "token is required". reflexivity.
  - reflexivity.
Defined.

(** C7, as stated, fails in the ticket loop: a request for the unknown
    method "ticket.delete" that arrives while there is no adapter, with a
    configuration that does not validate, is answered with the validation
    error and not with an unknown-method error. *)
Lemma unknown_method_counterexample :
  ~ In (TicketPlugin.Method Samples.unknownMethodRequest) TicketPlugin.methods
  /\ TicketPlugin.loop (Samples.ticketRemote []) None
                       [Request_ Samples.unknownMethodRequest] []
     = ([TicketPlugin.writeErr (Errorf "token is required")], [])
  /\ TicketPlugin.writeErr (Errorf "token is required")
     <> TicketPlugin.writeErr (Errorf "unknown method: ticket.delete").
Proof.
  split; [|split]; [|reflexivity|discriminate].
  simpl. intuition discriminate.
Qed.

(** The unknown method "ticket.delete", sent after the adapter was built:
    the answer is the unknown-method error, no call is made, and the
    adapter stays. *)
Lemma unknown_method_amended_witness :
  TicketPlugin.handle (Samples.ticketRemote []) (Some Samples.ticketProvider)
                      Samples.unknownMethodRequest []
  = ((Some Samples.ticketProvider,
      TicketPlugin.writeErr (Errorf "unknown method: ticket.delete")), []).
Proof.
  destruct unknown_method_amended as (_ & _ & H & _).
  apply (H (Samples.ticketRemote []) (Some Samples.ticketProvider)
           Samples.unknownMethodRequest []).
  simpl. intuition discriminate.
Defined.

(** The id of a converted run, given back to [Get]. *)
Lemma converted_id_round_trip_witness :
  snd (Deployment.Get
         (Samples.deploymentRemote []) Samples.deploymentProvider
         (Deployment.d_ID
            (Deployment.convertWorkflowRunToDeployment
               Samples.deploymentProvider (Samples.run 6021023))) [])
  = [Deployment.GetWorkflowRunByID (NewTokenClient "t0ken") "acme" "widgets"
                                   6021023].
Proof.
  destruct converted_id_round_trip as (_ & H).
  apply (H (Samples.deploymentRemote []) Samples.deploymentProvider
           (Samples.run 6021023) []).
  unfold Obs.InInt64. simpl. split; discriminate.
Defined.

End TicketSamples.

Section TeamSamples.
Import Team.
#[local] Existing Instance asciiTables.

(** A team of three whose second member has no readable profile. *)
Lemma members_degrade_witness :
  exists result,
    fst (Members Samples.teamRemote Samples.teamProvider "platform" [])
    = Ok result
    /\ length result = 3%nat
    /\ forall before member after err,
        Samples.platformMembers = (before ++ member :: after)%list ->
        getUser Samples.teamRemote
                (snd (memberLoop Samples.teamRemote Samples.teamProvider
                        100 9 before
                        [GetTeamBySlug (NewTokenClient "t0ken")
                                       "acme" "platform";
                         OrganizationsGet (NewTokenClient "t0ken") "acme";
                         ListTeamMembersByID (NewTokenClient "t0ken") 100 9
                                             (mkListOptions 0 100)]))
                (NewTokenClient "t0ken") (user_Login member) = Err err ->
        exists entry,
          result !! length before = Some entry
          /\ m_Role entry = "member"
          /\ m_ID entry = user_Login member
          /\ m_Name entry = user_Login member
          /\ m_Handle entry = user_Login member
          /\ m_Email entry = ""
          /\ m_Metadata entry !! "github_id"
             = Some (AnyNumber (user_ID member))
          /\ m_Metadata entry !! "avatar_url"
             = Some (AnyString (user_AvatarURL member))
          /\ m_Metadata entry !! "html_url"
             = Some (AnyString (user_HTMLURL member))
          /\ m_Metadata entry !! "site_admin"
             = Some (AnyBool (user_SiteAdmin member))
          /\ m_Metadata entry !! "type"
             = Some (AnyString (user_Type member))
          /\ forall key,
              ~ In key ["github_id"; "avatar_url"; "html_url"; "site_admin";
                        "type"] ->
              m_Metadata entry !! key = None.
Proof.
  apply (members_degrade
           Samples.teamRemote Samples.teamProvider "platform" [] 9
           [GetTeamBySlug (NewTokenClient "t0ken") "acme" "platform"]
           100 Samples.platformMembers).
  - reflexivity.
  - reflexivity.
  - reflexivity.
Defined.

(** A remote whose organisation cannot be read: the failure comes before
    any member is looked up. *)
Lemma members_failure_is_early_witness :
  exists calls err,
    snd (Members MoreSamples.noOrganization Samples.teamProvider "platform" [])
    = ([] ++ calls)%list
    /\ (length calls <= 3)%nat
    /\ Obs4.lookedUp calls = []
    /\ mkOpsOrchError "forbidden"
         "GitHub API access forbidden - check token permissions"
       = wrapError err.
Proof.
  apply (members_failure_is_early
           MoreSamples.noOrganization Samples.teamProvider "platform" []).
  reflexivity.
Defined.

(** An input with a JSON array between two requests and text that is not
    JSON before a third: the two first requests are answered, the third
    is not. *)
Lemma team_loop_skips_decode_errors_witness :
  TeamPlugin.loop MoreSamples.errorText Samples.teamRemote
                  Samples.teamProvider MoreSamples.teamInput []
  = TeamPlugin.loop
      MoreSamples.errorText Samples.teamRemote Samples.teamProvider
      [Request_ (TeamPlugin.mkRequest "team.get"
                   (MoreSamples.teamParams "platform"));
       Request_ (TeamPlugin.mkRequest "team.rename"
                   (MoreSamples.teamParams "platform"))] []
  /\ length (fst (TeamPlugin.loop MoreSamples.errorText Samples.teamRemote
                                  Samples.teamProvider
                                  MoreSamples.teamInput []))
     = 2%nat.
Proof.
  destruct (team_loop_skips_decode_errors
              MoreSamples.errorText Samples.teamRemote Samples.teamProvider
              MoreSamples.teamInput []) as (Hsame & Hlength & _).
  - repeat constructor; discriminate.
  - split; [exact Hsame | exact Hlength].
Defined.

(** A query for the teams whose name holds "PLAT". *)
Lemma team_query_filters_witness :
  exists result,
    Team.Query Samples.teamRemote Samples.teamProvider
               (Team.mkQuery "PLAT" {["privacy" := "closed"]}) []
    = (Ok result,
       ([] ++ [Team.ListTeams (NewTokenClient "t0ken") "acme"
                              (mkListOptions 0 100)])%list)
    /\ sublist result
               (map (Team.convertTeamToSchema Samples.teamProvider)
                    [Samples.platformTeam])
    /\ forall t,
        In t result
        <-> In t (map (Team.convertTeamToSchema Samples.teamProvider)
                      [Samples.platformTeam])
            /\ Obs4.TeamMatches
                 (Team.mkQuery "PLAT" {["privacy" := "closed"]}) t.
Proof.
  destruct (team_query_filters
              Samples.teamRemote Samples.teamProvider
              (Team.mkQuery "PLAT" {["privacy" := "closed"]}) []
              [Samples.platformTeam])
    as (result & Hcall & Hsub & Hin & _).
  - reflexivity.
  - exists result. split; [exact Hcall|]. split; [exact Hsub | exact Hin].
Defined.

(** A query for the teams of another organisation. *)
Lemma team_query_by_own_tags_witness :
  fst (Team.Query Samples.teamRemote Samples.teamProvider
                  MoreSamples.foreignQuery [])
  = Ok [].
Proof.
  destruct (team_query_by_own_tags
              Samples.teamRemote Samples.teamProvider
              MoreSamples.foreignQuery [] [Samples.platformTeam] eq_refl)
    as (H & _).
  apply (H "globex"); [reflexivity | discriminate].
Defined.

End TeamSamples.

Section DeploymentSamples.
#[local] Existing Instance asciiTables.

(** A query for failed and cancelled deployments of the staging
    environment, against a page of four runs. *)
Lemma deployment_query_filters_witness :
  exists result,
    fst (Deployment.Query (Samples.deploymentRemote MoreSamples.page)
                          Samples.deploymentProvider
                          MoreSamples.failedQuery [])
    = Ok result
    /\ Forall (Obs3.Matches MoreSamples.failedQuery) result
    /\ sublist result
               (map (Deployment.convertWorkflowRunToDeployment
                       Samples.deploymentProvider) MoreSamples.page)
    /\ (forall run,
           In run MoreSamples.page ->
           Obs3.Matches MoreSamples.failedQuery
             (Deployment.convertWorkflowRunToDeployment
                Samples.deploymentProvider run) ->
           In (Deployment.convertWorkflowRunToDeployment
                 Samples.deploymentProvider run) result).
Proof.
  destruct (deployment_query_filters
              (Samples.deploymentRemote MoreSamples.page)
              Samples.deploymentProvider MoreSamples.failedQuery []
              MoreSamples.page)
    as (result & Hresult & Hall & Hsub & Hin & _).
  - reflexivity.
  - exists result. split; [exact Hresult|]. split; [exact Hall|].
    split; [exact Hsub | exact Hin].
Defined.

(** A query for the runs in progress, by the upstream name of that
    status. *)
Lemma deployment_query_matches_nothing_witness :
  fst (Deployment.Query (Samples.deploymentRemote MoreSamples.page)
                        Samples.deploymentProvider
                        MoreSamples.inProgressQuery [])
  = Ok [].
Proof.
  apply (deployment_query_matches_nothing
           (Samples.deploymentRemote MoreSamples.page)
           Samples.deploymentProvider MoreSamples.inProgressQuery []
           MoreSamples.page).
  - reflexivity.
  - right. right. split; [discriminate|]. split; repeat constructor.
Defined.

End DeploymentSamples.
